(** * ODrive [tools/dfu.py]: a shallow embedding and its verification

    The flashing tool reads the flash layout of an STM32 in DFU mode from
    the names of its USB alternate settings, selects the sectors an Intel
    HEX image touches, and erases, programs and verifies them through the
    DfuSe state machine.  This file embeds the functions of [dfu.py] and
    proves the properties the specification states about them.

    Python values are modelled as follows: [int] is [Z]; [str] is a list of
    characters ([ascii], code points below 256); byte arrays are lists of
    [byte]; a dictionary with fixed keys is a record; an exception is a
    value of [exn] carried by [result]; a generator is the list of the
    values it yields together with the exception that ended it, if any;
    calls on the [dfuse.DfuDevice] object are nodes of a program tree
    ([dfu]) that is run against an arbitrary device. *)

From Stdlib Require Import ZArith List Ascii String Strings.Byte Bool Lia.
From stdpp Require Import gmap sorting.
Import ListNotations.

Local Open Scope Z_scope.

(** ** Exceptions and results *)

(** States of the DFU state machine.
    Modelled from the spec: [dfuse.DfuState] is declared in the [dfuse]
    module, not in [dfu.py]; these are the states section 4.3 lists. *)
Inductive DfuState : Type :=
| DFU_IDLE
| DFU_DOWNLOAD_SYNC
| DFU_DOWNLOAD_BUSY
| DFU_DOWNLOAD_IDLE
| DFU_MANIFEST_SYNC
| DFU_MANIFEST
| DFU_UPLOAD_IDLE
| DFU_ERROR.

Definition DfuState_eqb (a b : DfuState) : bool :=
  match a, b with
  | DFU_IDLE, DFU_IDLE
  | DFU_DOWNLOAD_SYNC, DFU_DOWNLOAD_SYNC
  | DFU_DOWNLOAD_BUSY, DFU_DOWNLOAD_BUSY
  | DFU_DOWNLOAD_IDLE, DFU_DOWNLOAD_IDLE
  | DFU_MANIFEST_SYNC, DFU_MANIFEST_SYNC
  | DFU_MANIFEST, DFU_MANIFEST
  | DFU_UPLOAD_IDLE, DFU_UPLOAD_IDLE
  | DFU_ERROR, DFU_ERROR => true
  | _, _ => false
  end.

(** The tuple [wait_while_state] returns.  [dfu.py] only reads
    [status[1]], the state; the first component is kept as an integer. *)
Definition status : Type := (Z * DfuState)%type.

(** [status[1]] *)
Definition status_1 (st : status) : DfuState := snd st.

(** The exceptions the tool can end with. *)
Inductive exn : Type :=
| ValueError
| KeyError
| IndexError
| TypeError
| ZeroDivisionError
| OverflowError
| StructError
  (* [Exception("arrays must be same size")] *)
| ArraysMustBeSameSize
  (* [RuntimeError("An error occured. Device Status: %r" % status)], the
     error that carries the status: what the protocol asks for; see
     [raise_status_error] for what the format expression does *)
| DeviceStatusError (st : status)
  (* [RuntimeError("An error occured. Device Status: {}".format(status[1]))] *)
| DeviceStateError (s : DfuState)
  (* [RuntimeError("Verification failed around address ...")] with the
     address and the expected and observed windows it prints *)
| VerificationFailed (address : Z) (expected observed : list byte)
  (* whatever a call on the device object itself raises *)
| DeviceError (code : Z).

Inductive result (A : Type) : Type :=
| Ok (a : A)
| Raise (e : exn).
Arguments Ok {A} a.
Arguments Raise {A} e.

Definition rbind {A B : Type} (m : result A) (k : A -> result B) : result B :=
  match m with
  | Ok a => k a
  | Raise e => Raise e
  end.

Declare Scope py_scope.
Delimit Scope py_scope with py.
Notation "x <- m ;; k" := (rbind m (fun x => k))
  (at level 100, m at next level, right associativity) : py_scope.
Local Open Scope py_scope.

Definition is_ok {A : Type} (r : result A) : bool :=
  match r with Ok _ => true | Raise _ => false end.

(** ** Python built-ins used by [dfu.py] *)

Module Py.

(** [str]: a list of characters. *)
Definition str : Type := list ascii.

(** A string literal. *)
Definition lit (s : string) : str := list_ascii_of_string s.

Definition code (c : ascii) : Z := Z.of_N (N_of_ascii c).

(** [c.isspace()] for code points below 256. *)
Definition isspace (c : ascii) : bool :=
  let n := code c in
  ((9 <=? n) && (n <=? 13)) || ((28 <=? n) && (n <=? 32))
  || (n =? 133) || (n =? 160).

Fixpoint lstrip_by (p : ascii -> bool) (s : str) : str :=
  match s with
  | [] => []
  | c :: rest => if p c then lstrip_by p rest else s
  end.

Definition strip_by (p : ascii -> bool) (s : str) : str :=
  rev (lstrip_by p (rev (lstrip_by p s))).

(** [s.strip()] *)
Definition strip (s : str) : str := strip_by isspace s.

(** [s.strip(chars)] *)
Definition strip_chars (chars : str) (s : str) : str :=
  strip_by (fun c => existsb (Ascii.eqb c) chars) s.

(** [s.split(sep)] for a one-character separator. *)
Fixpoint split (sep : ascii) (s : str) : list str :=
  match s with
  | [] => [[]]
  | c :: rest =>
      if Ascii.eqb c sep then [] :: split sep rest
      else match split sep rest with
           | [] => [[c]]
           | w :: ws => (c :: w) :: ws
           end
  end.

(** [s.replace(old, '')] for a one-character [old]. *)
Definition remove_char (old : ascii) (s : str) : str :=
  List.filter (fun c => negb (Ascii.eqb c old)) s.

(** [c.upper()] on one character.  Only the letters a-z change; the result
    is only ever compared with the keys [' '], ['K'] and ['M'], which no
    other character maps to. *)
Definition upper_char (c : ascii) : ascii :=
  let n := code c in
  if (97 <=? n) && (n <=? 122) then ascii_of_N (Z.to_N (n - 32)) else c.

Definition upper (s : str) : str := map upper_char s.

(** A slice bound clamped to the sequence: a negative bound counts from
    the end. *)
Definition clamp (n i : Z) : Z :=
  if i <? 0 then Z.max 0 (i + n) else Z.min i n.

(** [l[a:b]] *)
Definition slice {A : Type} (a b : Z) (l : list A) : list A :=
  let n := Z.of_nat (length l) in
  let a' := clamp n a in
  let b' := clamp n b in
  firstn (Z.to_nat (b' - a')) (skipn (Z.to_nat a') l).

(** [l[i]]: a negative index counts from the end; [IndexError] outside
    the sequence. *)
Definition index {A : Type} (i : Z) (l : list A) : result A :=
  let n := Z.of_nat (length l) in
  let j := if i <? 0 then i + n else i in
  if (j <? 0) || (n <=? j) then Raise IndexError
  else match nth_error l (Z.to_nat j) with
       | Some x => Ok x
       | None => Raise IndexError
       end.

(** The value of a digit in bases up to 36. *)
Definition digit_val (c : ascii) : option Z :=
  let n := code c in
  if (48 <=? n) && (n <=? 57) then Some (n - 48)
  else if (97 <=? n) && (n <=? 122) then Some (n - 87)
  else if (65 <=? n) && (n <=? 90) then Some (n - 55)
  else None.

(** The digits of an integer literal: digits of the base, single
    underscores allowed between two digits only. *)
Fixpoint scan_digits (base acc : Z) (prev_digit : bool) (s : str) : option Z :=
  match s with
  | [] => if prev_digit then Some acc else None
  | c :: rest =>
      if Ascii.eqb c "_"%char then
        if prev_digit then scan_digits base acc false rest else None
      else match digit_val c with
           | Some d =>
               if d <? base then scan_digits base (acc * base + d) true rest
               else None
           | None => None
           end
  end.

(** Splits an optional sign off. *)
Definition take_sign (s : str) : bool * str :=
  match s with
  | c :: rest =>
      if Ascii.eqb c "-"%char then (true, rest)
      else if Ascii.eqb c "+"%char then (false, rest)
      else (false, s)
  | [] => (false, s)
  end.

Definition apply_sign (neg : bool) (v : option Z) : result Z :=
  match v with
  | Some z => Ok (if neg then - z else z)
  | None => Raise ValueError
  end.

(** The white space [int] skips around a literal, for code points below
    256: ASCII white space and the spaces U+0085 and U+00A0.  The
    separators U+001C to U+001F, which [str.isspace] accepts, are not
    skipped. *)
Definition int_space (c : ascii) : bool :=
  let n := code c in
  ((9 <=? n) && (n <=? 13)) || (n =? 32) || (n =? 133) || (n =? 160).

(** [int(x)]: surrounding white space, an optional sign, decimal digits. *)
Definition int (x : str) : result Z :=
  let '(neg, s) := take_sign (strip_by int_space x) in
  apply_sign neg (scan_digits 10 0 false s).

(** One underscore may follow a base prefix. *)
Definition skip_underscore (s : str) : str :=
  match s with
  | c :: rest => if Ascii.eqb c "_"%char then rest else s
  | [] => s
  end.

(** The unsigned part of a literal read with base 0: [0x], [0o] and [0b]
    prefixes select the base; a decimal literal with a leading zero must be
    zero. *)
Definition scan_literal (s : str) : option Z :=
  match s with
  | z :: p :: rest =>
      if Ascii.eqb z "0"%char then
        if Ascii.eqb p "x"%char || Ascii.eqb p "X"%char
        then scan_digits 16 0 false (skip_underscore rest)
        else if Ascii.eqb p "o"%char || Ascii.eqb p "O"%char
        then scan_digits 8 0 false (skip_underscore rest)
        else if Ascii.eqb p "b"%char || Ascii.eqb p "B"%char
        then scan_digits 2 0 false (skip_underscore rest)
        else match scan_digits 10 0 false s with
             | Some v => if v =? 0 then Some 0 else None
             | None => None
             end
      else scan_digits 10 0 false s
  | _ => scan_digits 10 0 false s
  end.

(** [int(x, 0)] *)
Definition int0 (x : str) : result Z :=
  let '(neg, s) := take_sign (strip_by int_space x) in
  apply_sign neg (scan_literal s).

(** [fractions.gcd(a, b)]: for integers the result of [math.gcd], negated
    when [b] (or [a], if [b] is zero) is negative. *)
Definition gcd (a b : Z) : Z :=
  if (if b =? 0 then a else b) <? 0 then - Z.gcd a b else Z.gcd a b.

(** [num / den] rounded to the nearest integer, a tie to the even one. *)
Definition round_half_even (num den : Z) : Z :=
  let q := num / den in
  let r := num mod den in
  if (den <? 2 * r) || ((den =? 2 * r) && Z.odd q) then q + 1 else q.

(** [floor (log2 (n / d))], for positive [n] and [d]. *)
Definition log2_ratio (n d : Z) : Z :=
  let k := Z.log2 n - Z.log2 d in
  if n * 2 ^ Z.max 0 (- k) <? d * 2 ^ Z.max 0 k then k - 1 else k.

(** [int(a / b)]: Python 3 divides two integers in floating point, with
    the quotient rounded correctly to the 53 bits of a double [m * 2^e]
    ([OverflowError] from [2^1024] on), and [int] truncates the float
    towards zero.  Quotients below the normal range of the doubles are
    rounded with 53 bits here as well; they truncate to zero either
    way. *)
Definition int_truediv (a b : Z) : result Z :=
  if b =? 0 then Raise ZeroDivisionError
  else if a =? 0 then Ok 0
  else
    let n := Z.abs a in
    let d := Z.abs b in
    let e := log2_ratio n d - 52 in
    let m := round_half_even (n * 2 ^ Z.max 0 (- e)) (d * 2 ^ Z.max 0 e) in
    if 2 ^ 1024 <=? m * 2 ^ Z.max 0 e then Raise OverflowError
    else
      let magnitude := m * 2 ^ Z.max 0 e / 2 ^ Z.max 0 (- e) in
      Ok (if Bool.eqb (a <? 0) (b <? 0) then magnitude else - magnitude).

(** [start, start + 1, ...]: [n] consecutive integers. *)
Fixpoint range_from (start : Z) (n : nat) : list Z :=
  match n with
  | O => []
  | S n' => start :: range_from (start + 1) n'
  end.

(** [range(n)] *)
Definition range (n : Z) : list Z := range_from 0 (Z.to_nat n).

(** [range(start, stop, step)] *)
Definition range3 (start stop step : Z) : result (list Z) :=
  if step =? 0 then Raise ValueError
  else
    let count :=
      if 0 <? step then (stop - start + step - 1) / step
      else (start - stop - step - 1) / (- step) in
    Ok (map (fun i => start + Z.of_nat i * step) (seq 0 (Z.to_nat count))).

(** [enumerate(l)] *)
Definition enumerate {A : Type} (l : list A) : list (Z * A) :=
  combine (range (Z.of_nat (length l))) l.

End Py.

(** ** The sector map: [get_device_sectors] *)

(** [SIZE_MULTIPLIERS = {' ': 1, 'K': 1024, 'M' : 1024*1024}] *)
Definition SIZE_MULTIPLIERS : gmap ascii Z :=
  {[ " "%char := 1; "K"%char := 1024; "M"%char := 1024 * 1024 ]}.

(** [MAX_TRANSFER_SIZE = 2048] *)
Definition MAX_TRANSFER_SIZE : Z := 2048.

(** [d[key]] on a dictionary: [KeyError] for a missing key. *)
Definition getitem {K V : Type} `{Countable K} (d : gmap K V) (key : K) : result V :=
  match d !! key with
  | Some v => Ok v
  | None => Raise KeyError
  end.

(** The dictionary [get_device_sectors] yields for one sector. *)
Record sector : Type := mk_sector {
  sec_name : Py.str;
  sec_alt : Z;
  sec_baseaddr : Z;
  sec_addr : Z;
  sec_len : Z;
  sec_mode : ascii
}.

(** What a generator produces when it is run to its end: the values it
    yields, in order, and the exception that ended it, if one did. *)
Record generated (A : Type) : Type := mk_generated {
  yielded : list A;
  raised : option exn
}.
Arguments mk_generated {A} yielded raised.
Arguments yielded {A} g.
Arguments raised {A} g.

(** [list(g)] *)
Definition list_of {A : Type} (g : generated A) : result (list A) :=
  match raised g with
  | None => Ok (yielded g)
  | Some e => Raise e
  end.

(** [repeat, size = map(int, parts)]: exactly two items, each an integer
    literal; every other case ends in [ValueError]. *)
Definition unpack_repeat_size (parts : list Py.str) : result (Z * Z) :=
  match parts with
  | [a; b] =>
      repeat <- Py.int a ;;
      size <- Py.int b ;;
      Ok (repeat, size)
  | _ => Raise ValueError
  end.

(** Lines 53-55: what one layout term [sector] stands for. *)
Definition parse_term (sector : Py.str) : result (Z * Z * ascii) :=
  rs <- unpack_repeat_size (Py.split "*"%char (Py.slice 0 (-2) sector)) ;;
  unit <- Py.index (-2) sector ;;
  mult <- getitem SIZE_MULTIPLIERS (Py.upper_char unit) ;;
  mode <- Py.index (-1) sector ;;
  Ok (fst rs, snd rs * mult, mode).

(** Lines 57-69: the loop [while repeat > 0], which runs [repeat] times
    (not at all for [repeat <= 0]) and returns the sectors it yields. *)
Fixpoint yield_sectors (repeat : nat) (label : Py.str) (alt baseaddr addr size : Z)
    (mode : ascii) : list sector :=
  match repeat with
  | O => []
  | S repeat' =>
      {| sec_name := Py.strip_chars (Py.lit "@") (Py.strip label);
         sec_alt := alt;
         sec_baseaddr := baseaddr;
         sec_addr := addr;
         sec_len := size;
         sec_mode := mode |}
      :: yield_sectors repeat' label alt baseaddr (addr + size) size mode
  end.

(** Lines 52-69: the loop over the terms of one layout. *)
Fixpoint layout_loop (label : Py.str) (alt baseaddr addr : Z) (terms : list Py.str)
    : generated sector :=
  match terms with
  | [] => mk_generated [] None
  | term :: rest =>
      match parse_term term with
      | Raise e => mk_generated [] (Some e)
      | Ok (repeat, size, mode) =>
          let n := Z.to_nat repeat in
          let g := layout_loop label alt baseaddr (addr + Z.of_nat n * size) rest in
          mk_generated
            (yield_sectors n label alt baseaddr addr size mode ++ yielded g)
            (raised g)
      end
  end.

(** Lines 48-69: the body of the loop over the alternates. *)
Definition alternate_sectors (name : Py.str) (alt : Z) : generated sector :=
  match Py.split "/"%char name with
  | [label; baseaddr; layout] =>
      match Py.int0 baseaddr with
      | Raise e => mk_generated [] (Some e)
      | Ok baseaddr => layout_loop label alt baseaddr baseaddr (Py.split ","%char layout)
      end
  | _ => mk_generated [] (Some ValueError)
  end.

(** [get_device_sectors], on the list [dfudev.alternates()] returns. *)
Fixpoint get_device_sectors (alternates : list (Py.str * Z)) : generated sector :=
  match alternates with
  | [] => mk_generated [] None
  | (name, alt) :: rest =>
      let g := alternate_sectors name alt in
      match raised g with
      | Some e => g
      | None =>
          let g' := get_device_sectors rest in
          mk_generated (yielded g ++ yielded g') (raised g')
      end
  end.

(** ** The firmware image *)

Module IntelHex.

(** Modelled from the spec: the [intelhex] package is not part of
    [dfu.py].  An image is a sparse map from addresses to bytes
    (section 1); [segments] enumerates its occupied ranges [[start, end)]
    and [tobinarray] extracts the bytes of a span, gaps filled with
    [0xFF] (section 6). *)

(** The addresses the image defines, ascending. *)
Definition addresses (ih : gmap Z byte) : list Z :=
  merge_sort Z.le ((map_to_list ih).*1).

(** The maximal runs of consecutive addresses, the current run being
    [[start, next)]. *)
Fixpoint runs_from (start next : Z) (addrs : list Z) : list (Z * Z) :=
  match addrs with
  | [] => [(start, next)]
  | a :: rest =>
      if a =? next then runs_from start (next + 1) rest
      else (start, next) :: runs_from a (a + 1) rest
  end.

(** [hexfile.segments()] *)
Definition segments (ih : gmap Z byte) : list (Z * Z) :=
  match addresses ih with
  | [] => []
  | a :: rest => runs_from a (a + 1) rest
  end.

(** The padding byte. *)
Definition padding : byte := xff.

(** [hexfile.tobinarray(start, end)]: the bytes at [start], ..., [end],
    both included. *)
Definition tobinarray (ih : gmap Z byte) (start end_ : Z) : list byte :=
  map (fun i => default padding (ih !! (start + i))) (Py.range (end_ - start + 1)).

End IntelHex.

(** ** The target selector: [populate_sectors] *)

(** Lines 81-88: the loop over the segments, left at the first overlap. *)
Fixpoint touched (addr size : Z) (segments : list (Z * Z)) : bool :=
  match segments with
  | [] => false
  | (start, end_) :: rest =>
      if (start <? addr) && (end_ >? addr) then true
      else if (start >=? addr) && (start <? addr + size) then true
      else touched addr size rest
  end.

(** [populate_sectors] *)
Fixpoint populate_sectors (sectors : list sector) (hexfile : gmap Z byte)
    : list (sector * list byte) :=
  match sectors with
  | [] => []
  | sector :: rest =>
      let addr := sec_addr sector in
      let size := sec_len sector in
      if touched addr size (IntelHex.segments hexfile)
      then (sector, IntelHex.tobinarray hexfile addr (addr + size - 1))
           :: populate_sectors rest hexfile
      else populate_sectors rest hexfile
  end.

(** ** The DFU device *)

(** A device handle: which [dfuse.DfuDevice] object a call is made on. *)
Definition handle : Type := nat.

(** The module's global variables that function bodies read: [dfudev],
    bound on line 298 before any of them is called. *)
Record globals : Type := mk_globals {
  dfudev : handle
}.

(** The time budget [erase] passes: the quotient [num / den] of a float
    division, kept as the pair of its operands. *)
Definition timeout : Type := (Z * Z)%type.

Module DfuDevice.

(** Modelled from the spec: the class [dfuse.DfuDevice] is not part of
    [dfu.py].  These are the methods [dfu.py] calls on it, each with the
    type of what it returns (section 4.3); what a device answers is left
    to the device the program is run against. *)
Inductive method : Type -> Type :=
| alternates : method (list (Py.str * Z))
| set_alternate (alt : Z) : method unit
| get_state : method DfuState
| clear_status : method unit
| wait_while_state (state : DfuState) (budget : option timeout) : method status
| set_address (addr : Z) : method unit
| erase (addr : Z) : method unit
| write (blocknum : Z) (block : list byte) : method unit
| read (blocknum : Z) (size : Z) : method (list byte)
| abort : method unit
| leave : method unit.

End DfuDevice.

(** A program that talks to devices: it returns, raises, or calls a
    method on a device and goes on with the answer. *)
Inductive dfu (A : Type) : Type :=
| Ret (a : A)
| Throw (e : exn)
| Call {R : Type} (dev : handle) (m : DfuDevice.method R) (k : R -> dfu A).
Arguments Ret {A} a.
Arguments Throw {A} e.
Arguments Call {A R} dev m k.

Fixpoint bind {A B : Type} (p : dfu A) (f : A -> dfu B) : dfu B :=
  match p with
  | Ret a => f a
  | Throw e => Throw e
  | Call dev m k => Call dev m (fun r => bind (k r) f)
  end.

Declare Scope dfu_scope.
Delimit Scope dfu_scope with dfu.
Notation "x <~ p ;; q" := (bind p (fun x => q))
  (at level 100, p at next level, right associativity) : dfu_scope.
Notation "p >> q" := (bind p (fun _ => q))
  (at level 100, right associativity) : dfu_scope.
Local Open Scope dfu_scope.

(** [dev.m(...)] *)
Definition call {R : Type} (dev : handle) (m : DfuDevice.method R) : dfu R :=
  Call dev m Ret.

(** A pure computation that may raise. *)
Definition lift {A : Type} (r : result A) : dfu A :=
  match r with
  | Ok a => Ret a
  | Raise e => Throw e
  end.

(** [for x in l: body(x)] *)
Fixpoint for_each {A : Type} (l : list A) (body : A -> dfu unit) : dfu unit :=
  match l with
  | [] => Ret tt
  | x :: rest => body x >> for_each rest body
  end.

(** *** Running a program *)

(** A device answers a method call from its state: with a value or an
    exception, and a new state.  The state [W] covers every device the
    program holds a handle of. *)
Definition device (W : Type) : Type :=
  forall R : Type, handle -> DfuDevice.method R -> W -> result R * W.

(** One call and its answer. *)
Inductive event : Type :=
| Event {R : Type} (dev : handle) (m : DfuDevice.method R) (answer : result R).

(** Runs a program: the calls made, in order, the outcome, and the
    final state of the devices. *)
Fixpoint run {W A : Type} (D : device W) (p : dfu A) (w : W)
    : list event * result A * W :=
  match p with
  | Ret a => ([], Ok a, w)
  | Throw e => ([], Raise e, w)
  | Call dev m k =>
      match D _ dev m w with
      | (Ok r, w') =>
          let '(t, res, w'') := run D (k r) w' in
          (Event dev m (Ok r) :: t, res, w'')
      | (Raise e, w') => ([Event dev m (Raise e)], Raise e, w')
      end
  end.

Definition trace_of {A W : Type} (x : list event * result A * W) : list event :=
  fst (fst x).
Definition outcome_of {A W : Type} (x : list event * result A * W) : result A :=
  snd (fst x).
Definition state_of {A W : Type} (x : list event * result A * W) : W :=
  snd x.

(** ** The DFU operations of [dfu.py] *)

(** [fmt % args] for a format with one conversion, as in
    ["... Device Status: %r" % status]: a tuple on the right gives its
    items as the arguments of the format, and a count other than one ends
    in [TypeError]. *)
Definition percent_one_conversion {A : Type} (items : list A) : result A :=
  match items with
  | [item] => Ok item
  | _ => Raise TypeError
  end.

(** The items of the tuple [status]. *)
Definition status_items (st : status) : list (Z + DfuState) :=
  [inl (fst st); inr (snd st)].

(** Lines 105, 110, 118 and 133:
    [raise RuntimeError("An error occured. Device Status: %r" % status)].
    The message is formatted before the exception is built, and [status]
    is the tuple [wait_while_state] returned. *)
Definition raise_status_error {A : Type} (st : status) : dfu A :=
  match percent_one_conversion (status_items st) with
  | Ok _ => Throw (DeviceStatusError st)
  | Raise e => Throw e
  end.

Definition set_alternate_safe (dfudev : handle) (alt : Z) : dfu unit :=
  call dfudev (DfuDevice.set_alternate alt) >>
  state <~ call dfudev DfuDevice.get_state ;;
  if DfuState_eqb state DFU_ERROR then
    call dfudev DfuDevice.clear_status >>
    _ <~ call dfudev (DfuDevice.wait_while_state DFU_ERROR None) ;;
    Ret tt
  else Ret tt.

(** The parameter is spelled [dfudef]; the body names [dfudev], which is
    the module's global. *)
Definition set_address_safe (G : globals) (dfudef : handle) (addr : Z) : dfu unit :=
  call (dfudev G) (DfuDevice.set_address addr) >>
  status <~ call (dfudev G) (DfuDevice.wait_while_state DFU_DOWNLOAD_BUSY None) ;;
  if negb (DfuState_eqb (status_1 status) DFU_DOWNLOAD_IDLE) then
    raise_status_error status
  else
    call (dfudev G) DfuDevice.abort >>
    status <~ call (dfudev G) (DfuDevice.wait_while_state DFU_DOWNLOAD_SYNC None) ;;
    if negb (DfuState_eqb (status_1 status) DFU_IDLE) then
      raise_status_error status
    else Ret tt.

Definition erase (dfudev : handle) (sector : sector) : dfu unit :=
  set_alternate_safe dfudev (sec_alt sector) >>
  call dfudev (DfuDevice.erase (sec_addr sector)) >>
  status <~ call dfudev
    (DfuDevice.wait_while_state DFU_DOWNLOAD_BUSY (Some (sec_len sector, 32))) ;;
  if negb (DfuState_eqb (status_1 status) DFU_DOWNLOAD_IDLE) then
    raise_status_error status
  else Ret tt.

(** Line 126: [[data[i:i + transfer_size] for i in range(0, len(data), transfer_size)]] *)
Definition blocks_of (data : list byte) (transfer_size : Z) : result (list (list byte)) :=
  starts <- Py.range3 0 (Z.of_nat (length data)) transfer_size ;;
  Ok (map (fun i => Py.slice i (i + transfer_size) data) starts).

(** Lines 127-133: the body of the loop over the blocks. *)
Definition write_block (dfudev : handle) (numbered : Z * list byte) : dfu unit :=
  call dfudev (DfuDevice.write (fst numbered) (snd numbered)) >>
  status <~ call dfudev (DfuDevice.wait_while_state DFU_DOWNLOAD_BUSY None) ;;
  if negb (DfuState_eqb (status_1 status) DFU_DOWNLOAD_IDLE) then
    raise_status_error status
  else Ret tt.

Definition flash (G : globals) (dfudev : handle) (sector : sector) (data : list byte)
    : dfu unit :=
  set_alternate_safe dfudev (sec_alt sector) >>
  set_address_safe G dfudev (sec_addr sector) >>
  let transfer_size := Py.gcd (sec_len sector) MAX_TRANSFER_SIZE in
  blocks <~ lift (blocks_of data transfer_size) ;;
  for_each (Py.enumerate blocks) (write_block dfudev).

(** Lines 147-151: the loop that reads the blocks and extends [data]. *)
Fixpoint read_blocks (dfudev : handle) (transfer_size : Z) (blocknums : list Z)
    (data : list byte) : dfu (list byte) :=
  match blocknums with
  | [] => Ret data
  | blocknum :: rest =>
      deviceBlock <~ call dfudev (DfuDevice.read blocknum transfer_size) ;;
      read_blocks dfudev transfer_size rest (data ++ deviceBlock)
  end.

Definition read (G : globals) (dfudev : handle) (sector : sector) : dfu (list byte) :=
  set_alternate_safe dfudev (sec_alt sector) >>
  set_address_safe G dfudev (sec_addr sector) >>
  let transfer_size := Py.gcd (sec_len sector) MAX_TRANSFER_SIZE in
  count <~ lift (Py.int_truediv (sec_len sector) transfer_size) ;;
  data <~ read_blocks dfudev transfer_size (Py.range count) [] ;;
  call dfudev DfuDevice.abort >>
  Ret data.

(** The loop of [get_first_mismatch_index], from position [pos] on. *)
Fixpoint first_mismatch_from (pos : Z) (array1 array2 : list byte) : option Z :=
  match array1, array2 with
  | x :: rest1, y :: rest2 =>
      if negb (Byte.eqb x y) then Some pos
      else first_mismatch_from (pos + 1) rest1 rest2
  | _, _ => None
  end.

Definition get_first_mismatch_index (array1 array2 : list byte) : result (option Z) :=
  if negb (length array1 =? length array2)%nat then Raise ArraysMustBeSameSize
  else Ok (first_mismatch_from 0 array1 array2).

Definition jump_to_application (G : globals) (dfudev : handle) (address : Z) : dfu unit :=
  set_address_safe G dfudev address >>
  call dfudev DfuDevice.leave >>
  status <~ call dfudev (DfuDevice.wait_while_state DFU_MANIFEST_SYNC None) ;;
  if negb (DfuState_eqb (status_1 status) DFU_MANIFEST) then
    Throw (DeviceStateError (status_1 status))
  else Ret tt.

(** ** The program sequencer (lines 318-360) *)

(** Lines 343-348: where the window printed for a mismatch starts. *)
Definition window_start (mismatch_pos : Z) : Z :=
  mismatch_pos - mismatch_pos mod 16.

(** Lines 339-348: the body of the verify loop. *)
Definition verify_sector (G : globals) (entry : sector * list byte) : dfu unit :=
  let '(sector, expected_data) := entry in
  observed_data <~ read G (dfudev G) sector ;;
  mismatch_pos <~ lift (get_first_mismatch_index observed_data expected_data) ;;
  match mismatch_pos with
  | None => Ret tt
  | Some mismatch_pos =>
      let mismatch_pos := window_start mismatch_pos in
      Throw (VerificationFailed (sec_addr sector + mismatch_pos)
               (Py.slice mismatch_pos (mismatch_pos + 16) expected_data)
               (Py.slice mismatch_pos (mismatch_pos + 16) observed_data))
  end.

Definition erase_pass (G : globals) (touched_sectors : list (sector * list byte)) : dfu unit :=
  for_each touched_sectors (fun entry => erase (dfudev G) (fst entry)).

Definition flash_pass (G : globals) (touched_sectors : list (sector * list byte)) : dfu unit :=
  for_each touched_sectors (fun entry => flash G (dfudev G) (fst entry) (snd entry)).

Definition verify_pass (G : globals) (touched_sectors : list (sector * list byte)) : dfu unit :=
  for_each touched_sectors (verify_sector G).

(** Lines 318-360: erase, flash, verify, jump. *)
Definition sequencer (G : globals) (touched_sectors : list (sector * list byte)) : dfu unit :=
  erase_pass G touched_sectors >>
  flash_pass G touched_sectors >>
  verify_pass G touched_sectors >>
  jump_to_application G (dfudev G) 134217728.

(** Lines 300-360: from the sector map to the jump. *)
Definition main (G : globals) (hexfile : gmap Z byte) : dfu unit :=
  alternates <~ call (dfudev G) DfuDevice.alternates ;;
  sectors <~ lift (list_of (get_device_sectors alternates)) ;;
  let touched_sectors := populate_sectors sectors hexfile in
  sequencer G touched_sectors.

(** ** Serial numbers from UUIDs (lines 180-188, 270-271) *)

(** The Python values these functions pass around: what [struct.unpack]
    returns is a tuple, and [+] is defined on more than integers. *)
Inductive pyval : Type :=
| PInt (n : Z)
| PBytes (b : list byte)
| PTuple (items : list Z).

(** The byte with value [n mod 256]. *)
Definition byte_of_Z (n : Z) : byte :=
  match Byte.of_N (Z.to_N (n mod 256)) with
  | Some b => b
  | None => x00
  end.

Definition Z_of_byte (b : byte) : Z := Z.of_N (Byte.to_N b).

(** [a + b] *)
Definition py_add (a b : pyval) : result pyval :=
  match a, b with
  | PInt x, PInt y => Ok (PInt (x + y))
  | PBytes x, PBytes y => Ok (PBytes (x ++ y))
  | PTuple x, PTuple y => Ok (PTuple (x ++ y))
  | _, _ => Raise TypeError
  end.

(** [struct.unpack('>I', b)]: a tuple of one integer, from exactly four
    bytes. *)
Definition struct_unpack_I (b : list byte) : result pyval :=
  match b with
  | [b0; b1; b2; b3] =>
      Ok (PTuple [((Z_of_byte b0 * 256 + Z_of_byte b1) * 256 + Z_of_byte b2) * 256
                  + Z_of_byte b3])
  | _ => Raise StructError
  end.

(** [struct.pack('>I', v)]: four bytes, from an integer in [0, 2^32). *)
Definition struct_pack_I (v : pyval) : result (list byte) :=
  match v with
  | PInt n =>
      if (0 <=? n) && (n <? 2 ^ 32)
      then Ok [byte_of_Z (n / 2 ^ 24); byte_of_Z (n / 2 ^ 16); byte_of_Z (n / 2 ^ 8);
               byte_of_Z n]
      else Raise StructError
  | _ => Raise StructError
  end.

(** ASCII white space, as the byte types know it. *)
Definition ascii_space (c : ascii) : bool :=
  ((9 <=? Py.code c) && (Py.code c <=? 13)) || (Py.code c =? 32).

(** [bytearray.fromhex(s)]: pairs of hexadecimal digits, ASCII white
    space allowed between pairs. *)
Fixpoint fromhex (s : Py.str) : result (list byte) :=
  match s with
  | [] => Ok []
  | c :: rest =>
      if ascii_space c then fromhex rest
      else match rest with
           | [] => Raise ValueError
           | d :: rest' =>
               match Py.digit_val c, Py.digit_val d with
               | Some hi, Some lo =>
                   if (hi <? 16) && (lo <? 16) then
                     bs <- fromhex rest' ;;
                     Ok (byte_of_Z (hi * 16 + lo) :: bs)
                   else Raise ValueError
               | _, _ => Raise ValueError
               end
           end
  end.

Definition hex_digit (n : Z) : ascii :=
  if n <? 10 then ascii_of_N (Z.to_N (48 + n)) else ascii_of_N (Z.to_N (87 + n)).

(** [b.hex()] *)
Definition hex (b : list byte) : Py.str :=
  flat_map (fun x => [hex_digit (Z_of_byte x / 16); hex_digit (Z_of_byte x mod 16)]) b.

Definition str_to_uuid (uuid : Py.str) : result (pyval * pyval * pyval) :=
  uuid <- fromhex (Py.remove_char "-"%char uuid) ;;
  uuid0 <- struct_unpack_I (Py.slice 0 4 uuid) ;;
  uuid1 <- struct_unpack_I (Py.slice 4 8 uuid) ;;
  uuid2 <- struct_unpack_I (Py.slice 8 12 uuid) ;;
  Ok (uuid0, uuid1, uuid2).

Definition uuid_to_serial (uuid0 uuid1 uuid2 : pyval) : result Py.str :=
  sum <- py_add uuid0 uuid2 ;;
  packed0 <- struct_pack_I sum ;;
  packed1 <- struct_pack_I uuid1 ;;
  Ok (Py.upper (hex (packed0 ++ Py.slice 0 2 packed1))).

(** Line 271: [uuid_to_serial( *str_to_uuid(args.uuid))] *)
Definition serial_number_of_uuid (uuid : Py.str) : result Py.str :=
  words <- str_to_uuid uuid ;;
  uuid_to_serial (fst (fst words)) (snd (fst words)) (snd words).

(** The digits of [n >= 0] in base 16, upper case, before [acc]. *)
Fixpoint to_hex (fuel : nat) (n : Z) (acc : Py.str) : Py.str :=
  match fuel with
  | O => acc
  | S fuel' =>
      let acc' := Py.upper_char (hex_digit (n mod 16)) :: acc in
      if n <? 16 then acc' else to_hex fuel' (n / 16) acc'
  end.

(** [format(v, '08X')]: for an integer, its upper-case hexadecimal
    digits after the sign, padded with zeros to eight characters; the
    byte and tuple types accept no such format. *)
Definition format_08X (v : pyval) : result Py.str :=
  match v with
  | PInt n =>
      let digits := to_hex (S (Z.to_nat (Z.log2 (Z.abs n)))) (Z.abs n) [] in
      let sign := if n <? 0 then ["-"%char] else [] in
      Ok (sign ++ repeat "0"%char (8 - length sign - length digits) ++ digits)
  | PBytes _ | PTuple _ => Raise TypeError
  end.

(** Lines 184-185. *)
Definition uuid_to_str (uuid0 uuid1 uuid2 : pyval) : result Py.str :=
  packed0 <- struct_pack_I uuid0 ;;
  packed1 <- struct_pack_I uuid1 ;;
  packed2 <- struct_pack_I uuid2 ;;
  text0 <- format_08X (PBytes packed0) ;;
  text1 <- format_08X (PBytes packed1) ;;
  text2 <- format_08X (PBytes packed2) ;;
  Ok (text0 ++ "-"%char :: text1 ++ "-"%char :: text2).

(** * Notions the properties are stated with *)

(** ** Which calls a program makes *)

(** The method of a call, without its arguments. *)
Inductive kind : Type :=
| KAlternates | KSetAlternate | KGetState | KClearStatus | KWaitWhileState
| KSetAddress | KErase | KWrite | KRead | KAbort | KLeave.

Definition kind_of {R : Type} (m : DfuDevice.method R) : kind :=
  match m with
  | DfuDevice.alternates => KAlternates
  | DfuDevice.set_alternate _ => KSetAlternate
  | DfuDevice.get_state => KGetState
  | DfuDevice.clear_status => KClearStatus
  | DfuDevice.wait_while_state _ _ => KWaitWhileState
  | DfuDevice.set_address _ => KSetAddress
  | DfuDevice.erase _ => KErase
  | DfuDevice.write _ _ => KWrite
  | DfuDevice.read _ _ => KRead
  | DfuDevice.abort => KAbort
  | DfuDevice.leave => KLeave
  end.

Definition event_kind (ev : event) : kind :=
  match ev with Event _ m _ => kind_of m end.

Definition event_handle (ev : event) : handle :=
  match ev with Event dev _ _ => dev end.

(** The block a [write] call sends, and the block a [read] call asks for. *)
Definition write_of (ev : event) : option (Z * list byte) :=
  match ev with
  | Event _ m _ =>
      match m with
      | DfuDevice.write blocknum block => Some (blocknum, block)
      | _ => None
      end
  end.

Definition read_of (ev : event) : option (Z * Z) :=
  match ev with
  | Event _ m _ =>
      match m with
      | DfuDevice.read blocknum size => Some (blocknum, size)
      | _ => None
      end
  end.

Definition writes_of (t : list event) : list (Z * list byte) := omap write_of t.
Definition reads_of (t : list event) : list (Z * Z) := omap read_of t.

(** Every call of the program is on a handle and of a kind that [P]
    accepts. *)
Inductive only_calls {A : Type} (P : handle -> kind -> Prop) : dfu A -> Prop :=
| only_calls_Ret (a : A) : only_calls P (Ret a)
| only_calls_Throw (e : exn) : only_calls P (Throw e)
| only_calls_Call {R : Type} (dev : handle) (m : DfuDevice.method R) (k : R -> dfu A) :
    P dev (kind_of m) ->
    (forall r, only_calls P (k r)) ->
    only_calls P (Call dev m k).

Definition event_sat (P : handle -> kind -> Prop) (ev : event) : Prop :=
  P (event_handle ev) (event_kind ev).

(** The calls of each operation: the device they are made on, and their
    kinds. *)
Definition on_kinds (dev : handle) (ks : list kind) (d : handle) (k : kind) : Prop :=
  d = dev /\ In k ks.

(** ** Calls in order *)

(** [emits f items D p w]: the calls that [f] selects from the run of [p]
    are the first of [items], in order, and all of them when the run ends
    normally. *)
Definition emits {X W A : Type} (f : event -> option X) (items : list X)
    (D : device W) (p : dfu A) (w : W) : Prop :=
  exists rest,
    items = omap f (trace_of (run D p w)) ++ rest
    /\ (is_ok (outcome_of (run D p w)) = true -> rest = []).

(** ** The safe set-address operation *)

(** The state a successful [wait_while_state] call observed. *)
Definition observed_state (ev : event) : option DfuState :=
  match ev with
  | Event _ m answer =>
      match m in DfuDevice.method R return result R -> option DfuState with
      | DfuDevice.wait_while_state _ _ =>
          fun answer => match answer with
                        | Ok st => Some (status_1 st)
                        | Raise _ => None
                        end
      | _ => fun _ => None
      end answer
  end.

Definition observed_states (t : list event) : list DfuState := omap observed_state t.

(** The runs the specification allows for [set_address(addr)] on the
    device [dev]: the calls made with their answers, and the outcome. *)
Inductive set_address_protocol (dev : handle) (addr : Z)
    : list event -> result unit -> Prop :=
| sap_set_address_raises (e : exn) :
    set_address_protocol dev addr
      [Event dev (DfuDevice.set_address addr) (Raise e)]
      (Raise e)
| sap_first_poll_raises (e : exn) :
    set_address_protocol dev addr
      [Event dev (DfuDevice.set_address addr) (Ok tt);
       Event dev (DfuDevice.wait_while_state DFU_DOWNLOAD_BUSY None) (Raise e)]
      (Raise e)
| sap_not_download_idle (st : status) :
    status_1 st <> DFU_DOWNLOAD_IDLE ->
    set_address_protocol dev addr
      [Event dev (DfuDevice.set_address addr) (Ok tt);
       Event dev (DfuDevice.wait_while_state DFU_DOWNLOAD_BUSY None) (Ok st)]
      (Raise (DeviceStatusError st))
| sap_abort_raises (st : status) (e : exn) :
    status_1 st = DFU_DOWNLOAD_IDLE ->
    set_address_protocol dev addr
      [Event dev (DfuDevice.set_address addr) (Ok tt);
       Event dev (DfuDevice.wait_while_state DFU_DOWNLOAD_BUSY None) (Ok st);
       Event dev DfuDevice.abort (Raise e)]
      (Raise e)
| sap_second_poll_raises (st : status) (e : exn) :
    status_1 st = DFU_DOWNLOAD_IDLE ->
    set_address_protocol dev addr
      [Event dev (DfuDevice.set_address addr) (Ok tt);
       Event dev (DfuDevice.wait_while_state DFU_DOWNLOAD_BUSY None) (Ok st);
       Event dev DfuDevice.abort (Ok tt);
       Event dev (DfuDevice.wait_while_state DFU_DOWNLOAD_SYNC None) (Raise e)]
      (Raise e)
| sap_not_idle (st st' : status) :
    status_1 st = DFU_DOWNLOAD_IDLE ->
    status_1 st' <> DFU_IDLE ->
    set_address_protocol dev addr
      [Event dev (DfuDevice.set_address addr) (Ok tt);
       Event dev (DfuDevice.wait_while_state DFU_DOWNLOAD_BUSY None) (Ok st);
       Event dev DfuDevice.abort (Ok tt);
       Event dev (DfuDevice.wait_while_state DFU_DOWNLOAD_SYNC None) (Ok st')]
      (Raise (DeviceStatusError st'))
| sap_done (st st' : status) :
    status_1 st = DFU_DOWNLOAD_IDLE ->
    status_1 st' = DFU_IDLE ->
    set_address_protocol dev addr
      [Event dev (DfuDevice.set_address addr) (Ok tt);
       Event dev (DfuDevice.wait_while_state DFU_DOWNLOAD_BUSY None) (Ok st);
       Event dev DfuDevice.abort (Ok tt);
       Event dev (DfuDevice.wait_while_state DFU_DOWNLOAD_SYNC None) (Ok st')]
      (Ok tt).

(** ** The three passes *)

Definition of_kinds (ks : list kind) (_ : handle) (k : kind) : Prop := In k ks.

Definition alternate_kinds : list kind :=
  [KSetAlternate; KGetState; KClearStatus; KWaitWhileState].
Definition address_kinds : list kind := [KSetAddress; KWaitWhileState; KAbort].
Definition erase_kinds : list kind := KErase :: alternate_kinds.
Definition flash_kinds : list kind := KWrite :: alternate_kinds ++ address_kinds.
Definition verify_kinds : list kind := KRead :: alternate_kinds ++ address_kinds.
Definition jump_kinds : list kind := KLeave :: address_kinds.

(** The outcome of comparing a read-back with the expected payload
    (lines 341-348). *)
Definition verdict (sector : sector) (expected observed : list byte) : result unit :=
  match get_first_mismatch_index observed expected with
  | Raise e => Raise e
  | Ok None => Ok tt
  | Ok (Some i) =>
      Raise (VerificationFailed (sec_addr sector + window_start i)
               (Py.slice (window_start i) (window_start i + 16) expected)
               (Py.slice (window_start i) (window_start i + 16) observed))
  end.

(** The address an [erase] call names. *)
Definition erase_of (ev : event) : option Z :=
  match ev with
  | Event _ m _ =>
      match m with
      | DfuDevice.erase addr => Some addr
      | _ => None
      end
  end.

(** The blocks [flash] writes for one entry, numbered. *)
Definition expected_writes (entry : sector * list byte) : list (Z * list byte) :=
  match blocks_of (snd entry) (Py.gcd (sec_len (fst entry)) MAX_TRANSFER_SIZE) with
  | Ok blocks => Py.enumerate blocks
  | Raise _ => []
  end.

(** ** The target selector *)

Definition overlaps (addr size : Z) (segment : Z * Z) : Prop :=
  (fst segment < addr /\ snd segment > addr)
  \/ (fst segment >= addr /\ fst segment < addr + size).

(** ** What the segments of an image cover *)

Definition covered (a : Z) (segments : list (Z * Z)) : Prop :=
  exists segment, In segment segments /\ fst segment <= a < snd segment.

(** ** Examples *)

(** The descriptor of section 8 and the sectors it stands for. *)
Definition example_name : Py.str :=
  Py.lit "@Flash  /0x08000000/04*016Kg,01*064Kg,07*128Kg".

Definition example_sectors : list sector :=
  yielded (get_device_sectors [(example_name, 0)]).

(** An image with the one segment [[0x08010010, 0x08010020)]. *)
Definition example_image : gmap Z byte :=
  list_to_map (map (fun i => (134283280 + i, byte_of_Z i)) (Py.range 16)).

(** A region of two sectors of 16 bytes at [0x100], and an image that
    defines the four bytes [DE AD BE EF] at [0x110]. *)
Definition small_name : Py.str := Py.lit "@RAM/0x100/02*016 g".

Definition small_sectors : list sector :=
  yielded (get_device_sectors [(small_name, 1)]).

Definition small_image : gmap Z byte :=
  list_to_map [(272, xde); (273, xad); (274, xbe); (275, xef)].

Definition small_sector : sector :=
  {| sec_name := Py.lit "RAM"; sec_alt := 1; sec_baseaddr := 256;
     sec_addr := 272; sec_len := 16; sec_mode := "g"%char |}.

Definition small_payload : list byte :=
  [xde; xad; xbe; xef; xff; xff; xff; xff; xff; xff; xff; xff; xff; xff; xff; xff].

(** ** A simulated device *)

Module Sim.

(** A device that does what it is asked: it keeps an address pointer and
    a memory, settles in the state each request leads to, stores the
    blocks written at the pointer and returns what its memory holds.
    With [stuck] set, reads return zeros instead. *)
Record state : Type := mk_state {
  alts : list (Py.str * Z);
  mem : gmap Z byte;
  ptr : Z;
  st : DfuState;
  stuck : bool
}.

Definition settle (s : state) (next : DfuState) : state :=
  {| alts := alts s; mem := mem s; ptr := ptr s; st := next; stuck := stuck s |}.

Definition store (m : gmap Z byte) (addr : Z) (block : list byte) : gmap Z byte :=
  fold_left (fun m ib => <[addr + fst ib := snd ib]> m) (Py.enumerate block) m.

Definition load (m : gmap Z byte) (addr size : Z) : list byte :=
  map (fun i => default xff (m !! (addr + i))) (Py.range size).

Definition step : device state :=
  fun R dev m s =>
    match m in DfuDevice.method R return result R * state with
    | DfuDevice.alternates => (Ok (alts s), s)
    | DfuDevice.set_alternate _ => (Ok tt, s)
    | DfuDevice.get_state => (Ok (st s), s)
    | DfuDevice.clear_status => (Ok tt, settle s DFU_IDLE)
    | DfuDevice.wait_while_state _ _ => (Ok (0, st s), s)
    | DfuDevice.set_address addr =>
        (Ok tt,
         {| alts := alts s; mem := mem s; ptr := addr; st := DFU_DOWNLOAD_IDLE;
            stuck := stuck s |})
    | DfuDevice.erase _ => (Ok tt, settle s DFU_DOWNLOAD_IDLE)
    | DfuDevice.write blocknum block =>
        (Ok tt,
         {| alts := alts s;
            mem := store (mem s) (ptr s + blocknum * Z.of_nat (length block)) block;
            ptr := ptr s; st := DFU_DOWNLOAD_IDLE; stuck := stuck s |})
    | DfuDevice.read blocknum size =>
        (Ok (if stuck s then map (fun _ => x00) (Py.range size)
             else load (mem s) (ptr s + blocknum * size) size),
         settle s DFU_UPLOAD_IDLE)
    | DfuDevice.abort => (Ok tt, settle s DFU_IDLE)
    | DfuDevice.leave => (Ok tt, settle s DFU_MANIFEST)
    end.

Definition fresh (names : list (Py.str * Z)) (broken : bool) : state :=
  {| alts := names; mem := ∅; ptr := 0; st := DFU_IDLE; stuck := broken |}.

End Sim.

Definition G0 : globals := {| dfudev := 0%nat |}.

Definition small_touched : list (sector * list byte) :=
  populate_sectors small_sectors small_image.

(** A sector of 64 bytes at [0x100], and a payload that is [0xFF]
    everywhere but at offset 37. *)
Definition wide_sector : sector :=
  {| sec_name := Py.lit "RAM"; sec_alt := 1; sec_baseaddr := 256;
     sec_addr := 256; sec_len := 64; sec_mode := "g"%char |}.

Definition wide_payload : list byte :=
  List.repeat xff 37 ++ x00 :: List.repeat xff 26.

(** ** The characters of a descriptor *)

(** The characters that separate the parts of a descriptor. *)
Definition is_sep (c : ascii) : Prop :=
  c = "/"%char \/ c = ","%char \/ c = "*"%char.

(** What an integer literal is made of. *)
Definition literal_char (c : ascii) : Prop :=
  Py.int_space c = true \/ c = "-"%char \/ c = "+"%char \/ c = "_"%char
  \/ Py.digit_val c <> None.

(** ** Well-formed descriptors *)

(** One term of a layout as it is written, [repeat*size] followed by the
    unit and mode letters, together with the numbers its two texts stand
    for. *)
Record term : Type := mk_term {
  repeat_text : Py.str;
  repeat_count : Z;
  size_text : Py.str;
  size_count : Z;
  unit_letter : ascii;
  mode_letter : ascii
}.

(** The size units of section 4.1: space is 1, K is 1024, M is 1024*1024. *)
Definition unit_bytes (u : ascii) : Z :=
  if Ascii.eqb u " "%char then 1
  else if Ascii.eqb u "K"%char then 1024
  else if Ascii.eqb u "M"%char then 1048576
  else 0.

Definition well_formed_term (t : term) : Prop :=
  Py.int (repeat_text t) = Ok (repeat_count t)
  /\ Py.int (size_text t) = Ok (size_count t)
  /\ (unit_letter t = " "%char \/ unit_letter t = "K"%char \/ unit_letter t = "M"%char)
  /\ mode_letter t <> "/"%char
  /\ mode_letter t <> ","%char.

Definition render_term (t : term) : Py.str :=
  repeat_text t ++ "*"%char :: size_text t ++ [unit_letter t; mode_letter t].

(** [sep.join(l)] *)
Fixpoint join (sep : ascii) (l : list Py.str) : Py.str :=
  match l with
  | [] => []
  | [x] => x
  | x :: rest => x ++ sep :: join sep rest
  end.

(** ["@Label/base/R1*S1u1m1,R2*S2u2m2,..."] *)
Definition render_descriptor (label base_text : Py.str) (terms : list term) : Py.str :=
  label ++ "/"%char :: base_text ++ "/"%char :: join ","%char (map render_term terms).

Definition term_bytes (t : term) : Z := size_count t * unit_bytes (unit_letter t).

(** The sectors of one term: [repeat] consecutive sectors of [size*unit]
    bytes from the cursor on. *)
Definition term_sectors (name : Py.str) (alt baseaddr cursor : Z) (t : term) : list sector :=
  map (fun i =>
         {| sec_name := name; sec_alt := alt; sec_baseaddr := baseaddr;
            sec_addr := cursor + Z.of_nat i * term_bytes t;
            sec_len := term_bytes t;
            sec_mode := mode_letter t |})
      (seq 0 (Z.to_nat (repeat_count t))).

(** The sectors of a layout: those of each term in order, the cursor
    moving past each sector. *)
Fixpoint layout_sectors (name : Py.str) (alt baseaddr cursor : Z) (terms : list term)
    : list sector :=
  match terms with
  | [] => []
  | t :: rest =>
      term_sectors name alt baseaddr cursor t
      ++ layout_sectors name alt baseaddr
           (cursor + Z.of_nat (Z.to_nat (repeat_count t)) * term_bytes t) rest
  end.

(** Each sector starts where the one before it ends, the first one at
    [cursor]. *)
Fixpoint contiguous_from (cursor : Z) (l : list sector) : Prop :=
  match l with
  | [] => True
  | s :: rest => sec_addr s = cursor /\ contiguous_from (cursor + sec_len s) rest
  end.

(** The layout of the example of section 8. *)
Definition example_terms : list term :=
  [ mk_term (Py.lit "04") 4 (Py.lit "016") 16 "K"%char "g"%char;
    mk_term (Py.lit "01") 1 (Py.lit "064") 64 "K"%char "g"%char;
    mk_term (Py.lit "07") 7 (Py.lit "128") 128 "K"%char "g"%char ].

(** ** Malformed descriptors *)

(** A unit letter that, in upper case, is none of space, K and M. *)
Definition unknown_unit (u : ascii) : Prop :=
  Py.upper_char u <> " "%char /\ Py.upper_char u <> "K"%char /\ Py.upper_char u <> "M"%char.

(** A layout term that does not read as [repeat*size] followed by a known
    unit letter and one more character: its text before the last two
    characters is not two fields around one star, one of the fields is not
    an integer literal, or the unit letter is unknown. *)
Definition malformed_term (term : Py.str) : Prop :=
  length (Py.split "*"%char (Py.slice 0 (-2) term)) <> 2%nat
  \/ (exists field,
        In field (Py.split "*"%char (Py.slice 0 (-2) term))
        /\ is_ok (Py.int field) = false)
  \/ (exists u, Py.index (-2) term = Ok u /\ unknown_unit u).

(** A descriptor that does not have three fields between slashes, whose
    base address is not an integer literal, or one of whose layout terms
    is malformed. *)
Definition malformed_descriptor (name : Py.str) : Prop :=
  length (Py.split "/"%char name) <> 3%nat
  \/ (exists label base layout,
        Py.split "/"%char name = [label; base; layout]
        /\ (is_ok (Py.int0 base) = false
            \/ exists term, In term (Py.split ","%char layout) /\ malformed_term term)).

(** Two simulated devices, with the handles 0 and 1. *)
Definition two_devices : device (Sim.state * Sim.state) :=
  fun R dev m w =>
    match dev with
    | O => let '(answer, s) := Sim.step R dev m (fst w) in (answer, (s, snd w))
    | S _ => let '(answer, s) := Sim.step R dev m (snd w) in (answer, (fst w, s))
    end.

(** A device that accepts every request and answers every status poll
    and state query with the state [s]. *)
Definition answering (s : DfuState) : device unit :=
  fun R dev m w =>
    match m in DfuDevice.method R return result R * unit with
    | DfuDevice.alternates => (Ok [], w)
    | DfuDevice.set_alternate _ => (Ok tt, w)
    | DfuDevice.get_state => (Ok s, w)
    | DfuDevice.clear_status => (Ok tt, w)
    | DfuDevice.wait_while_state _ _ => (Ok (0, s), w)
    | DfuDevice.set_address _ => (Ok tt, w)
    | DfuDevice.erase _ => (Ok tt, w)
    | DfuDevice.write _ _ => (Ok tt, w)
    | DfuDevice.read _ _ => (Ok [], w)
    | DfuDevice.abort => (Ok tt, w)
    | DfuDevice.leave => (Ok tt, w)
    end.

(** ** What a run raised and observed *)

(** The exception a call was answered with. *)
Definition event_exn (ev : event) : option exn :=
  match ev with
  | Event _ _ (Raise e) => Some e
  | Event _ _ (Ok _) => None
  end.

(** What the device raised during a run. *)
Definition device_exns (t : list event) : list exn := omap event_exn t.

(** The state a successful [get_state] call returned. *)
Definition reported_state (ev : event) : option DfuState :=
  match ev with
  | Event _ m answer =>
      match m in DfuDevice.method R return result R -> option DfuState with
      | DfuDevice.get_state =>
          fun answer => match answer with Ok s => Some s | Raise _ => None end
      | _ => fun _ => None
      end answer
  end.

(** The budget and the answer of a successful [wait_while_state] call
    that was given a time budget. *)
Definition timed_poll_of (ev : event) : option (timeout * status) :=
  match ev with
  | Event _ m answer =>
      match m in DfuDevice.method R return result R -> option (timeout * status) with
      | DfuDevice.wait_while_state _ (Some budget) =>
          fun answer => match answer with Ok st => Some (budget, st) | Raise _ => None end
      | _ => fun _ => None
      end answer
  end.

(** The size a successful [read] call asked for and the block it got. *)
Definition read_exchange_of (ev : event) : option (Z * list byte) :=
  match ev with
  | Event _ m answer =>
      match m in DfuDevice.method R return result R -> option (Z * list byte) with
      | DfuDevice.read _ size =>
          fun answer => match answer with Ok block => Some (size, block) | Raise _ => None end
      | _ => fun _ => None
      end answer
  end.

(** The exceptions of an outcome: none, or the one it ends with. *)
Definition exns_of {A : Type} (r : result A) : list exn :=
  match r with Ok _ => [] | Raise e => [e] end.

(** A call of an operation that was passed the handle [dev]: the address
    is set on the global handle, the alternate setting, the block
    transfers and the leave request go to [dev]. *)
Definition routed (G : globals) (dev : handle) (d : handle) (k : kind) : Prop :=
  (d = dev \/ d = dfudev G)
  /\ (k = KSetAddress -> d = dfudev G)
  /\ (In k [KSetAlternate; KGetState; KClearStatus; KErase; KWrite; KRead; KLeave] -> d = dev).

(** ** Where a sector comes from *)

(** The sector [s] stands for one repetition of a term of the descriptor
    [name]: its base address is the descriptor's, its name the stripped
    label, its length and mode the term's. *)
Definition comes_from (s : sector) (name : Py.str) : Prop :=
  exists label base layout term repeat,
    Py.split "/"%char name = [label; base; layout]
    /\ Py.int0 base = Ok (sec_baseaddr s)
    /\ sec_name s = Py.strip_chars (Py.lit "@") (Py.strip label)
    /\ In term (Py.split ","%char layout)
    /\ parse_term term = Ok (repeat, sec_len s, sec_mode s)
    /\ 0 < repeat.

(** ** Big-endian words *)

(** The number that bytes spell, most significant byte first. *)
Definition be_value (bs : list byte) : Z :=
  fold_left (fun acc b => acc * 256 + Z_of_byte b) bs 0.

(** * Properties *)

(** ** Running programs *)

Lemma run_bind {W A B : Type} (D : device W) (p : dfu A) (f : A -> dfu B) (w : W) :
  run D (bind p f) w =
  match run D p w with
  | (t, Ok a, w') =>
      let '(t', res, w'') := run D (f a) w' in (t ++ t', res, w'')
  | (t, Raise e, w') => (t, Raise e, w')
  end.
Proof.
  revert w. induction p as [a | e | R dev m k IH]; intros w; simpl.
  - destruct (run D (f a) w) as [[t res] w']. reflexivity.
  - reflexivity.
  - destruct (D R dev m w) as [[r | e] w1]; [| reflexivity].
    rewrite IH. destruct (run D (k r) w1) as [[t [a | e]] w2]; [| reflexivity].
    destruct (run D (f a) w2) as [[t' res] w3]. reflexivity.
Qed.

(** ** The mismatch locator *)

Lemma first_mismatch_from_spec (array1 array2 : list byte) :
  forall pos : Z,
  length array1 = length array2 ->
  match first_mismatch_from pos array1 array2 with
  | None => array1 = array2
  | Some i =>
      pos <= i < pos + Z.of_nat (length array1)
      /\ array1 !! Z.to_nat (i - pos) <> array2 !! Z.to_nat (i - pos)
      /\ (forall j, pos <= j < i ->
            array1 !! Z.to_nat (j - pos) = array2 !! Z.to_nat (j - pos))
  end.
Proof.
  revert array2.
  induction array1 as [| x rest1 IH]; intros [| y rest2] pos Hlen;
    simpl in Hlen; try discriminate; simpl.
  - reflexivity.
  - destruct (Byte.eqb x y) eqn:Hxy; simpl.
    + apply Byte.byte_dec_bl in Hxy. subst y.
      specialize (IH rest2 (pos + 1) ltac:(lia)).
      destruct (first_mismatch_from (pos + 1) rest1 rest2) as [i |].
      * destruct IH as (Hi & Hne & Hbefore).
        replace (Z.to_nat (i - (pos + 1))) with (Nat.pred (Z.to_nat (i - pos))) in Hne by lia.
        split; [lia |]. split.
        -- destruct (Z.to_nat (i - pos)) eqn:E; [lia | exact Hne].
        -- intros j Hj. destruct (Z.eq_dec j pos) as [-> | Hjp].
           ++ replace (pos - pos) with 0 by lia. reflexivity.
           ++ specialize (Hbefore j ltac:(lia)).
              replace (Z.to_nat (j - (pos + 1))) with (Nat.pred (Z.to_nat (j - pos)))
                in Hbefore by lia.
              destruct (Z.to_nat (j - pos)) eqn:E; [lia | exact Hbefore].
      * congruence.
    + split; [lia |]. split.
      * replace (pos - pos) with 0 by lia. simpl. intros [= ->].
        rewrite (Byte.byte_dec_lb eq_refl) in Hxy. discriminate.
      * intros j Hj. lia.
Qed.

(** ** Which calls a program makes *)

Lemma only_calls_run {W A : Type} (P : handle -> kind -> Prop) (D : device W) (p : dfu A) :
  only_calls P p -> forall w, Forall (event_sat P) (trace_of (run D p w)).
Proof.
  induction 1 as [a | e | R dev m k HP Hk IH]; intros w; simpl.
  - constructor.
  - constructor.
  - destruct (D R dev m w) as [[r | e] w1].
    + specialize (IH r w1). destruct (run D (k r) w1) as [[t res] w2].
      constructor; [exact HP | exact IH].
    + constructor; [exact HP | constructor].
Qed.

Lemma only_calls_bind {A B : Type} (P : handle -> kind -> Prop) (p : dfu A) (f : A -> dfu B) :
  only_calls P p -> (forall a, only_calls P (f a)) -> only_calls P (bind p f).
Proof.
  intros Hp Hf. induction Hp as [a | e | R dev m k HP Hk IH]; simpl.
  - apply Hf.
  - constructor.
  - constructor; [exact HP | exact IH].
Qed.

Lemma only_calls_call {R : Type} (P : handle -> kind -> Prop) (dev : handle)
    (m : DfuDevice.method R) :
  P dev (kind_of m) -> only_calls P (call dev m).
Proof. intros HP. constructor; [exact HP | intros r; constructor]. Qed.

Lemma only_calls_lift {A : Type} (P : handle -> kind -> Prop) (r : result A) :
  only_calls P (lift r).
Proof. destruct r; constructor. Qed.

Lemma only_calls_for_each {A : Type} (P : handle -> kind -> Prop) (l : list A)
    (body : A -> dfu unit) :
  (forall x, In x l -> only_calls P (body x)) -> only_calls P (for_each l body).
Proof.
  induction l as [| x rest IH]; intros Hbody; simpl.
  - constructor.
  - apply only_calls_bind; [apply Hbody; left; reflexivity |].
    intros _. apply IH. intros y Hy. apply Hbody. right. exact Hy.
Qed.

Lemma only_calls_weaken {A : Type} (P Q : handle -> kind -> Prop) (p : dfu A) :
  (forall dev k, P dev k -> Q dev k) -> only_calls P p -> only_calls Q p.
Proof.
  intros HPQ. induction 1; constructor; auto.
Qed.

Ltac solve_calls :=
  repeat first
    [ apply only_calls_bind
    | apply only_calls_call
    | apply only_calls_lift
    | apply only_calls_Ret
    | apply only_calls_Throw
    | intros ?
    | match goal with |- only_calls _ (if ?b then _ else _) => destruct b end
    | match goal with |- only_calls _ (match ?b with _ => _ end) => destruct b end
    | (split; [reflexivity | simpl; tauto]) ].

Lemma set_alternate_safe_calls (dev : handle) (alt : Z) :
  only_calls (on_kinds dev [KSetAlternate; KGetState; KClearStatus; KWaitWhileState])
    (set_alternate_safe dev alt).
Proof. unfold set_alternate_safe. solve_calls. Qed.

Lemma set_address_safe_calls (G : globals) (dfudef : handle) (addr : Z) :
  only_calls (on_kinds (dfudev G) [KSetAddress; KWaitWhileState; KAbort])
    (set_address_safe G dfudef addr).
Proof. unfold set_address_safe. solve_calls. Qed.

(** ** Chunk sizes *)

Lemma gcd_max_transfer_size (len : Z) :
  Py.gcd len MAX_TRANSFER_SIZE = Z.gcd len 2048.
Proof. reflexivity. Qed.

Lemma transfer_size_bounds (len : Z) :
  1 <= Py.gcd len MAX_TRANSFER_SIZE <= 2048.
Proof.
  rewrite gcd_max_transfer_size.
  pose proof (Z.gcd_nonneg len 2048) as Hnn.
  pose proof (Z.gcd_divide_r len 2048) as Hdiv.
  assert (Z.gcd len 2048 <> 0) as Hnz.
  { intros H0. apply Z.gcd_eq_0_r in H0. discriminate. }
  split; [lia |].
  apply Z.divide_pos_le; [lia | exact Hdiv].
Qed.

Lemma transfer_size_divides (len : Z) :
  (Py.gcd len MAX_TRANSFER_SIZE | len).
Proof. rewrite gcd_max_transfer_size. apply Z.gcd_divide_l. Qed.

Lemma clamp_inside (n i : Z) : 0 <= i <= n -> Py.clamp n i = i.
Proof.
  intros Hi. unfold Py.clamp.
  destruct (i <? 0) eqn:E; [apply Z.ltb_lt in E; lia | lia].
Qed.

Lemma slice_inside {A : Type} (a b : Z) (l : list A) :
  0 <= a <= b -> b <= Z.of_nat (length l) ->
  Py.slice a b l = take (Z.to_nat (b - a)) (drop (Z.to_nat a) l).
Proof.
  intros Ha Hb. unfold Py.slice. simpl.
  rewrite !clamp_inside by lia. reflexivity.
Qed.

Lemma concat_chunks {A : Type} (size : nat) (l : list A) (n : nat) :
  concat (map (fun j => take size (drop (j * size) l)) (seq 0 n)) = take (n * size) l.
Proof.
  induction n as [| n IH].
  - reflexivity.
  - rewrite seq_S, map_app, concat_app, IH. simpl.
    rewrite app_nil_r, take_take_drop. f_equal. lia.
Qed.

Lemma range3_exact (size n : Z) :
  0 < size -> 0 <= n ->
  Py.range3 0 (n * size) size = Ok (map (fun j => Z.of_nat j * size) (seq 0 (Z.to_nat n))).
Proof.
  intros Hsize Hn. unfold Py.range3.
  destruct (size =? 0) eqn:E0; [apply Z.eqb_eq in E0; lia |].
  destruct (0 <? size) eqn:Epos; [| apply Z.ltb_ge in Epos; lia].
  replace ((n * size - 0 + size - 1) / size) with n.
  - f_equal.
  - apply Z.div_unique with (r := size - 1); lia.
Qed.

(** The blocks [flash] cuts a payload into when the transfer size
    divides its length: all of them full, and together the payload. *)
Lemma blocks_of_exact (data : list byte) (size n : Z) :
  0 < size -> 0 <= n -> Z.of_nat (length data) = n * size ->
  exists blocks,
    blocks_of data size = Ok blocks
    /\ Z.of_nat (length blocks) = n
    /\ Forall (fun block => Z.of_nat (length block) = size) blocks
    /\ concat blocks = data.
Proof.
  intros Hsize Hn Hlen. unfold blocks_of. rewrite Hlen, range3_exact by lia. simpl.
  eexists. split; [reflexivity |].
  rewrite map_map.
  assert (Hblocks :
    map (fun j => Py.slice (Z.of_nat j * size) (Z.of_nat j * size + size) data)
        (seq 0 (Z.to_nat n))
    = map (fun j => take (Z.to_nat size) (drop (j * Z.to_nat size) data))
        (seq 0 (Z.to_nat n))).
  { apply map_ext_in. intros j Hj. apply in_seq in Hj.
    rewrite slice_inside by nia.
    f_equal; [lia | f_equal; nia]. }
  rewrite Hblocks. split; [| split].
  - rewrite length_map, length_seq. lia.
  - apply List.Forall_forall. intros block Hblock.
    apply in_map_iff in Hblock as (j & <- & Hj). apply in_seq in Hj.
    rewrite length_take, length_drop. nia.
  - rewrite concat_chunks. apply firstn_all2. nia.
Qed.

Lemma run_bind_raise {W A B : Type} (D : device W) (p : dfu A) (f : A -> dfu B)
    (w w' : W) (t : list event) (e : exn) :
  run D p w = (t, Raise e, w') -> run D (bind p f) w = (t, Raise e, w').
Proof. intros Hp. rewrite run_bind, Hp. reflexivity. Qed.

Lemma run_bind_ok {W A B : Type} (D : device W) (p : dfu A) (f : A -> dfu B)
    (w w' : W) (t : list event) (a : A) :
  run D p w = (t, Ok a, w') ->
  run D (bind p f) w =
  (t ++ trace_of (run D (f a) w'), outcome_of (run D (f a) w'), state_of (run D (f a) w')).
Proof.
  intros Hp. rewrite run_bind, Hp.
  destruct (run D (f a) w') as [[t' res] w'']. reflexivity.
Qed.

Lemma run_eta {W A : Type} (D : device W) (p : dfu A) (w : W) :
  run D p w = (trace_of (run D p w), outcome_of (run D p w), state_of (run D p w)).
Proof. destruct (run D p w) as [[t res] w']. reflexivity. Qed.

Lemma writes_of_app (t1 t2 : list event) :
  writes_of (t1 ++ t2) = writes_of t1 ++ writes_of t2.
Proof. apply omap_app. Qed.

Lemma reads_of_app (t1 t2 : list event) :
  reads_of (t1 ++ t2) = reads_of t1 ++ reads_of t2.
Proof. apply omap_app. Qed.

Lemma writes_of_none (P : handle -> kind -> Prop) (t : list event) :
  (forall dev, ~ P dev KWrite) -> Forall (event_sat P) t -> writes_of t = [].
Proof.
  intros HP. induction 1 as [| [R dev m a] t Hev _ IH]; [reflexivity |].
  destruct m; try exact IH. exfalso. exact (HP _ Hev).
Qed.

Lemma reads_of_none (P : handle -> kind -> Prop) (t : list event) :
  (forall dev, ~ P dev KRead) -> Forall (event_sat P) t -> reads_of t = [].
Proof.
  intros HP. induction 1 as [| [R dev m a] t Hev _ IH]; [reflexivity |].
  destruct m; try exact IH. exfalso. exact (HP _ Hev).
Qed.

Lemma on_kinds_not (dev : handle) (ks : list kind) (k : kind) :
  ~ In k ks -> forall d, ~ on_kinds dev ks d k.
Proof. intros Hk d [_ Hin]. exact (Hk Hin). Qed.

Ltac not_in_kinds := simpl; intros H; decompose [or] H; congruence.

Lemma set_alternate_safe_no_write {W : Type} (D : device W) dev alt w :
  writes_of (trace_of (run D (set_alternate_safe dev alt) w)) = [].
Proof.
  eapply writes_of_none; [| apply only_calls_run, set_alternate_safe_calls].
  apply on_kinds_not. not_in_kinds.
Qed.

Lemma set_address_safe_no_write {W : Type} (D : device W) G dev addr w :
  writes_of (trace_of (run D (set_address_safe G dev addr) w)) = [].
Proof.
  eapply writes_of_none; [| apply only_calls_run, set_address_safe_calls].
  apply on_kinds_not. not_in_kinds.
Qed.

Lemma set_alternate_safe_no_read {W : Type} (D : device W) dev alt w :
  reads_of (trace_of (run D (set_alternate_safe dev alt) w)) = [].
Proof.
  eapply reads_of_none; [| apply only_calls_run, set_alternate_safe_calls].
  apply on_kinds_not. not_in_kinds.
Qed.

Lemma set_address_safe_no_read {W : Type} (D : device W) G dev addr w :
  reads_of (trace_of (run D (set_address_safe G dev addr) w)) = [].
Proof.
  eapply reads_of_none; [| apply only_calls_run, set_address_safe_calls].
  apply on_kinds_not. not_in_kinds.
Qed.

Lemma write_block_writes {W : Type} (D : device W) dev numbered w :
  writes_of (trace_of (run D (write_block dev numbered) w)) = [numbered].
Proof.
  destruct numbered as [blocknum block]. unfold write_block. simpl.
  destruct (D _ dev (DfuDevice.write blocknum block) w) as [[[] | e] w1];
    [| reflexivity].
  destruct (D _ dev (DfuDevice.wait_while_state DFU_DOWNLOAD_BUSY None) w1)
    as [[st | e] w2]; [| reflexivity].
  destruct (negb (DfuState_eqb (status_1 st) DFU_DOWNLOAD_IDLE)); reflexivity.
Qed.

Lemma for_each_cons {A : Type} (x : A) (l : list A) (body : A -> dfu unit) :
  for_each (x :: l) body = bind (body x) (fun _ => for_each l body).
Proof. reflexivity. Qed.

Lemma emits_bind_silent {X W A B : Type} (f : event -> option X) (items : list X)
    (D : device W) (p : dfu A) (q : A -> dfu B) (w : W) :
  omap f (trace_of (run D p w)) = [] ->
  (forall a w', emits f items D (q a) w') ->
  emits f items D (bind p q) w.
Proof.
  intros Hsilent Hq. unfold emits.
  destruct (run D p w) as [[t [a | e]] w1] eqn:E; cbn [trace_of fst] in Hsilent.
  - rewrite (run_bind_ok _ _ _ _ _ _ _ E).
    destruct (Hq a w1) as (rest & Hrest & Hok).
    exists rest. cbn [trace_of outcome_of fst snd]. rewrite omap_app, Hsilent.
    split; [exact Hrest | exact Hok].
  - exists items. rewrite (run_bind_raise _ _ _ _ _ _ _ E).
    cbn [trace_of outcome_of fst snd]. rewrite Hsilent.
    split; [reflexivity | discriminate].
Qed.

(** The blocks are written in the order of the list, and all of them
    when the loop ends normally. *)
Lemma for_each_write_block_writes {W : Type} (D : device W) dev items :
  forall w, emits write_of items D (for_each items (write_block dev)) w.
Proof.
  induction items as [| x items IH]; intros w; unfold emits.
  - exists []. split; reflexivity.
  - rewrite for_each_cons.
    pose proof (write_block_writes D dev x w) as Hx. unfold writes_of in Hx.
    destruct (run D (write_block dev x) w) as [[t [[] | e]] w1] eqn:E;
      cbn [trace_of fst] in Hx.
    + destruct (IH w1) as (rest & Hrest & Hok).
      exists rest. rewrite (run_bind_ok _ _ _ _ _ _ _ E).
      cbn [trace_of outcome_of fst snd]. rewrite omap_app, Hx.
      split; [| exact Hok]. cbn [app]. f_equal. exact Hrest.
    + exists items. rewrite (run_bind_raise _ _ _ _ _ _ _ E).
      cbn [trace_of outcome_of fst snd]. rewrite Hx.
      split; [reflexivity | discriminate].
Qed.

Lemma read_blocks_reads {W : Type} (D : device W) dev size blocknums :
  forall data w,
  emits read_of (map (fun blocknum => (blocknum, size)) blocknums) D
    (read_blocks dev size blocknums data) w.
Proof.
  induction blocknums as [| blocknum blocknums IH]; intros data w; simpl.
  - exists []. split; reflexivity.
  - unfold emits. simpl.
    destruct (D _ dev (DfuDevice.read blocknum size) w) as [[block | e] w1].
    + destruct (IH (data ++ block) w1) as (rest & Hrest & Hok).
      destruct (run D (read_blocks dev size blocknums (data ++ block)) w1)
        as [[t res] w2].
      exists rest. simpl in *. split; [f_equal; exact Hrest | exact Hok].
    + exists (map (fun blocknum => (blocknum, size)) blocknums).
      split; [reflexivity | discriminate].
Qed.

Lemma emits_bind_then_silent {X W A B : Type} (f : event -> option X) (items : list X)
    (D : device W) (p : dfu A) (q : A -> dfu B) (w : W) :
  emits f items D p w ->
  (forall a w', omap f (trace_of (run D (q a) w')) = []) ->
  emits f items D (bind p q) w.
Proof.
  intros (rest & Hrest & Hok) Hq. unfold emits.
  destruct (run D p w) as [[t [a | e]] w1] eqn:E;
    cbn [trace_of outcome_of fst snd] in Hrest, Hok.
  - rewrite (Hok eq_refl), app_nil_r in Hrest.
    exists []. rewrite (run_bind_ok _ _ _ _ _ _ _ E).
    cbn [trace_of outcome_of fst snd]. rewrite omap_app, Hq, !app_nil_r.
    split; [exact Hrest | reflexivity].
  - exists rest. rewrite (run_bind_raise _ _ _ _ _ _ _ E).
    cbn [trace_of outcome_of fst snd]. split; [exact Hrest | discriminate].
Qed.

Lemma flash_writes {W : Type} (D : device W) G dev sector data blocks w :
  blocks_of data (Py.gcd (sec_len sector) MAX_TRANSFER_SIZE) = Ok blocks ->
  emits write_of (Py.enumerate blocks) D (flash G dev sector data) w.
Proof.
  intros Hblocks. unfold flash.
  apply emits_bind_silent; [apply set_alternate_safe_no_write |]. intros _ w1.
  apply emits_bind_silent; [apply set_address_safe_no_write |]. intros _ w2.
  rewrite Hblocks. apply for_each_write_block_writes.
Qed.

(** A quotient below [2^53] of a dividend that the divisor divides is
    a double: the floating-point division is exact on it. *)
Lemma int_truediv_exact (a b : Z) :
  0 < b -> 0 <= a < 2 ^ 53 -> (b | a) -> Py.int_truediv a b = Ok (a / b).
Proof.
  intros Hb Ha [q Hq]. unfold Py.int_truediv.
  destruct (b =? 0) eqn:Eb; [apply Z.eqb_eq in Eb; lia |].
  destruct (a =? 0) eqn:Ea.
  - apply Z.eqb_eq in Ea. rewrite Ea, Z.div_0_l by lia. reflexivity.
  - apply Z.eqb_neq in Ea.
    assert (Hq1 : 1 <= q) by nia.
    assert (Hab : b <= a) by nia.
    rewrite (Z.abs_eq a), (Z.abs_eq b) by lia.
    assert (Hk : 0 <= Py.log2_ratio a b <= 52).
    { unfold Py.log2_ratio.
      assert (H1 : Z.log2 a < 53) by (apply Z.log2_lt_pow2; lia).
      assert (H2 : 0 <= Z.log2 b) by apply Z.log2_nonneg.
      assert (H3 : Z.log2 b <= Z.log2 a) by (apply Z.log2_le_mono; lia).
      destruct (a * 2 ^ Z.max 0 (- (Z.log2 a - Z.log2 b))
                <? b * 2 ^ Z.max 0 (Z.log2 a - Z.log2 b)) eqn:E; [| lia].
      apply Z.ltb_lt in E.
      destruct (Z.eq_dec (Z.log2 a) (Z.log2 b)) as [Heq | Hne]; [| lia].
      rewrite Heq, Z.sub_diag in E.
      change (Z.max 0 (- 0)) with 0 in E. change (Z.max 0 0) with 0 in E.
      rewrite Z.pow_0_r in E. lia. }
    set (k := Py.log2_ratio a b) in *.
    replace (Z.max 0 (- (k - 52))) with (52 - k) by lia.
    replace (Z.max 0 (k - 52)) with 0 by lia.
    rewrite Z.pow_0_r, !Z.mul_1_r.
    assert (Hp : 0 < 2 ^ (52 - k)) by (apply Z.pow_pos_nonneg; lia).
    assert (Hp52 : 2 ^ (52 - k) <= 2 ^ 52) by (apply Z.pow_le_mono_r; lia).
    set (p := 2 ^ (52 - k)) in *.
    assert (Hround : Py.round_half_even (a * p) b = q * p).
    { unfold Py.round_half_even.
      replace (a * p) with (q * p * b) by lia.
      rewrite Z.div_mul, Z.mod_mul by lia.
      replace (b <? 2 * 0) with false by lia.
      replace (b =? 2 * 0) with false by lia.
      reflexivity. }
    rewrite Hround.
    assert (Hbig : 2 ^ 105 < 2 ^ 1024) by (apply Z.pow_lt_mono_r; lia).
    assert (Hsmall : q * p < 2 ^ 105).
    { change (2 ^ 105) with (2 ^ 53 * 2 ^ 52). nia. }
    destruct (2 ^ 1024 <=? q * p) eqn:Eover; [apply Z.leb_le in Eover; lia |].
    rewrite Z.div_mul by lia.
    replace (a <? 0) with false by lia. replace (b <? 0) with false by lia.
    rewrite Hq, Z.div_mul by lia. reflexivity.
Qed.

(** From [2^53] on the division rounds: a sector of [(2^53 + 1) * 2048]
    bytes would be read in [2^53] blocks, one block short. *)
Example int_truediv_rounds :
  Py.int_truediv ((2 ^ 53 + 1) * 2048) 2048 = Ok (2 ^ 53)
  /\ Py.int_truediv (2 ^ 53 + 3) 1 = Ok (2 ^ 53 + 4)
  /\ Py.int_truediv (2 ^ 60 - 1) (2 ^ 60) = Ok 1
  /\ Py.int_truediv 7 (-2) = Ok (-3).
Proof. repeat split; vm_compute; reflexivity. Qed.

Lemma read_reads {W : Type} (D : device W) G dev sector count w :
  Py.int_truediv (sec_len sector) (Py.gcd (sec_len sector) MAX_TRANSFER_SIZE) = Ok count ->
  emits read_of
    (map (fun blocknum => (blocknum, Py.gcd (sec_len sector) MAX_TRANSFER_SIZE))
       (Py.range count))
    D (read G dev sector) w.
Proof.
  intros Hcount. unfold read.
  apply emits_bind_silent; [apply set_alternate_safe_no_read |]. intros _ w1.
  apply emits_bind_silent; [apply set_address_safe_no_read |]. intros _ w2.
  rewrite Hcount. cbn [lift bind].
  apply emits_bind_then_silent; [apply read_blocks_reads |].
  intros data w3. simpl.
  destruct (D _ dev DfuDevice.abort w3) as [[[] | e] w4]; reflexivity.
Qed.

Lemma range_from_length (n : nat) : forall start, length (Py.range_from start n) = n.
Proof. induction n as [| n IH]; intros start; simpl; [reflexivity | f_equal; apply IH]. Qed.

Lemma range_from_lookup (n : nat) :
  forall start i, (i < n)%nat -> Py.range_from start n !! i = Some (start + Z.of_nat i).
Proof.
  induction n as [| n IH]; intros start i Hi; [lia |].
  destruct i as [| i]; simpl.
  - f_equal. lia.
  - rewrite IH by lia. f_equal. lia.
Qed.

Lemma range_length (n : Z) : length (Py.range n) = Z.to_nat n.
Proof. apply range_from_length. Qed.

Lemma range_lookup (n i : Z) : 0 <= i < n -> Py.range n !! Z.to_nat i = Some i.
Proof.
  intros Hi. unfold Py.range. rewrite range_from_lookup by lia. f_equal. lia.
Qed.

Lemma map_fst_combine_le {A B : Type} (l : list A) :
  forall k : list B, (length l <= length k)%nat -> map fst (combine l k) = l.
Proof.
  induction l as [| x l IH]; intros [| y k] Hlen; simpl in *;
    [reflexivity | reflexivity | lia |].
  f_equal. apply IH. lia.
Qed.

Lemma enumerate_indices {A : Type} (l : list A) :
  map fst (Py.enumerate l) = Py.range (Z.of_nat (length l)).
Proof.
  unfold Py.enumerate. apply map_fst_combine_le.
  rewrite range_length. lia.
Qed.

(** C4.  The program and verify passes move a sector in chunks of
    [gcd(sector_len, 2048)] bytes.  That size divides the sector length,
    so a payload as long as the sector is cut into
    [sector_len / gcd(sector_len, 2048)] full chunks that make up the
    payload; [flash] writes them as blocks 0, 1, 2, ... in that order and
    [read] asks for as many blocks of that size, in the same order (all of
    them when the operation ends normally, and the first of them when it
    is cut short by an error).  For the lengths 65536 and 49152 the chunk
    size is 2048. *)
Theorem chunk_size_divides_sector :
  forall (W : Type) (D : device W) (w : W) (G : globals) (dev : handle)
         (sector : sector) (data : list byte),
  0 <= sec_len sector < 2 ^ 53 ->
  Z.of_nat (length data) = sec_len sector ->
  let transfer_size := Py.gcd (sec_len sector) MAX_TRANSFER_SIZE in
  let count := sec_len sector / transfer_size in
  transfer_size = Z.gcd (sec_len sector) 2048
  /\ 1 <= transfer_size <= 2048
  /\ sec_len sector mod transfer_size = 0
  /\ sec_len sector = count * transfer_size
  /\ (exists blocks,
        blocks_of data transfer_size = Ok blocks
        /\ Z.of_nat (length blocks) = count
        /\ Forall (fun block => Z.of_nat (length block) = transfer_size) blocks
        /\ concat blocks = data
        /\ map fst (Py.enumerate blocks) = Py.range count
        /\ emits write_of (Py.enumerate blocks) D (flash G dev sector data) w)
  /\ emits read_of (map (fun blocknum => (blocknum, transfer_size)) (Py.range count))
       D (read G dev sector) w
  /\ Py.gcd 65536 MAX_TRANSFER_SIZE = 2048
  /\ Py.gcd 49152 MAX_TRANSFER_SIZE = 2048.
Proof.
  intros W D w G dev sector data Hlen Hdata transfer_size count.
  pose proof (transfer_size_bounds (sec_len sector)) as Hbounds.
  pose proof (transfer_size_divides (sec_len sector)) as Hdiv.
  fold transfer_size in Hbounds, Hdiv.
  assert (Hmod : sec_len sector mod transfer_size = 0).
  { apply Z.mod_divide; [lia | exact Hdiv]. }
  assert (Hcount : sec_len sector = count * transfer_size).
  { unfold count. rewrite Z.mul_comm. apply Z.div_exact; [lia | exact Hmod]. }
  assert (Hcount0 : 0 <= count).
  { unfold count. apply Z.div_pos; lia. }
  split; [reflexivity |]. split; [exact Hbounds |]. split; [exact Hmod |].
  split; [exact Hcount |]. split; [| split; [| split; reflexivity]].
  - destruct (blocks_of_exact data transfer_size count) as (blocks & Hb & Hn & Hfull & Hcat);
      [lia | lia | lia |].
    exists blocks. repeat split; try assumption.
    + rewrite enumerate_indices, Hn. reflexivity.
    + apply flash_writes. exact Hb.
  - apply read_reads. fold transfer_size. unfold count.
    apply int_truediv_exact; [lia | exact Hlen | exact Hdiv].
Qed.

(** ** The verify pass *)

Lemma run_for_each_app {W A : Type} (D : device W) (body : A -> dfu unit) (l1 l2 : list A) :
  forall w,
  run D (for_each (l1 ++ l2) body) w =
  match run D (for_each l1 body) w with
  | (t, Ok _, w') =>
      let '(t', res, w'') := run D (for_each l2 body) w' in (t ++ t', res, w'')
  | (t, Raise e, w') => (t, Raise e, w')
  end.
Proof.
  induction l1 as [| x l1 IH]; intros w.
  - simpl. destruct (run D (for_each l2 body) w) as [[t res] w']. reflexivity.
  - rewrite <- app_comm_cons, !for_each_cons, !run_bind.
    destruct (run D (body x) w) as [[t [[] | e]] w1]; [| reflexivity].
    rewrite IH.
    destruct (run D (for_each l1 body) w1) as [[t1 [[] | e]] w2]; [| reflexivity].
    destruct (run D (for_each l2 body) w2) as [[t2 res] w3].
    rewrite app_assoc. reflexivity.
Qed.

Lemma get_first_mismatch_index_spec (array1 array2 : list byte) :
  match get_first_mismatch_index array1 array2 with
  | Raise e => e = ArraysMustBeSameSize /\ length array1 <> length array2
  | Ok None => array1 = array2
  | Ok (Some i) =>
      length array1 = length array2
      /\ 0 <= i < Z.of_nat (length array1)
      /\ array1 !! Z.to_nat i <> array2 !! Z.to_nat i
      /\ (forall j, 0 <= j < i -> array1 !! Z.to_nat j = array2 !! Z.to_nat j)
  end.
Proof.
  unfold get_first_mismatch_index.
  destruct (length array1 =? length array2)%nat eqn:Hlen; simpl.
  - apply Nat.eqb_eq in Hlen.
    pose proof (first_mismatch_from_spec array1 array2 0 Hlen) as Hspec.
    destruct (first_mismatch_from 0 array1 array2) as [i |]; [| exact Hspec].
    destruct Hspec as (Hi & Hne & Hbefore).
    rewrite Z.sub_0_r in Hne. split; [exact Hlen |]. split; [lia |].
    split; [exact Hne |].
    intros j Hj. specialize (Hbefore j Hj). rewrite Z.sub_0_r in Hbefore. exact Hbefore.
  - apply Nat.eqb_neq in Hlen. split; [reflexivity | exact Hlen].
Qed.

Lemma get_first_mismatch_index_same (array : list byte) :
  get_first_mismatch_index array array = Ok None.
Proof.
  pose proof (get_first_mismatch_index_spec array array) as Hspec.
  destruct (get_first_mismatch_index array array) as [[i |] | e].
  - destruct Hspec as (_ & _ & Hne & _). congruence.
  - reflexivity.
  - destruct Hspec as [_ Hne]. congruence.
Qed.

Lemma get_first_mismatch_index_sizes (array1 array2 : list byte) :
  length array1 <> length array2 ->
  get_first_mismatch_index array1 array2 = Raise ArraysMustBeSameSize.
Proof.
  intros Hlen. unfold get_first_mismatch_index.
  apply Nat.eqb_neq in Hlen. rewrite Hlen. reflexivity.
Qed.

Lemma window_start_spec (i : Z) :
  window_start i = 16 * (i / 16)
  /\ window_start i mod 16 = 0
  /\ window_start i <= i < window_start i + 16.
Proof.
  unfold window_start.
  pose proof (Z.div_mod i 16 ltac:(lia)) as Hdm.
  pose proof (Z.mod_pos_bound i 16 ltac:(lia)) as Hb.
  assert (H16 : i - i mod 16 = 16 * (i / 16)) by lia.
  split; [exact H16 |]. split; [| lia].
  rewrite H16, Z.mul_comm. apply Z.mod_mul. lia.
Qed.

(** What the verify loop does with a sector whose read-back differs. *)
Lemma verify_sector_mismatch {W : Type} (D : device W) G sector expected observed i
    (t : list event) (w w' : W) :
  run D (read G (dfudev G) sector) w = (t, Ok observed, w') ->
  get_first_mismatch_index observed expected = Ok (Some i) ->
  run D (verify_sector G (sector, expected)) w =
  (t,
   Raise (VerificationFailed (sec_addr sector + window_start i)
            (Py.slice (window_start i) (window_start i + 16) expected)
            (Py.slice (window_start i) (window_start i + 16) observed)),
   w').
Proof.
  intros Hread Hmis. unfold verify_sector.
  rewrite (run_bind_ok _ _ _ _ _ _ _ Hread), Hmis. simpl.
  rewrite app_nil_r. reflexivity.
Qed.

Lemma verify_pass_mismatch {W : Type} (D : device W) G pre sector expected post observed i
    (t1 t2 : list event) (w w1 w2 : W) :
  run D (verify_pass G pre) w = (t1, Ok tt, w1) ->
  run D (read G (dfudev G) sector) w1 = (t2, Ok observed, w2) ->
  get_first_mismatch_index observed expected = Ok (Some i) ->
  run D (verify_pass G (pre ++ (sector, expected) :: post)) w =
  (t1 ++ t2,
   Raise (VerificationFailed (sec_addr sector + window_start i)
            (Py.slice (window_start i) (window_start i + 16) expected)
            (Py.slice (window_start i) (window_start i + 16) observed)),
   w2).
Proof.
  intros Hpre Hread Hmis. unfold verify_pass in *.
  rewrite run_for_each_app, Hpre, for_each_cons.
  rewrite (run_bind_raise _ _ _ _ _ _ _ (verify_sector_mismatch D G _ _ _ _ _ _ _ Hread Hmis)).
  reflexivity.
Qed.

(** C8.  The mismatch locator raises for arrays of different lengths,
    returns [None] for identical arrays and otherwise the smallest index
    at which the arrays differ.  The window reported for a mismatch at
    index [i] starts at [i] rounded down to a multiple of 16 (at 32 for
    [i = 37]).  When the verify pass finds a first mismatch in the
    read-back of a sector it ends there with the verification error that
    names that window: the calls made are those of the sectors before and
    of this sector's read, and none of any later sector. *)
Theorem mismatch_locator_and_report :
  (forall array1 array2 : list byte,
     match get_first_mismatch_index array1 array2 with
     | Raise e => e = ArraysMustBeSameSize /\ length array1 <> length array2
     | Ok None => array1 = array2
     | Ok (Some i) =>
         length array1 = length array2
         /\ 0 <= i < Z.of_nat (length array1)
         /\ array1 !! Z.to_nat i <> array2 !! Z.to_nat i
         /\ (forall j, 0 <= j < i -> array1 !! Z.to_nat j = array2 !! Z.to_nat j)
     end)
  /\ (forall array : list byte, get_first_mismatch_index array array = Ok None)
  /\ (forall array1 array2 : list byte,
        length array1 <> length array2 ->
        get_first_mismatch_index array1 array2 = Raise ArraysMustBeSameSize)
  /\ window_start 37 = 32
  /\ (forall i : Z,
        window_start i = 16 * (i / 16)
        /\ window_start i mod 16 = 0
        /\ window_start i <= i < window_start i + 16)
  /\ (forall (W : Type) (D : device W) (G : globals)
             (pre post : list (sector * list byte)) (sector : sector)
             (expected observed : list byte) (i : Z)
             (t1 t2 : list event) (w w1 w2 : W),
        run D (verify_pass G pre) w = (t1, Ok tt, w1) ->
        run D (read G (dfudev G) sector) w1 = (t2, Ok observed, w2) ->
        get_first_mismatch_index observed expected = Ok (Some i) ->
        run D (verify_pass G (pre ++ (sector, expected) :: post)) w =
        (t1 ++ t2,
         Raise (VerificationFailed (sec_addr sector + window_start i)
                  (Py.slice (window_start i) (window_start i + 16) expected)
                  (Py.slice (window_start i) (window_start i + 16) observed)),
         w2)).
Proof.
  split; [exact get_first_mismatch_index_spec |].
  split; [exact get_first_mismatch_index_same |].
  split; [exact get_first_mismatch_index_sizes |].
  split; [reflexivity |].
  split; [exact window_start_spec |].
  intros. eapply verify_pass_mismatch; eassumption.
Qed.

(** ** The safe set-address operation *)

Lemma DfuState_eqb_eq (a b : DfuState) : DfuState_eqb a b = true <-> a = b.
Proof. destruct a, b; simpl; split; (reflexivity || discriminate). Qed.

Lemma DfuState_eqb_neq (a b : DfuState) : DfuState_eqb a b = false <-> a <> b.
Proof.
  rewrite <- DfuState_eqb_eq. destruct (DfuState_eqb a b); split; congruence.
Qed.

(** C7.  The safe set-address operation makes the calls of the protocol
    in order (set-address, a poll that leaves DFU_DOWNLOAD_BUSY, abort, a
    poll that leaves DFU_DOWNLOAD_SYNC) and returns normally exactly when
    the two polls observe DFU_DOWNLOAD_IDLE and then DFU_IDLE.  As long as
    no poll observes another state, its run is one of the runs the
    protocol allows.  When a poll observes another state the protocol asks
    for an error that carries the observed status, but the operation ends
    in [TypeError]: the message is built with ["...%r" % status] on the
    status tuple, which fails before the error is raised. *)
Theorem set_address_safe_status_error_is_TypeError :
  forall (W : Type) (D : device W) (G : globals) (dfudef : handle) (addr : Z) (w : W),
  (outcome_of (run D (set_address_safe G dfudef addr) w) = Ok tt
   <-> observed_states (trace_of (run D (set_address_safe G dfudef addr) w))
       = [DFU_DOWNLOAD_IDLE; DFU_IDLE])
  /\ ((exists rest,
         [DFU_DOWNLOAD_IDLE; DFU_IDLE]
         = observed_states (trace_of (run D (set_address_safe G dfudef addr) w)) ++ rest) ->
      set_address_protocol (dfudev G) addr
        (trace_of (run D (set_address_safe G dfudef addr) w))
        (outcome_of (run D (set_address_safe G dfudef addr) w)))
  /\ (~ (exists rest,
           [DFU_DOWNLOAD_IDLE; DFU_IDLE]
           = observed_states (trace_of (run D (set_address_safe G dfudef addr) w)) ++ rest) ->
      outcome_of (run D (set_address_safe G dfudef addr) w) = Raise TypeError
      /\ exists st,
           set_address_protocol (dfudev G) addr
             (trace_of (run D (set_address_safe G dfudef addr) w))
             (Raise (DeviceStatusError st))).
Proof.
  intros W D G dfudef addr w. unfold set_address_safe, observed_states. simpl.
  destruct (D _ (dfudev G) (DfuDevice.set_address addr) w) as [[[] | e] w1]; simpl.
  2: { split; [split; discriminate |]. split; [intros _; constructor |].
       intros Hno. destruct Hno. eexists. reflexivity. }
  destruct (D _ (dfudev G) (DfuDevice.wait_while_state DFU_DOWNLOAD_BUSY None) w1)
    as [[st | e] w2]; simpl.
  2: { split; [split; discriminate |]. split; [intros _; constructor |].
       intros Hno. destruct Hno. eexists. reflexivity. }
  destruct (DfuState_eqb (status_1 st) DFU_DOWNLOAD_IDLE) eqn:E1; simpl.
  2: { apply DfuState_eqb_neq in E1.
       split; [split; [discriminate | congruence] |]. split.
       - intros (rest & Hrest). congruence.
       - intros _. split; [reflexivity |]. exists st. constructor. exact E1. }
  apply DfuState_eqb_eq in E1.
  destruct (D _ (dfudev G) DfuDevice.abort w2) as [[[] | e] w3]; simpl.
  2: { split; [split; discriminate |]. split; [intros _; constructor; exact E1 |].
       intros Hno. destruct Hno. rewrite E1. eexists. reflexivity. }
  destruct (D _ (dfudev G) (DfuDevice.wait_while_state DFU_DOWNLOAD_SYNC None) w3)
    as [[st' | e] w4]; simpl.
  2: { split; [split; discriminate |]. split; [intros _; constructor; exact E1 |].
       intros Hno. destruct Hno. rewrite E1. eexists. reflexivity. }
  destruct (DfuState_eqb (status_1 st') DFU_IDLE) eqn:E2; simpl.
  - apply DfuState_eqb_eq in E2.
    split; [split; [congruence | reflexivity] |].
    split; [intros _; constructor; assumption |].
    intros Hno. destruct Hno. rewrite E1, E2. exists []. reflexivity.
  - apply DfuState_eqb_neq in E2.
    split; [split; [discriminate | congruence] |]. split.
    + intros (rest & Hrest). congruence.
    + intros _. split; [reflexivity |]. exists st'. constructor; assumption.
Qed.

(** On a device whose poll after the set-address request answers
    [(0, DFU_ERROR)], the operation ends in [TypeError] where the protocol
    asks for the error that carries that status. *)
Example set_address_safe_on_error_state :
  run (answering DFU_ERROR) (set_address_safe G0 (dfudev G0) 134217728) tt
  = ([Event (dfudev G0) (DfuDevice.set_address 134217728) (Ok tt);
      Event (dfudev G0) (DfuDevice.wait_while_state DFU_DOWNLOAD_BUSY None)
        (Ok (0, DFU_ERROR))],
     Raise TypeError, tt)
  /\ set_address_protocol (dfudev G0) 134217728
       (trace_of (run (answering DFU_ERROR)
                    (set_address_safe G0 (dfudev G0) 134217728) tt))
       (Raise (DeviceStatusError (0, DFU_ERROR)))
  /\ ~ set_address_protocol (dfudev G0) 134217728
         (trace_of (run (answering DFU_ERROR)
                      (set_address_safe G0 (dfudev G0) 134217728) tt))
         (Raise TypeError).
Proof.
  split; [reflexivity |]. split.
  - apply sap_not_download_idle. discriminate.
  - intros H. inversion H.
Qed.

(** C10.  The safe set-address operation does not depend on the handle
    it is passed: the program is the same for every handle, every call it
    makes is on the module's global [dfudev], and running it with any
    handle gives what running it with the global handle gives. *)
Theorem set_address_safe_ignores_handle :
  forall (G : globals) (h h' : handle) (addr : Z),
  set_address_safe G h addr = set_address_safe G h' addr
  /\ set_address_safe G h addr = set_address_safe G (dfudev G) addr
  /\ only_calls (fun dev _ => dev = dfudev G) (set_address_safe G h addr)
  /\ (forall (W : Type) (D : device W) (w : W),
        run D (set_address_safe G h addr) w
        = run D (set_address_safe G (dfudev G) addr) w
        /\ Forall (fun ev => event_handle ev = dfudev G)
             (trace_of (run D (set_address_safe G h addr) w))).
Proof.
  intros G h h' addr.
  assert (Hcalls : only_calls (fun dev _ => dev = dfudev G) (set_address_safe G h addr)).
  { eapply only_calls_weaken; [| apply set_address_safe_calls].
    intros dev k [Hdev _]. exact Hdev. }
  split; [reflexivity |]. split; [reflexivity |]. split; [exact Hcalls |].
  intros W D w. split; [reflexivity |].
  exact (only_calls_run _ D _ Hcalls w).
Qed.

(** ** The three passes *)

Lemma set_alternate_safe_kinds (ks : list kind) dev alt :
  incl alternate_kinds ks -> only_calls (of_kinds ks) (set_alternate_safe dev alt).
Proof.
  intros Hincl. eapply only_calls_weaken; [| apply set_alternate_safe_calls].
  intros d k [_ Hk]. apply Hincl. exact Hk.
Qed.

Lemma set_address_safe_kinds (ks : list kind) G dev addr :
  incl address_kinds ks -> only_calls (of_kinds ks) (set_address_safe G dev addr).
Proof.
  intros Hincl. eapply only_calls_weaken; [| apply set_address_safe_calls].
  intros d k [_ Hk]. apply Hincl. exact Hk.
Qed.

Ltac solve_incl :=
  let x := fresh "x" in let H := fresh "H" in
  intros x H; simpl in H |- *; tauto.

Ltac solve_kinds :=
  repeat first
    [ apply only_calls_bind
    | apply set_alternate_safe_kinds; solve_incl
    | apply set_address_safe_kinds; solve_incl
    | apply only_calls_call; unfold of_kinds; simpl; tauto
    | apply only_calls_lift
    | apply only_calls_Ret
    | apply only_calls_Throw
    | apply only_calls_for_each
    | intros ?
    | match goal with |- only_calls _ (if ?b then _ else _) => destruct b end
    | match goal with |- only_calls _ (match ?b with _ => _ end) => destruct b end ].

Lemma erase_kinds_only dev sector : only_calls (of_kinds erase_kinds) (erase dev sector).
Proof. unfold erase. solve_kinds. Qed.

Lemma flash_kinds_only G dev sector data :
  only_calls (of_kinds flash_kinds) (flash G dev sector data).
Proof. unfold flash, write_block. solve_kinds. Qed.

Lemma read_blocks_kinds_only dev size blocknums :
  forall data, only_calls (of_kinds verify_kinds) (read_blocks dev size blocknums data).
Proof.
  induction blocknums as [| blocknum blocknums IH]; intros data; simpl.
  - constructor.
  - constructor; [unfold of_kinds; simpl; tauto |]. intros block. apply IH.
Qed.

Lemma read_kinds_only G dev sector : only_calls (of_kinds verify_kinds) (read G dev sector).
Proof.
  unfold read.
  apply only_calls_bind; [apply set_alternate_safe_kinds; solve_incl |]. intros _.
  apply only_calls_bind; [apply set_address_safe_kinds; solve_incl |]. intros _.
  apply only_calls_bind; [apply only_calls_lift |]. intros count.
  apply only_calls_bind; [apply read_blocks_kinds_only |]. intros data.
  solve_kinds.
Qed.

Lemma verify_sector_kinds_only G entry :
  only_calls (of_kinds verify_kinds) (verify_sector G entry).
Proof.
  destruct entry as [sector expected]. unfold verify_sector.
  apply only_calls_bind; [apply read_kinds_only |]. intros observed.
  apply only_calls_bind; [apply only_calls_lift |]. intros [i |]; constructor.
Qed.

Lemma erase_pass_kinds_only G touched_sectors :
  only_calls (of_kinds erase_kinds) (erase_pass G touched_sectors).
Proof.
  unfold erase_pass. apply only_calls_for_each. intros entry _. apply erase_kinds_only.
Qed.

Lemma flash_pass_kinds_only G touched_sectors :
  only_calls (of_kinds flash_kinds) (flash_pass G touched_sectors).
Proof.
  unfold flash_pass. apply only_calls_for_each. intros entry _. apply flash_kinds_only.
Qed.

Lemma verify_pass_kinds_only G touched_sectors :
  only_calls (of_kinds verify_kinds) (verify_pass G touched_sectors).
Proof.
  unfold verify_pass. apply only_calls_for_each. intros entry _.
  apply verify_sector_kinds_only.
Qed.

Lemma jump_kinds_only G dev address :
  only_calls (of_kinds jump_kinds) (jump_to_application G dev address).
Proof. unfold jump_to_application. solve_kinds. Qed.

(** An event of a kind that the first part of a trace never has lies in
    the second part. *)
Lemma split_after (ks : list kind) (t1 t2 pre post : list event) (ev : event) :
  Forall (event_sat (of_kinds ks)) t1 ->
  ~ In (event_kind ev) ks ->
  t1 ++ t2 = pre ++ ev :: post ->
  exists mid, pre = t1 ++ mid /\ t2 = mid ++ ev :: post.
Proof.
  intros Ht1 Hk. revert pre.
  induction Ht1 as [| x t1 Hx _ IH]; intros pre Heq; simpl in Heq.
  - exists pre. split; [reflexivity | exact Heq].
  - destruct pre as [| y pre]; simpl in Heq; injection Heq as Hxy Hrest.
    + subst x. exfalso. exact (Hk Hx).
    + subst y. destruct (IH pre Hrest) as (mid & Hpre & Ht2).
      exists mid. split; [simpl; f_equal; exact Hpre | exact Ht2].
Qed.

Lemma not_in_trace (ks : list kind) (t pre post : list event) (ev : event) :
  Forall (event_sat (of_kinds ks)) t ->
  ~ In (event_kind ev) ks ->
  t = pre ++ ev :: post -> False.
Proof.
  intros Ht Hk Heq. subst t. apply Forall_app in Ht as [_ Ht].
  inversion Ht as [| x l Hx _]. exact (Hk Hx).
Qed.

Lemma run_bind_assoc {W A B C : Type} (D : device W) (p : dfu A) (f : A -> dfu B)
    (g : B -> dfu C) (w : W) :
  run D (bind (bind p f) g) w = run D (bind p (fun a => bind (f a) g)) w.
Proof.
  rewrite !run_bind.
  destruct (run D p w) as [[t [a | e]] w1]; [| reflexivity].
  rewrite run_bind.
  destruct (run D (f a) w1) as [[t1 [b | e]] w2]; [| reflexivity].
  destruct (run D (g b) w2) as [[t2 res] w3].
  rewrite app_assoc. reflexivity.
Qed.

Lemma run_bind_ext {W A B : Type} (D : device W) (p : dfu A) (f g : A -> dfu B) (w : W) :
  (forall a w', run D (f a) w' = run D (g a) w') ->
  run D (bind p f) w = run D (bind p g) w.
Proof.
  intros Hfg. rewrite !run_bind.
  destruct (run D p w) as [[t [a | e]] w1]; [| reflexivity].
  rewrite Hfg. reflexivity.
Qed.

Lemma run_bind_ok_inv {W A B : Type} (D : device W) (p : dfu A) (f : A -> dfu B)
    (w w' : W) (t : list event) (b : B) :
  run D (bind p f) w = (t, Ok b, w') ->
  exists t1 a w1 t2,
    run D p w = (t1, Ok a, w1) /\ run D (f a) w1 = (t2, Ok b, w') /\ t = t1 ++ t2.
Proof.
  rewrite run_bind.
  destruct (run D p w) as [[t1 [a | e]] w1]; [| discriminate].
  destruct (run D (f a) w1) as [[t2 res] w2] eqn:E. intros [= <- -> <-].
  exists t1, a, w1, t2. auto.
Qed.

(** An event of a kind that [p] never calls comes after [p] has ended
    normally. *)
Lemma event_after {W A B : Type} (D : device W) (ks : list kind) (p : dfu A)
    (f : A -> dfu B) (w : W) (pre post : list event) (ev : event) :
  only_calls (of_kinds ks) p ->
  ~ In (event_kind ev) ks ->
  trace_of (run D (bind p f) w) = pre ++ ev :: post ->
  exists t a w1 mid, run D p w = (t, Ok a, w1) /\ pre = t ++ mid.
Proof.
  intros Hp Hk Htrace.
  pose proof (only_calls_run _ D _ Hp w) as Hkinds.
  destruct (run D p w) as [[t [a | e]] w1] eqn:E; cbn [trace_of fst] in Hkinds.
  - rewrite (run_bind_ok _ _ _ _ _ _ _ E) in Htrace. cbn [trace_of fst] in Htrace.
    destruct (split_after _ _ _ _ _ _ Hkinds Hk Htrace) as (mid & Hpre & _).
    exists t, a, w1, mid. auto.
  - rewrite (run_bind_raise _ _ _ _ _ _ _ E) in Htrace. cbn [trace_of fst] in Htrace.
    exfalso. exact (not_in_trace _ _ _ _ _ Hkinds Hk Htrace).
Qed.

(** The sequencer, with the passes grouped from the left. *)
Lemma sequencer_erase_flash {W : Type} (D : device W) G touched_sectors (w : W) :
  run D (sequencer G touched_sectors) w =
  run D (bind (erase_pass G touched_sectors >> flash_pass G touched_sectors)
           (fun _ => verify_pass G touched_sectors >>
                     jump_to_application G (dfudev G) 134217728)) w.
Proof. unfold sequencer. rewrite run_bind_assoc. reflexivity. Qed.

Lemma sequencer_three_passes {W : Type} (D : device W) G touched_sectors (w : W) :
  run D (sequencer G touched_sectors) w =
  run D (bind (erase_pass G touched_sectors >> flash_pass G touched_sectors >>
               verify_pass G touched_sectors)
           (fun _ => jump_to_application G (dfudev G) 134217728)) w.
Proof.
  unfold sequencer. rewrite run_bind_assoc.
  apply run_bind_ext. intros _ w1. rewrite run_bind_assoc. reflexivity.
Qed.

Lemma erase_flash_kinds_only G touched_sectors :
  only_calls (of_kinds (erase_kinds ++ flash_kinds))
    (erase_pass G touched_sectors >> flash_pass G touched_sectors).
Proof.
  apply only_calls_bind; [| intros _].
  - eapply only_calls_weaken; [| apply erase_pass_kinds_only].
    intros d k Hk. apply in_or_app. left. exact Hk.
  - eapply only_calls_weaken; [| apply flash_pass_kinds_only].
    intros d k Hk. apply in_or_app. right. exact Hk.
Qed.

Lemma three_passes_kinds_only G touched_sectors :
  only_calls (of_kinds (erase_kinds ++ flash_kinds ++ verify_kinds))
    (erase_pass G touched_sectors >> flash_pass G touched_sectors >>
     verify_pass G touched_sectors).
Proof.
  apply only_calls_bind; [| intros _; apply only_calls_bind; [| intros _]].
  - eapply only_calls_weaken; [| apply erase_pass_kinds_only].
    intros d k Hk. apply in_or_app. left. exact Hk.
  - eapply only_calls_weaken; [| apply flash_pass_kinds_only].
    intros d k Hk. apply in_or_app. right. apply in_or_app. left. exact Hk.
  - eapply only_calls_weaken; [| apply verify_pass_kinds_only].
    intros d k Hk. apply in_or_app. right. apply in_or_app. right. exact Hk.
Qed.

Lemma verify_sector_run {W : Type} (D : device W) G sector expected observed
    (t : list event) (w w' : W) :
  run D (read G (dfudev G) sector) w = (t, Ok observed, w') ->
  run D (verify_sector G (sector, expected)) w = (t, verdict sector expected observed, w').
Proof.
  intros Hread. unfold verify_sector, verdict.
  rewrite (run_bind_ok _ _ _ _ _ _ _ Hread).
  destruct (get_first_mismatch_index observed expected) as [[i |] | e]; simpl;
    rewrite app_nil_r; reflexivity.
Qed.

(** A read-back that differs from the payload ends in an error. *)
Lemma verdict_mismatch (sector : sector) (expected observed : list byte) :
  observed <> expected ->
  verdict sector expected observed = Raise ArraysMustBeSameSize
  \/ exists i,
       0 <= i < Z.of_nat (length expected)
       /\ verdict sector expected observed =
          Raise (VerificationFailed (sec_addr sector + window_start i)
                   (Py.slice (window_start i) (window_start i + 16) expected)
                   (Py.slice (window_start i) (window_start i + 16) observed)).
Proof.
  intros Hne. unfold verdict.
  pose proof (get_first_mismatch_index_spec observed expected) as Hspec.
  destruct (get_first_mismatch_index observed expected) as [[i |] | e].
  - right. exists i. destruct Hspec as (Hlen & Hi & _). split; [lia | reflexivity].
  - contradiction.
  - left. destruct Hspec as [-> _]. reflexivity.
Qed.

Lemma emits_bind {X W A B : Type} (f : event -> option X) (items1 items2 : list X)
    (D : device W) (p : dfu A) (q : A -> dfu B) (w : W) :
  emits f items1 D p w ->
  (forall a w', emits f items2 D (q a) w') ->
  emits f (items1 ++ items2) D (bind p q) w.
Proof.
  intros (rest & Hrest & Hok) Hq. unfold emits.
  destruct (run D p w) as [[t [a | e]] w1] eqn:E;
    cbn [trace_of outcome_of fst snd] in Hrest, Hok.
  - rewrite (Hok eq_refl), app_nil_r in Hrest.
    destruct (Hq a w1) as (rest2 & Hrest2 & Hok2).
    exists rest2. rewrite (run_bind_ok _ _ _ _ _ _ _ E).
    cbn [trace_of outcome_of fst snd]. rewrite omap_app, <- app_assoc.
    split; [congruence | exact Hok2].
  - exists (rest ++ items2). rewrite (run_bind_raise _ _ _ _ _ _ _ E).
    cbn [trace_of outcome_of fst snd]. rewrite app_assoc.
    split; [congruence | discriminate].
Qed.

Lemma emits_for_each {X W A : Type} (f : event -> option X) (g : A -> list X)
    (D : device W) (body : A -> dfu unit) (l : list A) :
  (forall x w, emits f (g x) D (body x) w) ->
  forall w, emits f (flat_map g l) D (for_each l body) w.
Proof.
  intros Hbody. induction l as [| x l IH]; intros w.
  - exists []. split; reflexivity.
  - rewrite for_each_cons. cbn [flat_map].
    apply emits_bind; [apply Hbody | intros _ w'; apply IH].
Qed.

Lemma set_alternate_safe_no_erase {W : Type} (D : device W) dev alt w :
  omap erase_of (trace_of (run D (set_alternate_safe dev alt) w)) = [].
Proof.
  pose proof (only_calls_run _ D _ (set_alternate_safe_calls dev alt) w) as Hk.
  induction Hk as [| [R d m a] t [_ Hev] _ IH]; [reflexivity |].
  destruct m; try exact IH; simpl in Hev; exfalso; decompose [or] Hev; congruence.
Qed.

Lemma erase_emits {W : Type} (D : device W) dev sector w :
  emits erase_of [sec_addr sector] D (erase dev sector) w.
Proof.
  unfold erase.
  apply emits_bind_silent; [apply set_alternate_safe_no_erase |]. intros _ w1.
  unfold emits. simpl.
  destruct (D _ dev (DfuDevice.erase (sec_addr sector)) w1) as [[[] | e] w2];
    [| exists []; split; reflexivity].
  destruct (D _ dev (DfuDevice.wait_while_state DFU_DOWNLOAD_BUSY
                       (Some (sec_len sector, 32))) w2) as [[st | e] w3];
    [| exists []; split; reflexivity].
  destruct (negb (DfuState_eqb (status_1 st) DFU_DOWNLOAD_IDLE));
    exists []; split; reflexivity.
Qed.

Lemma blocks_of_total (data : list byte) (len : Z) :
  exists blocks, blocks_of data (Py.gcd len MAX_TRANSFER_SIZE) = Ok blocks.
Proof.
  pose proof (transfer_size_bounds len) as Hb.
  unfold blocks_of, Py.range3.
  destruct (Py.gcd len MAX_TRANSFER_SIZE =? 0) eqn:E0; [apply Z.eqb_eq in E0; lia |].
  simpl. eexists. reflexivity.
Qed.

Lemma erase_pass_emits {W : Type} (D : device W) G touched_sectors w :
  emits erase_of (map (fun entry => sec_addr (fst entry)) touched_sectors)
    D (erase_pass G touched_sectors) w.
Proof.
  unfold erase_pass.
  replace (map (fun entry => sec_addr (fst entry)) touched_sectors)
    with (flat_map (fun entry : sector * list byte => [sec_addr (fst entry)]) touched_sectors).
  - apply emits_for_each. intros entry w'. apply erase_emits.
  - induction touched_sectors as [| entry l IH]; [reflexivity |].
    simpl. rewrite IH. reflexivity.
Qed.

Lemma flash_pass_emits {W : Type} (D : device W) G touched_sectors w :
  emits write_of (flat_map expected_writes touched_sectors)
    D (flash_pass G touched_sectors) w.
Proof.
  unfold flash_pass. apply emits_for_each. intros entry w'.
  unfold expected_writes.
  destruct (blocks_of_total (snd entry) (sec_len (fst entry))) as (blocks & Hb).
  rewrite Hb. apply flash_writes. exact Hb.
Qed.

Lemma kinds_exclude (ks : list kind) (k : kind) (t : list event) :
  ~ In k ks ->
  Forall (event_sat (of_kinds ks)) t ->
  Forall (fun ev => event_kind ev <> k) t.
Proof.
  intros Hk. apply List.Forall_impl. intros ev Hev Heq. apply Hk. rewrite <- Heq. exact Hev.
Qed.

(** C9.  The sequencer runs three passes one after the other.  A pass
    that ends normally has covered every touched sector: the erase pass has
    erased each of them and the flash pass has written every block of each
    of them.  In every run, whatever comes before a block write contains a
    whole erase pass that ended normally, whatever comes before a block
    read contains the erase and flash passes, both ended normally, and
    whatever comes before the leave request contains all three passes,
    ended normally.  When the read-back of a sector differs from its
    payload the run ends with an error right after that read: the jump to
    the application makes no call, and no leave request is sent. *)
Theorem passes_are_sequential :
  forall (W : Type) (D : device W) (G : globals)
         (touched_sectors : list (sector * list byte)) (w : W),
  (forall w0,
     emits erase_of (map (fun entry => sec_addr (fst entry)) touched_sectors)
       D (erase_pass G touched_sectors) w0)
  /\ (forall w0,
        emits write_of (flat_map expected_writes touched_sectors)
          D (flash_pass G touched_sectors) w0)
  /\ (forall (pre post : list event) (ev : event),
        trace_of (run D (sequencer G touched_sectors) w) = pre ++ ev :: post ->
        (event_kind ev = KWrite ->
         exists t1 w1 mid,
           run D (erase_pass G touched_sectors) w = (t1, Ok tt, w1)
           /\ pre = t1 ++ mid)
        /\ (event_kind ev = KRead ->
            exists t2 w2 mid,
              run D (erase_pass G touched_sectors >> flash_pass G touched_sectors) w
              = (t2, Ok tt, w2)
              /\ pre = t2 ++ mid)
        /\ (event_kind ev = KLeave ->
            exists t3 w3 mid,
              run D (erase_pass G touched_sectors >> flash_pass G touched_sectors >>
                     verify_pass G touched_sectors) w
              = (t3, Ok tt, w3)
              /\ pre = t3 ++ mid))
  /\ (forall (pre post : list (sector * list byte)) (sector : sector)
             (expected observed : list byte) (t0 t1 t2 : list event) (w0 w1 w2 : W),
        touched_sectors = pre ++ (sector, expected) :: post ->
        run D (erase_pass G touched_sectors >> flash_pass G touched_sectors) w
        = (t0, Ok tt, w0) ->
        run D (verify_pass G pre) w0 = (t1, Ok tt, w1) ->
        run D (read G (dfudev G) sector) w1 = (t2, Ok observed, w2) ->
        observed <> expected ->
        run D (sequencer G touched_sectors) w
        = (t0 ++ t1 ++ t2, verdict sector expected observed, w2)
        /\ is_ok (verdict sector expected observed) = false
        /\ Forall (fun ev => event_kind ev <> KLeave) (t0 ++ t1 ++ t2)).
Proof.
  intros W D G touched_sectors w.
  split; [intros w0; apply erase_pass_emits |].
  split; [intros w0; apply flash_pass_emits |].
  split.
  - intros pre post ev Htrace. split; [| split]; intros Hkind.
    + unfold sequencer in Htrace.
      destruct (event_after D erase_kinds _ _ _ _ _ _ (erase_pass_kinds_only G _)
                  ltac:(rewrite Hkind; not_in_kinds) Htrace) as (t & [] & w1 & mid & H1 & H2).
      exists t, w1, mid. auto.
    + rewrite sequencer_erase_flash in Htrace.
      destruct (event_after D (erase_kinds ++ flash_kinds) _ _ _ _ _ _
                  (erase_flash_kinds_only G _)
                  ltac:(rewrite Hkind; not_in_kinds) Htrace) as (t & [] & w1 & mid & H1 & H2).
      exists t, w1, mid. auto.
    + rewrite sequencer_three_passes in Htrace.
      destruct (event_after D (erase_kinds ++ flash_kinds ++ verify_kinds) _ _ _ _ _ _
                  (three_passes_kinds_only G _)
                  ltac:(rewrite Hkind; not_in_kinds) Htrace) as (t & [] & w1 & mid & H1 & H2).
      exists t, w1, mid. auto.
  - intros pre post sector expected observed t0 t1 t2 w0 w1 w2
      Htouched Hpasses Hpre Hread Hne.
    assert (Hbad : is_ok (verdict sector expected observed) = false).
    { destruct (verdict_mismatch sector expected observed Hne) as [-> | (i & _ & ->)];
        reflexivity. }
    assert (Hverify : run D (verify_pass G touched_sectors) w0
                      = (t1 ++ t2, verdict sector expected observed, w2)).
    { rewrite Htouched. unfold verify_pass in *.
      rewrite run_for_each_app, Hpre, for_each_cons, run_bind.
      rewrite (verify_sector_run D G _ _ _ _ _ _ Hread).
      destruct (verdict sector expected observed) as [[] | e]; [discriminate | reflexivity]. }
    split; [| split; [exact Hbad |]].
    + rewrite sequencer_erase_flash, (run_bind_ok _ _ _ _ _ _ _ Hpasses).
      rewrite run_bind, Hverify.
      destruct (verdict sector expected observed) as [[] | e]; [discriminate | reflexivity].
    + apply Forall_app. split.
      * pose proof (only_calls_run _ D _ (erase_flash_kinds_only G touched_sectors) w) as Hk.
        rewrite Hpasses in Hk. cbn [trace_of fst] in Hk.
        revert Hk. apply kinds_exclude. not_in_kinds.
      * pose proof (only_calls_run _ D _ (verify_pass_kinds_only G touched_sectors) w0) as Hk.
        rewrite Hverify in Hk. cbn [trace_of fst] in Hk.
        revert Hk. apply kinds_exclude. not_in_kinds.
Qed.

(** ** The target selector *)

Lemma touched_spec (addr size : Z) (segments : list (Z * Z)) :
  touched addr size segments = true
  <-> exists segment, In segment segments /\ overlaps addr size segment.
Proof.
  unfold overlaps. induction segments as [| [start end_] rest IH]; simpl.
  - split; [discriminate | intros (seg & [] & _)].
  - rewrite Z.gtb_ltb, Z.geb_leb.
    destruct (Z.ltb_spec start addr), (Z.ltb_spec addr end_),
      (Z.leb_spec addr start), (Z.ltb_spec start (addr + size)); simpl;
      try (split; [intros _; exists (start, end_); simpl; split; [left; reflexivity | lia]
                  | reflexivity]);
      rewrite IH; (split; [intros (seg & Hin & Hov); exists seg; split; [right; exact Hin | exact Hov]
                          | intros (seg & [<- | Hin] & Hov); [simpl in Hov; lia | exists seg; auto]]).
Qed.

Lemma populate_sectors_fst (sectors : list sector) (hexfile : gmap Z byte) :
  map fst (populate_sectors sectors hexfile)
  = List.filter (fun s => touched (sec_addr s) (sec_len s) (IntelHex.segments hexfile)) sectors.
Proof.
  induction sectors as [| s rest IH]; simpl; [reflexivity |].
  destruct (touched (sec_addr s) (sec_len s) (IntelHex.segments hexfile)); simpl;
    rewrite IH; reflexivity.
Qed.

Lemma populate_sectors_In (sectors : list sector) (hexfile : gmap Z byte)
    (s : sector) (data : list byte) :
  In (s, data) (populate_sectors sectors hexfile)
  <-> In s sectors
      /\ touched (sec_addr s) (sec_len s) (IntelHex.segments hexfile) = true
      /\ data = IntelHex.tobinarray hexfile (sec_addr s) (sec_addr s + sec_len s - 1).
Proof.
  induction sectors as [| s' rest IH]; simpl.
  - tauto.
  - destruct (touched (sec_addr s') (sec_len s') (IntelHex.segments hexfile)) eqn:E; simpl;
      rewrite IH; split.
    + intros [[= -> ->] | (Hin & Ht & Hd)]; auto.
    + intros ([-> | Hin] & Ht & ->); auto.
    + intros (Hin & Ht & Hd); auto.
    + intros ([-> | Hin] & Ht & Hd); [congruence | auto].
Qed.

Lemma segments_empty : IntelHex.segments ∅ = [].
Proof. reflexivity. Qed.

Lemma populate_sectors_empty (sectors : list sector) : populate_sectors sectors ∅ = [].
Proof.
  induction sectors as [| s rest IH]; [reflexivity |].
  change (populate_sectors (s :: rest) ∅)
    with (if touched (sec_addr s) (sec_len s) (IntelHex.segments ∅)
          then (s, IntelHex.tobinarray ∅ (sec_addr s) (sec_addr s + sec_len s - 1))
               :: populate_sectors rest ∅
          else populate_sectors rest ∅).
  rewrite segments_empty. exact IH.
Qed.

(** ** The image: what [segments] covers and what [tobinarray] returns *)

Lemma runs_from_cover (a : Z) (addrs : list Z) :
  forall start next,
  start < next ->
  covered a (IntelHex.runs_from start next addrs) <-> (start <= a < next \/ In a addrs).
Proof.
  unfold covered. induction addrs as [| x rest IH]; intros start next Hlt; simpl.
  - split.
    + intros (seg & [<- | []] & Ha). left. exact Ha.
    + intros [Ha | []]. exists (start, next). split; [left; reflexivity | exact Ha].
  - destruct (Z.eqb_spec x next) as [-> | Hne].
    + rewrite IH by lia. split; intros [Ha | Ha]; try lia; try tauto.
      destruct Ha as [Ha | Ha]; [lia | tauto].
    + split.
      * intros (seg & [<- | Hin] & Ha); [left; exact Ha |].
        assert (x <= a < x + 1 \/ In a rest) as [Hx | Hr].
        { apply (IH x (x + 1)); [lia |]. exists seg. auto. }
        -- right. left. lia.
        -- right. right. exact Hr.
      * intros [Ha | [Ha | Ha]].
        -- exists (start, next). split; [left; reflexivity | exact Ha].
        -- assert (Hx : x <= a < x + 1 \/ In a rest) by (left; lia).
           apply (IH x (x + 1)) in Hx as (seg & Hin & Hseg); [| lia].
           exists seg. split; [right; exact Hin | exact Hseg].
        -- assert (Hx : x <= a < x + 1 \/ In a rest) by (right; exact Ha).
           apply (IH x (x + 1)) in Hx as (seg & Hin & Hseg); [| lia].
           exists seg. split; [right; exact Hin | exact Hseg].
Qed.

Lemma addresses_spec (ih : gmap Z byte) (a : Z) :
  In a (IntelHex.addresses ih) <-> is_Some (ih !! a).
Proof.
  unfold IntelHex.addresses.
  rewrite <- list_elem_of_In, merge_sort_Permutation, list_elem_of_fmap.
  split.
  - intros ([a' x] & -> & Hin). apply elem_of_map_to_list in Hin. eauto.
  - intros [x Hx]. exists (a, x). split; [reflexivity |].
    apply elem_of_map_to_list. exact Hx.
Qed.

(** The segments cover exactly the addresses the image defines. *)
Lemma segments_cover (ih : gmap Z byte) (a : Z) :
  covered a (IntelHex.segments ih) <-> is_Some (ih !! a).
Proof.
  rewrite <- addresses_spec. unfold IntelHex.segments.
  destruct (IntelHex.addresses ih) as [| a0 rest].
  - split; [intros (seg & [] & _) | intros []].
  - rewrite runs_from_cover by lia. simpl. split; intros [H | H]; auto; [left; lia | lia].
Qed.

Lemma lookup_map {A B : Type} (f : A -> B) (l : list A) :
  forall i x, l !! i = Some x -> map f l !! i = Some (f x).
Proof.
  induction l as [| y l IH]; intros [| i] x Hx; simpl in *; try discriminate.
  - injection Hx as ->. reflexivity.
  - apply IH. exact Hx.
Qed.

Lemma tobinarray_length (ih : gmap Z byte) (start end_ : Z) :
  length (IntelHex.tobinarray ih start end_) = Z.to_nat (end_ - start + 1).
Proof. unfold IntelHex.tobinarray. rewrite length_map. apply range_length. Qed.

Lemma tobinarray_lookup (ih : gmap Z byte) (start end_ i : Z) :
  0 <= i < end_ - start + 1 ->
  IntelHex.tobinarray ih start end_ !! Z.to_nat i
  = Some (default IntelHex.padding (ih !! (start + i))).
Proof.
  intros Hi. unfold IntelHex.tobinarray.
  apply (lookup_map (fun i => default IntelHex.padding (ih !! (start + i)))).
  apply range_lookup. exact Hi.
Qed.

(** ** The selected sectors and their payloads *)

(** C2.  The target selector selects a sector exactly when some segment
    [[start, end)] of the image has [start < addr] and [end > addr], or
    [start >= addr] and [start < addr + len]; it yields one entry for each
    selected sector, in the order of the sector map, and none for the
    others; an empty image selects nothing; the segment
    [[0x08010010, 0x08010020)] selects, of the twelve sectors of the
    example, only the 64 KiB sector at [0x08010000]. *)
Theorem target_selector_selects_overlapping :
  (forall (addr size : Z) (segments : list (Z * Z)),
     touched addr size segments = true
     <-> exists segment,
           In segment segments
           /\ ((fst segment < addr /\ snd segment > addr)
               \/ (fst segment >= addr /\ fst segment < addr + size)))
  /\ (forall (sectors : list sector) (hexfile : gmap Z byte),
        map fst (populate_sectors sectors hexfile)
        = List.filter
            (fun s => touched (sec_addr s) (sec_len s) (IntelHex.segments hexfile))
            sectors)
  /\ (forall (sectors : list sector) (hexfile : gmap Z byte) (s : sector),
        In s (map fst (populate_sectors sectors hexfile))
        <-> In s sectors
            /\ exists segment,
                 In segment (IntelHex.segments hexfile)
                 /\ ((fst segment < sec_addr s /\ snd segment > sec_addr s)
                     \/ (fst segment >= sec_addr s
                         /\ fst segment < sec_addr s + sec_len s)))
  /\ (forall sectors : list sector, populate_sectors sectors ∅ = [])
  /\ IntelHex.segments example_image = [(134283280, 134283296)]
  /\ length example_sectors = 12%nat
  /\ map fst (populate_sectors example_sectors example_image)
     = [ {| sec_name := Py.lit "Flash"; sec_alt := 0; sec_baseaddr := 134217728;
            sec_addr := 134283264; sec_len := 65536; sec_mode := "g"%char |} ].
Proof.
  split; [exact touched_spec |].
  split; [exact populate_sectors_fst |].
  split.
  { intros sectors hexfile s. rewrite populate_sectors_fst, filter_In, touched_spec.
    reflexivity. }
  split; [exact populate_sectors_empty |].
  split; [vm_compute; reflexivity |].
  split; vm_compute; reflexivity.
Qed.

(** C3.  The payload yielded for a touched sector of positive length
    covers the span [[addr, addr + len)]: it has [len] bytes, the byte at
    offset [i] is the image's byte at [addr + i] where the image defines
    one, and [0xFF] at every address that no segment of the image
    covers. *)
Theorem payload_covers_sector :
  forall (sectors : list sector) (hexfile : gmap Z byte) (s : sector) (data : list byte),
  In (s, data) (populate_sectors sectors hexfile) ->
  0 < sec_len s ->
  Z.of_nat (length data) = sec_len s
  /\ (forall i, 0 <= i < sec_len s ->
        forall b, hexfile !! (sec_addr s + i) = Some b -> data !! Z.to_nat i = Some b)
  /\ (forall i, 0 <= i < sec_len s ->
        (forall segment,
           In segment (IntelHex.segments hexfile) ->
           ~ (fst segment <= sec_addr s + i < snd segment)) ->
        data !! Z.to_nat i = Some xff).
Proof.
  intros sectors hexfile s data Hin Hlen.
  apply populate_sectors_In in Hin as (_ & _ & ->).
  split; [| split].
  - rewrite tobinarray_length. lia.
  - intros i Hi b Hb. rewrite tobinarray_lookup by lia. rewrite Hb. reflexivity.
  - intros i Hi Hfree. rewrite tobinarray_lookup by lia.
    destruct (hexfile !! (sec_addr s + i)) as [b |] eqn:Hb; [| reflexivity].
    exfalso.
    assert (Hcov : covered (sec_addr s + i) (IntelHex.segments hexfile)).
    { apply segments_cover. rewrite Hb. eauto. }
    destruct Hcov as (segment & Hseg & Hcov). exact (Hfree segment Hseg Hcov).
Qed.

Lemma payload_covers_sector_witness :
  (In (small_sector, small_payload) (populate_sectors small_sectors small_image)
   /\ 0 < sec_len small_sector)
  /\ Z.of_nat (length small_payload) = sec_len small_sector.
Proof.
  assert (Hin : In (small_sector, small_payload)
                  (populate_sectors small_sectors small_image)).
  { vm_compute. left. reflexivity. }
  assert (Hlen : 0 < sec_len small_sector) by (vm_compute; reflexivity).
  split; [split; assumption |].
  exact (proj1 (payload_covers_sector small_sectors small_image small_sector small_payload
                  Hin Hlen)).
Defined.

(** ** Serial numbers from UUIDs *)

Lemma fromhex_raises_ValueError (n : nat) :
  forall (s : Py.str) (e : exn),
  (length s <= n)%nat -> fromhex s = Raise e -> e = ValueError.
Proof.
  induction n as [| n IH]; intros s e Hlen Hs.
  - destruct s; [discriminate | simpl in Hlen; lia].
  - destruct s as [| c rest]; [discriminate |]. simpl in Hlen, Hs.
    destruct (ascii_space c).
    + apply (IH rest); [lia | exact Hs].
    + destruct rest as [| d rest']; [congruence |].
      destruct (Py.digit_val c) as [hi |]; [| congruence].
      destruct (Py.digit_val d) as [lo |]; [| congruence].
      destruct ((hi <? 16) && (lo <? 16)); [| congruence].
      destruct (fromhex rest') as [bs | e'] eqn:E; [discriminate |].
      simpl in Hs. injection Hs as <-. apply (IH rest'); [simpl in Hlen; lia | exact E].
Qed.

Lemma struct_unpack_I_result (b : list byte) :
  (exists n, struct_unpack_I b = Ok (PTuple [n])) \/ struct_unpack_I b = Raise StructError.
Proof.
  destruct b as [| b0 [| b1 [| b2 [| b3 [| b4 rest]]]]]; simpl; eauto.
Qed.

(** On the tuples [struct.unpack] returns, [uuid0 + uuid2] is a tuple of
    two integers, which [struct.pack] refuses. *)
Lemma uuid_to_serial_of_tuples (items0 items2 : list Z) (uuid1 : pyval) :
  uuid_to_serial (PTuple items0) uuid1 (PTuple items2) = Raise StructError.
Proof. reflexivity. Qed.

(** C5.  The serial number is never computed from a UUID: for every
    string passed as [--uuid], [uuid_to_serial( *str_to_uuid(uuid))] ends
    in an exception.  [str_to_uuid] passes on the one-item tuples that
    [struct.unpack] returns, so [uuid0 + uuid2] concatenates two tuples
    and [struct.pack] raises; for [00000001-00000002-00000003] the
    exception is [struct.error]. *)
Theorem uuid_serial_always_raises :
  (forall uuid : Py.str,
     serial_number_of_uuid uuid = Raise ValueError
     \/ serial_number_of_uuid uuid = Raise StructError)
  /\ str_to_uuid (Py.lit "00000001-00000002-00000003")
     = Ok (PTuple [1], PTuple [2], PTuple [3])
  /\ serial_number_of_uuid (Py.lit "00000001-00000002-00000003") = Raise StructError.
Proof.
  split; [| split; vm_compute; reflexivity].
  intros uuid. unfold serial_number_of_uuid, str_to_uuid.
  destruct (fromhex (Py.remove_char "-"%char uuid)) as [bytes | e] eqn:Ehex; simpl.
  - destruct (struct_unpack_I_result (Py.slice 0 4 bytes)) as [[n0 ->] | ->];
      [| right; reflexivity].
    simpl.
    destruct (struct_unpack_I_result (Py.slice 4 8 bytes)) as [[n1 ->] | ->];
      [| right; reflexivity].
    simpl.
    destruct (struct_unpack_I_result (Py.slice 8 12 bytes)) as [[n2 ->] | ->];
      right; reflexivity.
  - left. f_equal. eapply fromhex_raises_ValueError; [reflexivity | exact Ehex].
Qed.

(** What [uuid_to_serial] returns when it is given the three words as
    integers, and where it stops being defined: the sum of the first and
    the third word must fit 32 bits. *)
Example uuid_to_serial_of_words :
  uuid_to_serial (PInt 945762893) (PInt 808915508) (PInt 1) = Ok (Py.lit "385F324E3037")
  /\ uuid_to_serial (PInt 4294967295) (PInt 0) (PInt 1) = Raise StructError.
Proof. split; vm_compute; reflexivity. Qed.

(** ** Runs on the simulated device *)

(** The scenario of section 8: the image is flashed and verified, and
    the device is left in the application. *)
Example small_image_is_flashed :
  let r := run Sim.step (main G0 small_image) (Sim.fresh [(small_name, 1)] false) in
  outcome_of r = Ok tt
  /\ Sim.load (Sim.mem (state_of r)) 272 16 = small_payload
  /\ Sim.st (state_of r) = DFU_MANIFEST
  /\ map event_kind (trace_of r)
     = [KAlternates;
        KSetAlternate; KGetState; KErase; KWaitWhileState;
        KSetAlternate; KGetState; KSetAddress; KWaitWhileState; KAbort; KWaitWhileState;
        KWrite; KWaitWhileState;
        KSetAlternate; KGetState; KSetAddress; KWaitWhileState; KAbort; KWaitWhileState;
        KRead; KAbort;
        KSetAddress; KWaitWhileState; KAbort; KWaitWhileState; KLeave; KWaitWhileState].
Proof. vm_compute. repeat split; reflexivity. Qed.

Lemma chunk_size_divides_sector_witness :
  (0 <= sec_len small_sector < 2 ^ 53
   /\ Z.of_nat (length small_payload) = sec_len small_sector)
  /\ sec_len small_sector mod Py.gcd (sec_len small_sector) MAX_TRANSFER_SIZE = 0
  /\ emits read_of [(0, 16)] Sim.step (read G0 0%nat small_sector) (Sim.fresh [] false).
Proof.
  assert (Hlen : 0 <= sec_len small_sector < 2 ^ 53) by (simpl; lia).
  assert (Hdata : Z.of_nat (length small_payload) = sec_len small_sector) by reflexivity.
  split; [split; assumption |].
  pose proof (chunk_size_divides_sector _ Sim.step (Sim.fresh [] false) G0 0%nat
                small_sector small_payload Hlen Hdata) as H.
  cbv zeta in H. destruct H as (_ & _ & Hmod & _ & _ & Hreads & _).
  split; [exact Hmod | exact Hreads].
Defined.

Lemma mismatch_locator_and_report_witness :
  get_first_mismatch_index (List.repeat xff 64) wide_payload = Ok (Some 37)
  /\ outcome_of (run Sim.step (verify_pass G0 ([] ++ (wide_sector, wide_payload) :: []))
                   (Sim.fresh [] false))
     = Raise (VerificationFailed 288
                (Py.slice 32 48 wide_payload) (Py.slice 32 48 (List.repeat xff 64))).
Proof.
  assert (Hmis : get_first_mismatch_index (List.repeat xff 64) wide_payload = Ok (Some 37))
    by (vm_compute; reflexivity).
  split; [exact Hmis |].
  destruct mismatch_locator_and_report as (_ & _ & _ & _ & _ & H).
  assert (Hread :
    run Sim.step (read G0 (dfudev G0) wide_sector) (Sim.fresh [] false)
    = (trace_of (run Sim.step (read G0 (dfudev G0) wide_sector) (Sim.fresh [] false)),
       Ok (List.repeat xff 64),
       state_of (run Sim.step (read G0 (dfudev G0) wide_sector) (Sim.fresh [] false))))
    by (vm_compute; reflexivity).
  rewrite (H _ Sim.step G0 [] [] wide_sector wide_payload _ 37 [] _
             (Sim.fresh [] false) (Sim.fresh [] false) _ eq_refl Hread Hmis).
  reflexivity.
Defined.

Lemma passes_are_sequential_witness :
  List.repeat x00 16 <> small_payload
  /\ outcome_of (run Sim.step (sequencer G0 small_touched) (Sim.fresh [] true))
     = verdict small_sector small_payload (List.repeat x00 16)
  /\ is_ok (verdict small_sector small_payload (List.repeat x00 16)) = false.
Proof.
  assert (Hne : List.repeat x00 16 <> small_payload) by discriminate.
  split; [exact Hne |].
  destruct (passes_are_sequential _ Sim.step G0 small_touched (Sim.fresh [] true))
    as (_ & _ & _ & H).
  assert (Htouched : small_touched = [] ++ (small_sector, small_payload) :: [])
    by (vm_compute; reflexivity).
  assert (Hpasses :
    run Sim.step (erase_pass G0 small_touched >> flash_pass G0 small_touched)
      (Sim.fresh [] true)
    = (trace_of (run Sim.step (erase_pass G0 small_touched >> flash_pass G0 small_touched)
                   (Sim.fresh [] true)),
       Ok tt,
       state_of (run Sim.step (erase_pass G0 small_touched >> flash_pass G0 small_touched)
                   (Sim.fresh [] true))))
    by (vm_compute; reflexivity).
  assert (Hread :
    run Sim.step (read G0 (dfudev G0) small_sector)
      (state_of (run Sim.step (erase_pass G0 small_touched >> flash_pass G0 small_touched)
                   (Sim.fresh [] true)))
    = (trace_of (run Sim.step (read G0 (dfudev G0) small_sector)
         (state_of (run Sim.step (erase_pass G0 small_touched >> flash_pass G0 small_touched)
                      (Sim.fresh [] true)))),
       Ok (List.repeat x00 16),
       state_of (run Sim.step (read G0 (dfudev G0) small_sector)
         (state_of (run Sim.step (erase_pass G0 small_touched >> flash_pass G0 small_touched)
                      (Sim.fresh [] true))))))
    by (vm_compute; reflexivity).
  destruct (H [] [] small_sector small_payload (List.repeat x00 16) _ [] _ _ _ _
              Htouched Hpasses eq_refl Hread Hne) as (Hrun & Hbad & _).
  rewrite Hrun. split; [reflexivity | exact Hbad].
Defined.

(** ** Strings: splitting, slicing, integer literals *)

Lemma split_without (sep : ascii) (s : Py.str) :
  ~ In sep s -> Py.split sep s = [s].
Proof.
  induction s as [| c rest IH]; intros Hsep; simpl; [reflexivity |].
  destruct (Ascii.eqb_spec c sep) as [-> | Hne]; [exfalso; apply Hsep; left; reflexivity |].
  rewrite IH; [reflexivity |]. intros Hin. apply Hsep. right. exact Hin.
Qed.

Lemma split_app (sep : ascii) (a b : Py.str) :
  ~ In sep a -> Py.split sep (a ++ sep :: b) = a :: Py.split sep b.
Proof.
  induction a as [| c rest IH]; intros Hsep; simpl.
  - rewrite Ascii.eqb_refl. reflexivity.
  - destruct (Ascii.eqb_spec c sep) as [-> | Hne]; [exfalso; apply Hsep; left; reflexivity |].
    rewrite IH; [reflexivity |]. intros Hin. apply Hsep. right. exact Hin.
Qed.

Lemma split_nonempty (sep : ascii) (s : Py.str) : Py.split sep s <> [].
Proof.
  destruct s as [| c rest]; simpl; [discriminate |].
  destruct (Ascii.eqb c sep); [discriminate |].
  destruct (Py.split sep rest); discriminate.
Qed.

Lemma slice_drop_last2 {A : Type} (body : list A) (u m : A) :
  Py.slice 0 (-2) (body ++ [u; m]) = body.
Proof.
  unfold Py.slice, Py.clamp. rewrite length_app. simpl length.
  replace (0 <? 0) with false by reflexivity.
  replace (-2 <? 0) with true by reflexivity.
  rewrite Z.min_l by lia. rewrite Z.max_r by lia. simpl drop.
  replace (Z.to_nat (-2 + Z.of_nat (length body + 2) - 0)) with (length body) by lia.
  apply take_app_length.
Qed.

Lemma slice_drop_last1 {A : Type} (body : list A) (u m : A) :
  Py.slice 0 (-1) (body ++ [u; m]) = body ++ [u].
Proof.
  unfold Py.slice, Py.clamp. rewrite length_app. simpl length.
  replace (0 <? 0) with false by reflexivity.
  replace (-1 <? 0) with true by reflexivity.
  rewrite Z.min_l by lia. rewrite Z.max_r by lia. simpl drop.
  replace (Z.to_nat (-1 + Z.of_nat (length body + 2) - 0)) with (length (body ++ [u])).
  - change (body ++ [u; m]) with (body ++ [u] ++ [m]). rewrite app_assoc.
    apply take_app_length.
  - rewrite length_app. simpl. lia.
Qed.

Lemma index_last2 {A : Type} (body : list A) (u m : A) :
  Py.index (-2) (body ++ [u; m]) = Ok u.
Proof.
  unfold Py.index. rewrite length_app. simpl length.
  replace (-2 <? 0) with true by reflexivity.
  destruct ((-2 + Z.of_nat (length body + 2) <? 0)
            || (Z.of_nat (length body + 2) <=? -2 + Z.of_nat (length body + 2))) eqn:E.
  - apply orb_true_iff in E as [E | E]; [apply Z.ltb_lt in E | apply Z.leb_le in E]; lia.
  - replace (Z.to_nat (-2 + Z.of_nat (length body + 2))) with (length body + 0)%nat by lia.
    rewrite nth_error_app2 by lia.
    replace (length body + 0 - length body)%nat with 0%nat by lia. reflexivity.
Qed.

Lemma index_last1 {A : Type} (body : list A) (u m : A) :
  Py.index (-1) (body ++ [u; m]) = Ok m.
Proof.
  unfold Py.index. rewrite length_app. simpl length.
  replace (-1 <? 0) with true by reflexivity.
  destruct ((-1 + Z.of_nat (length body + 2) <? 0)
            || (Z.of_nat (length body + 2) <=? -1 + Z.of_nat (length body + 2))) eqn:E.
  - apply orb_true_iff in E as [E | E]; [apply Z.ltb_lt in E | apply Z.leb_le in E]; lia.
  - replace (Z.to_nat (-1 + Z.of_nat (length body + 2))) with (length body + 1)%nat by lia.
    rewrite nth_error_app2 by lia.
    replace (length body + 1 - length body)%nat with 1%nat by lia. reflexivity.
Qed.

(** A sequence of two items or more ends in two items. *)
Lemma last_two {A : Type} (l : list A) :
  (2 <= length l)%nat -> exists body u m, l = body ++ [u; m].
Proof.
  intros Hlen.
  destruct (rev l) as [| m [| u rbody]] eqn:E.
  - apply (f_equal (@length A)) in E. rewrite length_rev in E. simpl in E. lia.
  - apply (f_equal (@length A)) in E. rewrite length_rev in E. simpl in E. lia.
  - exists (rev rbody), u, m. rewrite <- (rev_involutive l), E. simpl.
    rewrite <- app_assoc. reflexivity.
Qed.

Lemma index_ok_length {A : Type} (k : Z) (l : list A) (x : A) :
  k < 0 -> Py.index k l = Ok x -> - k <= Z.of_nat (length l).
Proof.
  intros Hk. unfold Py.index.
  destruct (k <? 0) eqn:Ek; [| apply Z.ltb_ge in Ek; lia].
  destruct ((k + Z.of_nat (length l) <? 0) || (Z.of_nat (length l) <=? k + Z.of_nat (length l)))
    eqn:E; [discriminate |].
  apply orb_false_iff in E as [E _]. apply Z.ltb_ge in E. lia.
Qed.

Lemma literal_char_not_sep (c : ascii) : literal_char c -> ~ is_sep c.
Proof.
  intros Hc [-> | [-> | ->]];
    destruct Hc as [H | [H | [H | [H | H]]]];
    vm_compute in H; try discriminate; apply H; reflexivity.
Qed.

Lemma lstrip_by_In (p : ascii -> bool) (s : Py.str) (c : ascii) :
  In c s -> p c = true \/ In c (Py.lstrip_by p s).
Proof.
  induction s as [| d rest IH]; intros Hin; [destruct Hin |]. simpl.
  destruct (p d) eqn:Ed.
  - destruct Hin as [<- | Hin]; [left; exact Ed | apply IH; exact Hin].
  - right. exact Hin.
Qed.

Lemma strip_by_In (p : ascii -> bool) (s : Py.str) (c : ascii) :
  In c s -> p c = true \/ In c (Py.strip_by p s).
Proof.
  intros Hin. unfold Py.strip_by.
  destruct (lstrip_by_In p s c Hin) as [Hp | Hin1]; [left; exact Hp |].
  apply in_rev in Hin1.
  destruct (lstrip_by_In p _ c Hin1) as [Hp | Hin2]; [left; exact Hp |].
  right. apply in_rev in Hin2. exact Hin2.
Qed.

Lemma take_sign_In (s : Py.str) (c : ascii) :
  In c s -> c = "-"%char \/ c = "+"%char \/ In c (snd (Py.take_sign s)).
Proof.
  destruct s as [| d rest]; intros Hin; [destruct Hin |]. simpl.
  destruct (Ascii.eqb_spec d "-"%char) as [-> | Hm].
  - destruct Hin as [<- | Hin]; auto.
  - destruct (Ascii.eqb_spec d "+"%char) as [-> | Hp].
    + destruct Hin as [<- | Hin]; auto.
    + auto.
Qed.

Lemma scan_digits_chars (base : Z) (s : Py.str) :
  forall acc prev z,
  Py.scan_digits base acc prev s = Some z ->
  forall c, In c s -> c = "_"%char \/ Py.digit_val c <> None.
Proof.
  induction s as [| d rest IH]; intros acc prev z Hscan c Hin; [destruct Hin |].
  simpl in Hscan.
  destruct (Ascii.eqb_spec d "_"%char) as [-> | Hne].
  - destruct prev; [| discriminate].
    destruct Hin as [<- | Hin]; [left; reflexivity | eapply IH; eassumption].
  - destruct (Py.digit_val d) as [v |] eqn:Ed; [| discriminate].
    destruct (v <? base); [| discriminate].
    destruct Hin as [<- | Hin]; [right; congruence | eapply IH; eassumption].
Qed.

Lemma scan_literal_chars (s : Py.str) (z : Z) :
  Py.scan_literal s = Some z ->
  forall c, In c s -> c = "_"%char \/ Py.digit_val c <> None.
Proof.
  intros Hscan c Hin. unfold Py.scan_literal in Hscan.
  destruct s as [| d0 [| p rest]];
    try (eapply scan_digits_chars; eassumption).
  destruct (Ascii.eqb_spec d0 "0"%char) as [-> | Hne];
    [| eapply scan_digits_chars; eassumption].
  assert (Hrest : forall base,
            Py.scan_digits base 0 false (Py.skip_underscore rest) = Some z ->
            Py.digit_val p <> None ->
            c = "_"%char \/ Py.digit_val c <> None).
  { intros base Hs Hp.
    destruct Hin as [<- | [<- | Hin]]; [right; discriminate | right; exact Hp |].
    destruct rest as [| r rest']; [destruct Hin |]. simpl in Hs.
    destruct (Ascii.eqb_spec r "_"%char) as [-> | Hr].
    - destruct Hin as [<- | Hin]; [left; reflexivity |].
      eapply scan_digits_chars; eassumption.
    - eapply scan_digits_chars; eassumption. }
  destruct (Ascii.eqb_spec p "x"%char) as [-> | Hx];
    [apply (Hrest 16 Hscan); discriminate |].
  destruct (Ascii.eqb_spec p "X"%char) as [-> | HX];
    [apply (Hrest 16 Hscan); discriminate |].
  destruct (Ascii.eqb_spec p "o"%char) as [-> | Ho];
    [apply (Hrest 8 Hscan); discriminate |].
  destruct (Ascii.eqb_spec p "O"%char) as [-> | HO];
    [apply (Hrest 8 Hscan); discriminate |].
  destruct (Ascii.eqb_spec p "b"%char) as [-> | Hb];
    [apply (Hrest 2 Hscan); discriminate |].
  destruct (Ascii.eqb_spec p "B"%char) as [-> | HB];
    [apply (Hrest 2 Hscan); discriminate |].
  cbn [orb] in Hscan.
  destruct (Py.scan_digits 10 0 false ("0"%char :: p :: rest)) as [v |] eqn:E;
    [| discriminate].
  eapply scan_digits_chars; eassumption.
Qed.

Lemma literal_chars (scan : Py.str -> option Z) (x : Py.str) (z : Z) :
  (forall s v, scan s = Some v -> forall c, In c s -> c = "_"%char \/ Py.digit_val c <> None) ->
  (let '(neg, s) := Py.take_sign (Py.strip_by Py.int_space x) in
   Py.apply_sign neg (scan s)) = Ok z ->
  forall c, In c x -> literal_char c.
Proof.
  intros Hscan Hx c Hin. unfold literal_char.
  destruct (strip_by_In Py.int_space x c Hin) as [Hsp | Hin1]; [auto |].
  destruct (take_sign_In _ c Hin1) as [-> | [-> | Hin2]]; [auto | auto |].
  destruct (Py.take_sign (Py.strip_by Py.int_space x)) as [neg s]. simpl in Hin2.
  destruct (scan s) as [v |] eqn:E; [| discriminate].
  destruct (Hscan s v E c Hin2) as [-> | Hd]; auto.
Qed.

(** A string that [int] accepts holds no separator. *)
Lemma int_no_sep (x : Py.str) (z : Z) :
  Py.int x = Ok z -> forall c, In c x -> ~ is_sep c.
Proof.
  intros Hx c Hin. apply literal_char_not_sep.
  apply (literal_chars (Py.scan_digits 10 0 false) x z); [| exact Hx | exact Hin].
  intros s v. apply scan_digits_chars.
Qed.

Lemma int0_no_sep (x : Py.str) (z : Z) :
  Py.int0 x = Ok z -> forall c, In c x -> ~ is_sep c.
Proof.
  intros Hx c Hin. apply literal_char_not_sep.
  apply (literal_chars Py.scan_literal x z); [| exact Hx | exact Hin].
  apply scan_literal_chars.
Qed.

(** ** Well-formed descriptors *)

Lemma getitem_unit (u : ascii) :
  u = " "%char \/ u = "K"%char \/ u = "M"%char ->
  getitem SIZE_MULTIPLIERS (Py.upper_char u) = Ok (unit_bytes u).
Proof. intros [-> | [-> | ->]]; vm_compute; reflexivity. Qed.

Lemma unit_not_sep (u : ascii) :
  u = " "%char \/ u = "K"%char \/ u = "M"%char -> ~ is_sep u.
Proof. intros [-> | [-> | ->]] [H | [H | H]]; discriminate. Qed.

Lemma parse_term_render (t : term) :
  well_formed_term t ->
  parse_term (render_term t) = Ok (repeat_count t, term_bytes t, mode_letter t).
Proof.
  intros (Hrepeat & Hsize & Hunit & _).
  unfold parse_term, render_term.
  change (repeat_text t ++ "*"%char :: size_text t ++ [unit_letter t; mode_letter t])
    with (repeat_text t ++ ("*"%char :: size_text t) ++ [unit_letter t; mode_letter t]).
  rewrite app_assoc, slice_drop_last2, index_last2, index_last1.
  rewrite split_app.
  2: { intros Hin. apply (int_no_sep _ _ Hrepeat _ Hin). right. right. reflexivity. }
  rewrite split_without.
  2: { intros Hin. apply (int_no_sep _ _ Hsize _ Hin). right. right. reflexivity. }
  simpl. rewrite Hrepeat, Hsize. simpl. rewrite (getitem_unit _ Hunit). reflexivity.
Qed.

Lemma yield_sectors_spec (n : nat) (label : Py.str) (alt baseaddr size : Z) (mode : ascii) :
  forall addr,
  yield_sectors n label alt baseaddr addr size mode
  = map (fun i =>
           {| sec_name := Py.strip_chars (Py.lit "@") (Py.strip label);
              sec_alt := alt; sec_baseaddr := baseaddr;
              sec_addr := addr + Z.of_nat i * size; sec_len := size; sec_mode := mode |})
        (seq 0 n).
Proof.
  induction n as [| n IH]; intros addr; [reflexivity |].
  cbn [yield_sectors seq map]. f_equal.
  - f_equal. lia.
  - rewrite IH, <- seq_shift, map_map. apply map_ext. intros i. f_equal. lia.
Qed.

Lemma layout_loop_render (label : Py.str) (alt baseaddr : Z) (terms : list term) :
  Forall well_formed_term terms ->
  forall addr,
  layout_loop label alt baseaddr addr (map render_term terms)
  = mk_generated
      (layout_sectors (Py.strip_chars (Py.lit "@") (Py.strip label)) alt baseaddr addr terms)
      None.
Proof.
  induction 1 as [| t rest Ht _ IH]; intros addr; [reflexivity |].
  cbn [map layout_loop layout_sectors]. rewrite (parse_term_render t Ht), IH.
  cbn [yielded raised]. rewrite yield_sectors_spec. reflexivity.
Qed.

Lemma render_term_no_sep (t : term) (c : ascii) :
  well_formed_term t -> In c (render_term t) -> c <> "/"%char /\ c <> ","%char.
Proof.
  intros (Hrepeat & Hsize & Hunit & Hm1 & Hm2) Hin. unfold render_term in Hin.
  assert (Hsep : ~ is_sep c \/ c = "*"%char \/ c = mode_letter t).
  { apply in_app_or in Hin as [Hin | [<- | Hin]].
    - left. exact (int_no_sep _ _ Hrepeat _ Hin).
    - right. left. reflexivity.
    - apply in_app_or in Hin as [Hin | [<- | [<- | []]]].
      + left. exact (int_no_sep _ _ Hsize _ Hin).
      + left. exact (unit_not_sep _ Hunit).
      + right. right. reflexivity. }
  destruct Hsep as [Hsep | [-> | ->]].
  - split; intros ->; apply Hsep; [left | right; left]; reflexivity.
  - split; discriminate.
  - split; assumption.
Qed.

Lemma join_In (sep : ascii) (l : list Py.str) (c : ascii) :
  In c (join sep l) -> c = sep \/ exists x, In x l /\ In c x.
Proof.
  induction l as [| x [| y rest] IH]; intros Hin.
  - destruct Hin.
  - right. exists x. split; [left; reflexivity | exact Hin].
  - change (join sep (x :: y :: rest)) with (x ++ sep :: join sep (y :: rest)) in Hin.
    apply in_app_or in Hin as [Hin | [<- | Hin]].
    + right. exists x. split; [left; reflexivity | exact Hin].
    + left. reflexivity.
    + destruct (IH Hin) as [-> | (z & Hz & Hc)]; [left; reflexivity |].
      right. exists z. split; [right; exact Hz | exact Hc].
Qed.

Lemma split_join (sep : ascii) (l : list Py.str) :
  l <> [] -> Forall (fun x => ~ In sep x) l -> Py.split sep (join sep l) = l.
Proof.
  intros Hne Hl. induction Hl as [| x [| y rest] Hx Hrest IH]; [contradiction | |].
  - apply split_without. exact Hx.
  - change (join sep (x :: y :: rest)) with (x ++ sep :: join sep (y :: rest)).
    rewrite split_app by exact Hx. f_equal. apply IH. discriminate.
Qed.

Lemma alternate_sectors_render (label base_text : Py.str) (baseaddr alt : Z)
    (terms : list term) :
  ~ In "/"%char label ->
  Py.int0 base_text = Ok baseaddr ->
  terms <> [] ->
  Forall well_formed_term terms ->
  alternate_sectors (render_descriptor label base_text terms) alt
  = mk_generated
      (layout_sectors (Py.strip_chars (Py.lit "@") (Py.strip label)) alt baseaddr baseaddr
         terms)
      None.
Proof.
  intros Hlabel Hbase Hne Hterms. unfold alternate_sectors, render_descriptor.
  assert (Hlayout : forall sep, sep = "/"%char \/ sep = ","%char ->
            Forall (fun x => ~ In sep x) (map render_term terms)).
  { intros sep Hsep. apply List.Forall_forall. intros x Hx Hin.
    apply in_map_iff in Hx as (t & <- & Ht).
    rewrite List.Forall_forall in Hterms.
    destruct (render_term_no_sep t sep (Hterms t Ht) Hin) as [H1 H2].
    destruct Hsep; contradiction. }
  rewrite split_app by exact Hlabel.
  rewrite split_app.
  2: { intros Hin. apply (int0_no_sep _ _ Hbase _ Hin). left. reflexivity. }
  rewrite split_without.
  2: { intros Hin. apply join_In in Hin as [Hin | (x & Hx & Hin)]; [discriminate |].
       specialize (Hlayout "/"%char (or_introl eq_refl)).
       rewrite List.Forall_forall in Hlayout. exact (Hlayout x Hx Hin). }
  rewrite Hbase, split_join.
  - apply layout_loop_render. exact Hterms.
  - destruct terms; [contradiction | discriminate].
  - apply Hlayout. right. reflexivity.
Qed.

Lemma contiguous_block (name : Py.str) (alt baseaddr cursor size : Z) (mode : ascii)
    (rest : list sector) (n : nat) :
  forall k,
  contiguous_from (cursor + Z.of_nat (k + n) * size) rest ->
  contiguous_from (cursor + Z.of_nat k * size)
    (map (fun i =>
            {| sec_name := name; sec_alt := alt; sec_baseaddr := baseaddr;
               sec_addr := cursor + Z.of_nat i * size; sec_len := size; sec_mode := mode |})
         (seq k n) ++ rest).
Proof.
  induction n as [| n IH]; intros k Hrest; simpl.
  - rewrite Nat.add_0_r in Hrest. exact Hrest.
  - split; [reflexivity |].
    replace (cursor + Z.of_nat k * size + size) with (cursor + Z.of_nat (S k) * size) by lia.
    apply IH. replace (S k + n)%nat with (k + S n)%nat by lia. exact Hrest.
Qed.

Lemma layout_sectors_contiguous (name : Py.str) (alt baseaddr : Z) (terms : list term) :
  forall cursor, contiguous_from cursor (layout_sectors name alt baseaddr cursor terms).
Proof.
  induction terms as [| t rest IH]; intros cursor; simpl; [exact I |].
  unfold term_sectors.
  pose proof (contiguous_block name alt baseaddr cursor (term_bytes t) (mode_letter t)
                (layout_sectors name alt baseaddr
                   (cursor + Z.of_nat (Z.to_nat (repeat_count t)) * term_bytes t) rest)
                (Z.to_nat (repeat_count t)) 0) as Hblock.
  simpl in Hblock. rewrite Z.add_0_r in Hblock. apply Hblock. apply IH.
Qed.

(** C1.  For a descriptor ["@Label/base/R1*S1u1m1,R2*S2u2m2,..."] whose
    label holds no slash, whose base address and repeat and size fields
    are integer literals, whose unit letters are space, K or M and whose
    mode letters are not separators, the sector map builder yields, for
    each term in order, [R] consecutive sectors of [S*unit] bytes; the
    first sector starts at the base address and every other sector where
    the one before it ends. *)
Theorem sector_map_of_well_formed_descriptor :
  forall (label base_text : Py.str) (baseaddr alt : Z) (terms : list term),
  ~ In "/"%char label ->
  Py.int0 base_text = Ok baseaddr ->
  terms <> [] ->
  Forall well_formed_term terms ->
  let sectors :=
    layout_sectors (Py.strip_chars (Py.lit "@") (Py.strip label)) alt baseaddr baseaddr
      terms in
  get_device_sectors [(render_descriptor label base_text terms, alt)]
  = mk_generated sectors None
  /\ list_of (get_device_sectors [(render_descriptor label base_text terms, alt)])
     = Ok sectors
  /\ contiguous_from baseaddr sectors.
Proof.
  intros label base_text baseaddr alt terms Hlabel Hbase Hne Hterms sectors.
  assert (Hgen : get_device_sectors [(render_descriptor label base_text terms, alt)]
                 = mk_generated sectors None).
  { cbn [get_device_sectors].
    rewrite (alternate_sectors_render label base_text baseaddr alt terms Hlabel Hbase Hne Hterms).
    cbn [raised yielded]. rewrite app_nil_r. reflexivity. }
  split; [exact Hgen |]. split.
  - rewrite Hgen. reflexivity.
  - apply layout_sectors_contiguous.
Qed.

Lemma sector_map_of_well_formed_descriptor_witness :
  (~ In "/"%char (Py.lit "@Flash  ")
   /\ Py.int0 (Py.lit "0x08000000") = Ok 134217728
   /\ example_terms <> []
   /\ Forall well_formed_term example_terms)
  /\ list_of (get_device_sectors [(example_name, 0)])
     = Ok (layout_sectors (Py.lit "Flash") 0 134217728 134217728 example_terms)
  /\ contiguous_from 134217728
       (layout_sectors (Py.lit "Flash") 0 134217728 134217728 example_terms).
Proof.
  assert (Hlabel : ~ In "/"%char (Py.lit "@Flash  ")).
  { intros H. simpl in H. repeat (destruct H as [H | H]; [discriminate |]). exact H. }
  assert (Hbase : Py.int0 (Py.lit "0x08000000") = Ok 134217728) by (vm_compute; reflexivity).
  assert (Hne : example_terms <> []) by discriminate.
  assert (Hterms : Forall well_formed_term example_terms).
  { repeat constructor; try (vm_compute; reflexivity); try (right; left; reflexivity);
      discriminate. }
  split; [repeat split; assumption |].
  exact (proj2 (sector_map_of_well_formed_descriptor (Py.lit "@Flash  ") (Py.lit "0x08000000")
                  134217728 0 example_terms Hlabel Hbase Hne Hterms)).
Defined.

(** The sector map of the example: twelve sectors, four of 16 KiB from
    [0x08000000], one of 64 KiB at [0x08010000] and seven of 128 KiB from
    [0x08020000]. *)
Example example_sector_map :
  raised (get_device_sectors [(example_name, 0)]) = None
  /\ length example_sectors = 12%nat
  /\ map (fun s => (sec_addr s, sec_len s)) example_sectors
     = [ (134217728, 16384); (134234112, 16384); (134250496, 16384); (134266880, 16384);
         (134283264, 65536);
         (134348800, 131072); (134479872, 131072); (134610944, 131072);
         (134742016, 131072); (134873088, 131072); (135004160, 131072);
         (135135232, 131072) ]
  /\ example_sectors = layout_sectors (Py.lit "Flash") 0 134217728 134217728 example_terms.
Proof. repeat split; vm_compute; reflexivity. Qed.

(** ** Malformed descriptors *)

Lemma SIZE_MULTIPLIERS_keys (c : ascii) (v : Z) :
  SIZE_MULTIPLIERS !! c = Some v -> c = " "%char \/ c = "K"%char \/ c = "M"%char.
Proof.
  unfold SIZE_MULTIPLIERS. intros Hc.
  destruct (decide (c = " "%char)) as [-> | H1]; [auto |].
  destruct (decide (c = "K"%char)) as [-> | H2]; [auto |].
  destruct (decide (c = "M"%char)) as [-> | H3]; [auto |].
  rewrite !lookup_insert_ne in Hc by congruence.
  rewrite lookup_singleton_ne in Hc by congruence. discriminate.
Qed.

Lemma parse_term_ok (term : Py.str) (x : Z * Z * ascii) :
  parse_term term = Ok x -> ~ malformed_term term.
Proof.
  unfold parse_term, unpack_repeat_size. intros Hparse.
  destruct (Py.split "*"%char (Py.slice 0 (-2) term)) as [| a [| b [| c rest]]] eqn:Esplit;
    try discriminate.
  destruct (Py.int a) as [ra |] eqn:Ea; [| discriminate].
  destruct (Py.int b) as [rb |] eqn:Eb; [| discriminate].
  simpl in Hparse.
  destruct (Py.index (-2) term) as [u |] eqn:Eu; [| discriminate].
  simpl in Hparse. unfold getitem in Hparse.
  destruct (SIZE_MULTIPLIERS !! Py.upper_char u) as [mult |] eqn:Emult; [| discriminate].
  apply SIZE_MULTIPLIERS_keys in Emult.
  intros [Hlen | [(field & Hin & Hbad) | (u' & Hu' & H1 & H2 & H3)]].
  - apply Hlen. rewrite Esplit. reflexivity.
  - rewrite Esplit in Hin.
    destruct Hin as [<- | [<- | []]]; [rewrite Ea in Hbad | rewrite Eb in Hbad]; discriminate.
  - rewrite Eu in Hu'. injection Hu' as <-. destruct Emult as [E | [E | E]]; contradiction.
Qed.

Lemma layout_loop_ok (label : Py.str) (alt baseaddr : Z) (terms : list Py.str) :
  forall addr,
  raised (layout_loop label alt baseaddr addr terms) = None ->
  forall term, In term terms -> ~ malformed_term term.
Proof.
  induction terms as [| t rest IH]; intros addr Hok term Hin; [destruct Hin |].
  simpl in Hok.
  destruct (parse_term t) as [[[repeat size] mode] | e] eqn:Et; [| discriminate].
  simpl in Hok. destruct Hin as [<- | Hin].
  - eapply parse_term_ok. exact Et.
  - eapply IH; eassumption.
Qed.

Lemma alternate_sectors_ok (name : Py.str) (alt : Z) :
  raised (alternate_sectors name alt) = None -> ~ malformed_descriptor name.
Proof.
  unfold alternate_sectors. intros Hok.
  destruct (Py.split "/"%char name) as [| label [| base [| layout [| x rest]]]] eqn:Esplit;
    try discriminate.
  destruct (Py.int0 base) as [baseaddr |] eqn:Ebase; [| discriminate].
  intros [Hlen | (label' & base' & layout' & Hs & Hbad)].
  - apply Hlen. rewrite Esplit. reflexivity.
  - rewrite Esplit in Hs. injection Hs as <- <- <-.
    destruct Hbad as [Hbase | (term & Hin & Hbad)].
    + rewrite Ebase in Hbase. discriminate.
    + exact (layout_loop_ok _ _ _ _ _ Hok term Hin Hbad).
Qed.

Lemma get_device_sectors_ok (alternates : list (Py.str * Z)) :
  raised (get_device_sectors alternates) = None ->
  forall name alt, In (name, alt) alternates -> ~ malformed_descriptor name.
Proof.
  induction alternates as [| [name' alt'] rest IH]; intros Hok name alt Hin; [destruct Hin |].
  simpl in Hok.
  destruct (raised (alternate_sectors name' alt')) as [e |] eqn:E; [congruence |].
  simpl in Hok. destruct Hin as [[= <- <-] | Hin].
  - apply alternate_sectors_ok with (alt := alt'). exact E.
  - eapply IH; eassumption.
Qed.

(** The mode letter plays no part in what is accepted: a term that is
    accepted is accepted with any other last character. *)
Lemma parse_term_any_mode (term : Py.str) (repeat size : Z) (mode c : ascii) :
  parse_term term = Ok (repeat, size, mode) ->
  parse_term (Py.slice 0 (-1) term ++ [c]) = Ok (repeat, size, c).
Proof.
  intros Hparse.
  assert (Hlen : (2 <= length term)%nat).
  { unfold parse_term in Hparse.
    destruct (unpack_repeat_size _) as [rs |]; [| discriminate]. simpl in Hparse.
    destruct (Py.index (-2) term) as [u |] eqn:Eu; [| discriminate].
    pose proof (index_ok_length (-2) term u ltac:(lia) Eu). lia. }
  destruct (last_two term Hlen) as (body & u & m & ->).
  rewrite slice_drop_last1, <- app_assoc. cbn [app].
  unfold parse_term in *.
  rewrite slice_drop_last2, index_last2, index_last1 in *.
  destruct (unpack_repeat_size (Py.split "*"%char body)) as [rs |]; [| discriminate].
  simpl in *.
  destruct (getitem SIZE_MULTIPLIERS (Py.upper_char u)) as [mult |]; [| discriminate].
  simpl in *. congruence.
Qed.

(** C6, as the code has it.  A descriptor with a wrong number of fields
    between slashes, with a base address, a repeat or a size that is not
    an integer literal, with a term that is not two fields around one
    star followed by two characters, or with a unit letter that is none
    of space, K and M in either case makes the sector map builder raise,
    wherever it stands among the alternates: [list(...)] returns no
    sector map.  The mode letter is not checked: a term that is accepted
    is accepted with any character in its last place; and the unit
    letters k and m are read as K and M. *)
Theorem malformed_descriptor_raises :
  (forall (alternates : list (Py.str * Z)) (name : Py.str) (alt : Z),
     In (name, alt) alternates ->
     malformed_descriptor name ->
     exists e,
       raised (get_device_sectors alternates) = Some e
       /\ list_of (get_device_sectors alternates) = Raise e)
  /\ (forall (term : Py.str) (repeat size : Z) (mode c : ascii),
        parse_term term = Ok (repeat, size, mode) ->
        parse_term (Py.slice 0 (-1) term ++ [c]) = Ok (repeat, size, c))
  /\ getitem SIZE_MULTIPLIERS (Py.upper_char "k"%char) = Ok 1024
  /\ getitem SIZE_MULTIPLIERS (Py.upper_char "m"%char) = Ok 1048576.
Proof.
  split; [| split; [exact parse_term_any_mode | split; vm_compute; reflexivity]].
  intros alternates name alt Hin Hbad.
  destruct (raised (get_device_sectors alternates)) as [e |] eqn:E.
  - exists e. split; [reflexivity |]. unfold list_of. rewrite E. reflexivity.
  - exfalso. exact (get_device_sectors_ok alternates E name alt Hin Hbad).
Qed.

Lemma malformed_descriptor_raises_witness :
  (In (Py.lit "@Bad/0x0/01*016Xg", 1)
      [(example_name, 0); (Py.lit "@Bad/0x0/01*016Xg", 1)]
   /\ malformed_descriptor (Py.lit "@Bad/0x0/01*016Xg"))
  /\ exists e,
       raised (get_device_sectors [(example_name, 0); (Py.lit "@Bad/0x0/01*016Xg", 1)])
       = Some e
       /\ list_of (get_device_sectors [(example_name, 0); (Py.lit "@Bad/0x0/01*016Xg", 1)])
          = Raise e.
Proof.
  assert (Hin : In (Py.lit "@Bad/0x0/01*016Xg", 1)
                  [(example_name, 0); (Py.lit "@Bad/0x0/01*016Xg", 1)])
    by (right; left; reflexivity).
  assert (Hbad : malformed_descriptor (Py.lit "@Bad/0x0/01*016Xg")).
  { right. exists (Py.lit "@Bad"), (Py.lit "0x0"), (Py.lit "01*016Xg").
    split; [vm_compute; reflexivity |]. right.
    exists (Py.lit "01*016Xg"). split; [left; reflexivity |].
    right. right. exists "X"%char. split; [vm_compute; reflexivity |].
    repeat split; intros H; vm_compute in H; discriminate. }
  split; [split; assumption |].
  exact (proj1 malformed_descriptor_raises _ _ _ Hin Hbad).
Defined.

(** C6, as the claim states it, fails: a mode letter that stands for no
    access mode, and a lower-case unit letter, are accepted, and a sector
    map is returned. *)
Lemma unknown_mode_letter_accepted :
  list_of (get_device_sectors [(Py.lit "@Flash/0x08000000/01*016K?", 0)])
  = Ok [ {| sec_name := Py.lit "Flash"; sec_alt := 0; sec_baseaddr := 134217728;
            sec_addr := 134217728; sec_len := 16384; sec_mode := "?"%char |} ]
  /\ list_of (get_device_sectors [(Py.lit "@Flash/0x08000000/01*016kg", 0)])
     = Ok [ {| sec_name := Py.lit "Flash"; sec_alt := 0; sec_baseaddr := 134217728;
               sec_addr := 134217728; sec_len := 16384; sec_mode := "g"%char |} ].
Proof. split; vm_compute; reflexivity. Qed.

(** ** Two devices *)

(** With [dfudev] bound to the device 0, setting the address "of the
    device 1" moves the pointer of the device 0 and leaves the device 1 as
    it was. *)
Example set_address_safe_on_other_handle :
  let w := (Sim.fresh [] false, Sim.fresh [] false) in
  let r := run two_devices (set_address_safe G0 1%nat 4096) w in
  outcome_of r = Ok tt
  /\ Sim.ptr (fst (state_of r)) = 4096
  /\ snd (state_of r) = snd w
  /\ map event_handle (trace_of r) = [0; 0; 0; 0]%nat.
Proof. vm_compute. repeat split; reflexivity. Qed.


(** * Further properties of [dfu.py] *)

(** ** What the device operations raise and observe *)

Ltac device_cases D :=
  repeat first
    [ match goal with
      | |- context [D _ ?d ?m ?w] => destruct (D _ d m w) as [[? | ?] ?]; simpl
      end
    | match goal with
      | |- context [DfuState_eqb ?a ?b] =>
          let E := fresh "E" in destruct (DfuState_eqb a b) eqn:E; simpl
      end ].

Ltac state_facts :=
  repeat match goal with
    | H : DfuState_eqb _ _ = true |- _ => apply DfuState_eqb_eq in H
    | H : DfuState_eqb _ _ = false |- _ => apply DfuState_eqb_neq in H
    end.

Lemma set_alternate_safe_run {W : Type} (D : device W) dev alt w :
  let r := run D (set_alternate_safe dev alt) w in
  device_exns (trace_of r) = exns_of (outcome_of r)
  /\ (In KClearStatus (map event_kind (trace_of r))
      <-> omap reported_state (trace_of r) = [DFU_ERROR])
  /\ omap timed_poll_of (trace_of r) = [].
Proof.
  unfold set_alternate_safe. simpl. device_cases D; state_facts;
    unfold device_exns, reported_state; simpl;
    repeat split; try reflexivity; try discriminate; subst; auto;
    try (intros H; decompose [or] H; (discriminate || contradiction));
    try (intros [= H]; contradiction).
Qed.

(** X1.  [set_alternate_safe] raises nothing of its own: it ends with an
    exception exactly when a call on the device raised one, with that
    exception, whatever state the device is left in.  It sends
    [clear_status] exactly when [get_state] answered [DFU_ERROR], and all
    its calls are on the handle it is given. *)
Theorem set_alternate_safe_raises_nothing :
  forall (W : Type) (D : device W) (dev : handle) (alt : Z) (w : W),
  device_exns (trace_of (run D (set_alternate_safe dev alt) w))
  = exns_of (outcome_of (run D (set_alternate_safe dev alt) w))
  /\ (In KClearStatus (map event_kind (trace_of (run D (set_alternate_safe dev alt) w)))
      <-> omap reported_state (trace_of (run D (set_alternate_safe dev alt) w))
          = [DFU_ERROR])
  /\ Forall (fun ev => event_handle ev = dev)
       (trace_of (run D (set_alternate_safe dev alt) w)).
Proof.
  intros W D dev alt w.
  destruct (set_alternate_safe_run D dev alt w) as (Hexn & Hclear & _).
  split; [exact Hexn |]. split; [exact Hclear |].
  pose proof (only_calls_run _ D _ (set_alternate_safe_calls dev alt) w) as Hcalls.
  revert Hcalls. apply List.Forall_impl. intros ev [Hdev _]. exact Hdev.
Qed.

Lemma erase_calls (dev : handle) (sector : sector) :
  only_calls (fun d k => d = dev /\ k <> KSetAddress) (erase dev sector).
Proof.
  unfold erase. apply only_calls_bind.
  - eapply only_calls_weaken; [| apply set_alternate_safe_calls].
    intros d k [-> Hk]. split; [reflexivity |]. intros ->.
    simpl in Hk. decompose [or] Hk; (discriminate || contradiction).
  - intros _. apply only_calls_bind; [apply only_calls_call; split; [reflexivity | discriminate] |].
    intros _. apply only_calls_bind; [apply only_calls_call; split; [reflexivity | discriminate] |].
    intros st. destruct (negb _); constructor.
Qed.

(** X2.  [erase] returns normally exactly when its poll with the time
    budget [len / 32] observed [DFU_DOWNLOAD_IDLE]; when that poll
    observed another state it ends in [TypeError], not in an error that
    carries the status: the message is built with ["...%r" % status] on
    the status tuple, which fails.  It names the sector by the address of
    the erase request, at most once, and never sets the address pointer;
    all its calls are on the handle it is given. *)
Theorem erase_returns_iff_download_idle :
  forall (W : Type) (D : device W) (dev : handle) (sector : sector) (w : W),
  (outcome_of (run D (erase dev sector) w) = Ok tt
   <-> exists st,
         omap timed_poll_of (trace_of (run D (erase dev sector) w))
         = [((sec_len sector, 32), st)]
         /\ status_1 st = DFU_DOWNLOAD_IDLE)
  /\ (forall st,
        omap timed_poll_of (trace_of (run D (erase dev sector) w))
        = [((sec_len sector, 32), st)] ->
        status_1 st <> DFU_DOWNLOAD_IDLE ->
        outcome_of (run D (erase dev sector) w) = Raise TypeError)
  /\ (omap erase_of (trace_of (run D (erase dev sector) w)) = []
      \/ omap erase_of (trace_of (run D (erase dev sector) w)) = [sec_addr sector])
  /\ Forall (fun ev => event_handle ev = dev /\ event_kind ev <> KSetAddress)
       (trace_of (run D (erase dev sector) w)).
Proof.
  intros W D dev sector w.
  split; [| split; [| split]].
  4: { exact (only_calls_run _ D _ (erase_calls dev sector) w). }
  all: destruct (set_alternate_safe_run D dev (sec_alt sector) w) as (_ & _ & Hpoll);
    pose proof (set_alternate_safe_no_erase D dev (sec_alt sector) w) as Herase;
    unfold erase;
    destruct (run D (set_alternate_safe dev (sec_alt sector)) w) as [[t [[] | e]] w1] eqn:E;
    cbn [trace_of fst] in Hpoll, Herase;
    [ rewrite (run_bind_ok _ _ _ _ _ _ _ E) | rewrite (run_bind_raise _ _ _ _ _ _ _ E) ];
    cbn [trace_of outcome_of fst snd]; rewrite ?omap_app, ?Hpoll, ?Herase; simpl;
    device_cases D; state_facts.
  all: cbn [outcome_of fst snd].
  all: solve
    [ left; reflexivity
    | right; reflexivity
    | split; [discriminate | intros (st & Hst & _); discriminate Hst]
    | intros st Hst; discriminate Hst
    | split; [intros _; eexists; split; [reflexivity | assumption] | reflexivity]
    | split; [discriminate | intros (st & Hst & Hidle); injection Hst as <-; contradiction]
    | intros st Hst Hidle; injection Hst as <-; (reflexivity || contradiction) ].
Qed.

(** X3.  [jump_to_application] returns normally exactly when its three
    polls observe [DFU_DOWNLOAD_IDLE], [DFU_IDLE] and [DFU_MANIFEST], in
    that order.  The leave request is sent only after the address was set,
    that is after the first two polls observed [DFU_DOWNLOAD_IDLE] and
    [DFU_IDLE]; a last poll that observes another state than
    [DFU_MANIFEST] ends in the error that carries that state. *)
Theorem jump_to_application_protocol :
  forall (W : Type) (D : device W) (G : globals) (address : Z) (w : W),
  (outcome_of (run D (jump_to_application G (dfudev G) address) w) = Ok tt
   <-> observed_states (trace_of (run D (jump_to_application G (dfudev G) address) w))
       = [DFU_DOWNLOAD_IDLE; DFU_IDLE; DFU_MANIFEST])
  /\ (In KLeave (map event_kind
                   (trace_of (run D (jump_to_application G (dfudev G) address) w))) ->
      firstn 2 (observed_states
                  (trace_of (run D (jump_to_application G (dfudev G) address) w)))
      = [DFU_DOWNLOAD_IDLE; DFU_IDLE])
  /\ (forall s,
        observed_states (trace_of (run D (jump_to_application G (dfudev G) address) w))
        = [DFU_DOWNLOAD_IDLE; DFU_IDLE; s] ->
        s <> DFU_MANIFEST ->
        outcome_of (run D (jump_to_application G (dfudev G) address) w)
        = Raise (DeviceStateError s)).
Proof.
  intros W D G address w. unfold jump_to_application, set_address_safe. simpl.
  split; [| split].
  all: device_cases D; state_facts; unfold observed_states; simpl.
  all: try solve
    [ split; [discriminate | intros Hs; injection Hs; intros; congruence]
    | split; [discriminate | intros Hs; discriminate Hs]
    | split; [reflexivity | intros _; congruence]
    | split; [intros _; congruence | reflexivity]
    | intros H; decompose [or] H; (discriminate || contradiction)
    | intros _; congruence
    | intros s Hs; discriminate Hs
    | intros s Hs Hm; injection Hs; intros; subst; (reflexivity || contradiction || congruence) ].
Qed.

(** ** Which handle each call goes to *)

Lemma routed_alternate G dev alt : only_calls (routed G dev) (set_alternate_safe dev alt).
Proof.
  eapply only_calls_weaken; [| apply set_alternate_safe_calls].
  intros d k [-> Hk]. repeat split; auto.
  intros ->. simpl in Hk. decompose [or] Hk; (discriminate || contradiction).
Qed.

Lemma routed_address G dev dfudef addr :
  only_calls (routed G dev) (set_address_safe G dfudef addr).
Proof.
  eapply only_calls_weaken; [| apply set_address_safe_calls].
  intros d k [-> Hk]. repeat split; auto.
  intros Hin. exfalso. simpl in Hk, Hin.
  decompose [or] Hk; decompose [or] Hin; subst; (discriminate || contradiction).
Qed.

Lemma routed_own G dev {R : Type} (m : DfuDevice.method R) :
  kind_of m <> KSetAddress -> only_calls (routed G dev) (call dev m).
Proof.
  intros Hk. apply only_calls_call. repeat split; auto. intros H. contradiction.
Qed.

Lemma routed_flash G dev sector data : only_calls (routed G dev) (flash G dev sector data).
Proof.
  unfold flash.
  apply only_calls_bind; [apply routed_alternate |]. intros _.
  apply only_calls_bind; [apply routed_address |]. intros _.
  apply only_calls_bind; [apply only_calls_lift |]. intros blocks.
  apply only_calls_for_each. intros [blocknum block] _. unfold write_block.
  apply only_calls_bind; [apply routed_own; discriminate |]. intros _.
  apply only_calls_bind; [apply routed_own; discriminate |]. intros st.
  destruct (negb _); constructor.
Qed.

Lemma routed_read_blocks G dev size blocknums :
  forall data, only_calls (routed G dev) (read_blocks dev size blocknums data).
Proof.
  induction blocknums as [| blocknum blocknums IH]; intros data; simpl.
  - constructor.
  - constructor; [| intros block; apply IH].
    repeat split; auto. discriminate.
Qed.

Lemma routed_read G dev sector : only_calls (routed G dev) (read G dev sector).
Proof.
  unfold read.
  apply only_calls_bind; [apply routed_alternate |]. intros _.
  apply only_calls_bind; [apply routed_address |]. intros _.
  apply only_calls_bind; [apply only_calls_lift |]. intros count.
  apply only_calls_bind; [apply routed_read_blocks |]. intros data.
  apply only_calls_bind; [apply routed_own; discriminate |]. intros _. constructor.
Qed.

Lemma routed_jump G dev address :
  only_calls (routed G dev) (jump_to_application G dev address).
Proof.
  unfold jump_to_application.
  apply only_calls_bind; [apply routed_address |]. intros _.
  apply only_calls_bind; [apply routed_own; discriminate |]. intros _.
  apply only_calls_bind; [apply routed_own; discriminate |]. intros st.
  destruct (negb _); constructor.
Qed.

(** X4.  [flash], [read] and [jump_to_application] split their calls
    between two handles: the alternate setting, the block writes and
    reads and the leave request go to the handle they are passed, the
    set-address request always goes to the module's global [dfudev].
    Passed another handle than the global one, they never set the address
    pointer of the device they transfer blocks to. *)
Theorem block_transfers_and_address_handles :
  forall (W : Type) (D : device W) (G : globals) (dev : handle) (sector : sector)
         (data : list byte) (address : Z) (w : W),
  Forall (event_sat (routed G dev)) (trace_of (run D (flash G dev sector data) w))
  /\ Forall (event_sat (routed G dev)) (trace_of (run D (read G dev sector) w))
  /\ Forall (event_sat (routed G dev))
       (trace_of (run D (jump_to_application G dev address) w))
  /\ (dev <> dfudev G ->
      Forall (fun ev => event_handle ev = dev -> event_kind ev <> KSetAddress)
        (trace_of (run D (flash G dev sector data) w))
      /\ Forall (fun ev => event_handle ev = dev -> event_kind ev <> KSetAddress)
           (trace_of (run D (read G dev sector) w))).
Proof.
  intros W D G dev sector data address w.
  pose proof (only_calls_run _ D _ (routed_flash G dev sector data) w) as Hflash.
  pose proof (only_calls_run _ D _ (routed_read G dev sector) w) as Hread.
  pose proof (only_calls_run _ D _ (routed_jump G dev address) w) as Hjump.
  repeat split; try assumption.
  - revert Hflash. apply List.Forall_impl.
    intros ev (_ & Haddr & _) Hdev Hk. apply H. rewrite <- Hdev. exact (Haddr Hk).
  - revert Hread. apply List.Forall_impl.
    intros ev (_ & Haddr & _) Hdev Hk. apply H. rewrite <- Hdev. exact (Haddr Hk).
Qed.

Lemma block_transfers_and_address_handles_witness :
  1%nat <> dfudev G0
  /\ Forall (fun ev => event_handle ev = 1%nat -> event_kind ev <> KSetAddress)
       (trace_of (run two_devices (flash G0 1%nat small_sector small_payload)
                    (Sim.fresh [] false, Sim.fresh [] false))).
Proof.
  assert (Hne : 1%nat <> dfudev G0) by discriminate.
  split; [exact Hne |].
  exact (proj1 (proj2 (proj2 (proj2
           (block_transfers_and_address_handles _ two_devices G0 1%nat small_sector
              small_payload 0 (Sim.fresh [] false, Sim.fresh [] false)))) Hne)).
Defined.

(** On two simulated devices: [flash] to the device 1 writes the payload
    into the device 1 at its old pointer, and moves the pointer of the
    device 0 instead. *)
Example flash_on_other_handle :
  let r := run two_devices (flash G0 1%nat small_sector small_payload)
             (Sim.fresh [] false, Sim.fresh [] false) in
  outcome_of r = Ok tt
  /\ Sim.ptr (fst (state_of r)) = 272
  /\ Sim.ptr (snd (state_of r)) = 0
  /\ Sim.load (Sim.mem (snd (state_of r))) 0 16 = small_payload
  /\ Sim.mem (fst (state_of r)) = ∅.
Proof. vm_compute. repeat split; reflexivity. Qed.

(** ** Payloads of any length *)

Lemma slice_take_drop {A : Type} (a b : Z) (l : list A) :
  0 <= a <= b ->
  Py.slice a b l = take (Z.to_nat (b - a)) (drop (Z.to_nat a) l).
Proof.
  intros Hab. unfold Py.slice, Py.clamp.
  destruct (a <? 0) eqn:Ea; [apply Z.ltb_lt in Ea; lia |].
  destruct (b <? 0) eqn:Eb; [apply Z.ltb_lt in Eb; lia |].
  destruct (Z.le_gt_cases a (Z.of_nat (length l))) as [Ha | Ha].
  - rewrite (Z.min_l a) by lia.
    destruct (Z.le_gt_cases b (Z.of_nat (length l))) as [Hb | Hb].
    + rewrite Z.min_l by lia. reflexivity.
    + rewrite Z.min_r by lia.
      rewrite !take_ge; [reflexivity | |]; rewrite length_drop; lia.
  - rewrite !Z.min_r by lia.
    rewrite !drop_ge by lia. rewrite !take_nil. reflexivity.
Qed.

Lemma map_snd_combine_le {A B : Type} (k : list B) :
  forall l : list A, (length k <= length l)%nat -> map snd (combine l k) = k.
Proof.
  induction k as [| y k IH]; intros [| x l] Hlen; simpl in *;
    [reflexivity | reflexivity | lia |].
  f_equal. apply IH. lia.
Qed.

Lemma enumerate_items {A : Type} (l : list A) : map snd (Py.enumerate l) = l.
Proof.
  unfold Py.enumerate. apply map_snd_combine_le. rewrite range_length. lia.
Qed.

(** The blocks of a payload of any length: together the payload, none
    empty, none longer than the transfer size. *)
Lemma blocks_of_any (data : list byte) (size : Z) :
  0 < size ->
  exists blocks,
    blocks_of data size = Ok blocks
    /\ concat blocks = data
    /\ Forall (fun block => 0 < Z.of_nat (length block) <= size) blocks.
Proof.
  intros Hsize. unfold blocks_of, Py.range3.
  destruct (size =? 0) eqn:E0; [apply Z.eqb_eq in E0; lia |].
  destruct (0 <? size) eqn:Epos; [| apply Z.ltb_ge in Epos; lia].
  simpl. eexists. split; [reflexivity |].
  set (n := Z.of_nat (length data)).
  set (q := (n - 0 + size - 1) / size).
  assert (Hq : n <= q * size /\ (q - 1) * size < n /\ 0 <= q).
  { pose proof (Z.div_mod (n - 0 + size - 1) size ltac:(lia)) as Hdm.
    pose proof (Z.mod_pos_bound (n - 0 + size - 1) size Hsize) as Hr.
    fold q in Hdm. assert (0 <= n) by (unfold n; lia).
    assert (0 <= q) by (unfold q; apply Z.div_pos; lia). nia. }
  rewrite map_map.
  assert (Hblocks :
    map (fun j => Py.slice (0 + Z.of_nat j * size) (0 + Z.of_nat j * size + size) data)
        (seq 0 (Z.to_nat q))
    = map (fun j => take (Z.to_nat size) (drop (j * Z.to_nat size) data))
        (seq 0 (Z.to_nat q))).
  { apply map_ext_in. intros j Hj. apply in_seq in Hj.
    rewrite slice_take_drop by nia. f_equal; [lia | f_equal; nia]. }
  rewrite Hblocks. split.
  - rewrite concat_chunks. apply firstn_all2. unfold n in Hq. nia.
  - apply List.Forall_forall. intros block Hblock.
    apply in_map_iff in Hblock as (j & <- & Hj). apply in_seq in Hj.
    rewrite length_take, length_drop. unfold n in Hq. nia.
Qed.

(** X5.  When [flash] returns normally it has written the whole payload,
    whatever its length: the blocks written are numbered 0, 1, 2, ... in
    the order they were sent, none is empty or longer than
    [gcd(len, 2048)], and concatenated they are the payload.  The length
    of the payload is not compared with the length of the sector. *)
Theorem flash_writes_whole_payload :
  forall (W : Type) (D : device W) (G : globals) (dev : handle) (sector : sector)
         (data : list byte) (w : W),
  outcome_of (run D (flash G dev sector data) w) = Ok tt ->
  let written := omap write_of (trace_of (run D (flash G dev sector data) w)) in
  concat (map snd written) = data
  /\ map fst written = Py.range (Z.of_nat (length written))
  /\ Forall (fun numbered =>
               0 < Z.of_nat (length (snd numbered))
               <= Py.gcd (sec_len sector) MAX_TRANSFER_SIZE) written
  /\ (data = [] -> written = []).
Proof.
  intros W D G dev sector data w Hok written.
  pose proof (transfer_size_bounds (sec_len sector)) as Hb.
  destruct (blocks_of_any data (Py.gcd (sec_len sector) MAX_TRANSFER_SIZE) ltac:(lia))
    as (blocks & Hblocks & Hcat & Hsizes).
  destruct (flash_writes D G dev sector data blocks w Hblocks) as (rest & Hrest & Hdone).
  rewrite Hok in Hdone. rewrite (Hdone eq_refl), app_nil_r in Hrest.
  fold written in Hrest. rewrite <- Hrest.
  rewrite enumerate_items, enumerate_indices.
  split; [exact Hcat |]. split.
  - unfold Py.enumerate. rewrite length_combine, range_length. f_equal. lia.
  - split.
    + apply List.Forall_forall. intros [i block] Hin.
      rewrite List.Forall_forall in Hsizes. apply Hsizes.
      apply (in_map snd) in Hin. rewrite enumerate_items in Hin. exact Hin.
    + intros ->. destruct blocks as [| block blocks]; [reflexivity |].
      exfalso. inversion Hsizes as [| x l Hx Hl]; subst.
      destruct block; simpl in Hcat; [simpl in Hx; lia | discriminate].
Qed.

Lemma flash_writes_whole_payload_witness :
  outcome_of (run Sim.step (flash G0 0%nat small_sector small_payload) (Sim.fresh [] false))
  = Ok tt
  /\ concat (map snd (omap write_of
               (trace_of (run Sim.step (flash G0 0%nat small_sector small_payload)
                            (Sim.fresh [] false)))))
     = small_payload.
Proof.
  assert (Hok : outcome_of (run Sim.step (flash G0 0%nat small_sector small_payload)
                              (Sim.fresh [] false)) = Ok tt) by (vm_compute; reflexivity).
  split; [exact Hok |].
  exact (proj1 (flash_writes_whole_payload _ Sim.step G0 0%nat small_sector small_payload
                  (Sim.fresh [] false) Hok)).
Defined.

(** ** What [read] returns *)

Lemma omap_other_kinds {X : Type} (f : event -> option X) (k : kind)
    (P : handle -> kind -> Prop) (t : list event) :
  (forall ev, event_kind ev <> k -> f ev = None) ->
  (forall d, ~ P d k) ->
  Forall (event_sat P) t -> omap f t = [].
Proof.
  intros Hf HP. induction 1 as [| ev t Hev _ IH]; [reflexivity |].
  cbn [omap list_omap]. rewrite Hf.
  - exact IH.
  - intros Hk. apply (HP (event_handle ev)). rewrite <- Hk. exact Hev.
Qed.

Lemma read_exchange_of_kind (ev : event) :
  event_kind ev <> KRead -> read_exchange_of ev = None.
Proof. destruct ev as [R dev m answer]. destruct m; simpl; congruence. Qed.

Lemma read_blocks_data {W : Type} (D : device W) dev size blocknums :
  forall acc w data,
  outcome_of (run D (read_blocks dev size blocknums acc) w) = Ok data ->
  data = acc ++ concat (map snd (omap read_exchange_of
                                   (trace_of (run D (read_blocks dev size blocknums acc) w))))
  /\ map fst (omap read_exchange_of
                (trace_of (run D (read_blocks dev size blocknums acc) w)))
     = map (fun _ => size) blocknums.
Proof.
  induction blocknums as [| blocknum blocknums IH]; intros acc w data; simpl.
  - intros [= <-]. rewrite app_nil_r. split; reflexivity.
  - destruct (D _ dev (DfuDevice.read blocknum size) w) as [[block | e] w1];
      [| discriminate].
    specialize (IH (acc ++ block) w1 data).
    destruct (run D (read_blocks dev size blocknums (acc ++ block)) w1) as [[t res] w2].
    simpl in *. intros Hres. destruct (IH Hres) as [Hdata Hsizes].
    rewrite <- app_assoc in Hdata. split; [exact Hdata | f_equal; exact Hsizes].
Qed.

Lemma exchanged_length (c : Z) (exchanges : list (Z * list byte)) :
  Forall (fun x => fst x = c) exchanges ->
  Forall (fun x => Z.of_nat (length (snd x)) = fst x) exchanges ->
  Z.of_nat (length (concat (map snd exchanges))) = Z.of_nat (length exchanges) * c.
Proof.
  induction 1 as [| x l Hx _ IH]; intros Hlen; [reflexivity |].
  inversion Hlen as [| y l' Hy Hl]; subst.
  simpl. rewrite length_app. specialize (IH Hl). lia.
Qed.

Lemma read_run {W : Type} :
  forall (D : device W) (G : globals) (dev : handle) (sector : sector)
         (w : W) (data : list byte),
  outcome_of (run D (read G dev sector) w) = Ok data ->
  let exchanges := omap read_exchange_of (trace_of (run D (read G dev sector) w)) in
  data = concat (map snd exchanges)
  /\ Forall (fun x => fst x = Py.gcd (sec_len sector) MAX_TRANSFER_SIZE) exchanges
  /\ (exists t, trace_of (run D (read G dev sector) w) = t ++ [Event dev DfuDevice.abort (Ok tt)])
  /\ (0 <= sec_len sector < 2 ^ 53 ->
      Forall (fun x => Z.of_nat (length (snd x)) = fst x) exchanges ->
      Z.of_nat (length data) = sec_len sector).
Proof.
  intros D G dev sector w data Hok exchanges. subst exchanges.
  pose proof (transfer_size_bounds (sec_len sector)) as Hb.
  pose proof (transfer_size_divides (sec_len sector)) as Hdiv.
  set (size := Py.gcd (sec_len sector) MAX_TRANSFER_SIZE) in *.
  unfold read in *. fold size in Hok |- *.
  pose proof (only_calls_run _ D _ (set_alternate_safe_calls dev (sec_alt sector)) w) as H1.
  destruct (run D (set_alternate_safe dev (sec_alt sector)) w) as [[t1 [[] | e]] w1] eqn:E1;
    [| rewrite (run_bind_raise _ _ _ _ _ _ _ E1) in Hok; discriminate].
  rewrite (run_bind_ok _ _ _ _ _ _ _ E1) in Hok |- *.
  cbn [trace_of outcome_of fst snd] in H1, Hok |- *.
  apply (omap_other_kinds read_exchange_of KRead) in H1;
    [| exact read_exchange_of_kind | apply on_kinds_not; not_in_kinds].
  pose proof (only_calls_run _ D _ (set_address_safe_calls G dev (sec_addr sector)) w1) as H2.
  destruct (run D (set_address_safe G dev (sec_addr sector)) w1) as [[t2 [[] | e]] w2] eqn:E2;
    [| rewrite (run_bind_raise _ _ _ _ _ _ _ E2) in Hok; discriminate].
  rewrite (run_bind_ok _ _ _ _ _ _ _ E2) in Hok |- *.
  cbn [trace_of outcome_of fst snd] in H2, Hok |- *.
  apply (omap_other_kinds read_exchange_of KRead) in H2;
    [| exact read_exchange_of_kind | apply on_kinds_not; not_in_kinds].
  destruct (Py.int_truediv (sec_len sector) size) as [count | e] eqn:Ecount;
    [| cbn [lift bind run outcome_of fst snd] in Hok; discriminate].
  cbn [lift bind] in Hok |- *.
  pose proof (read_blocks_data D dev size (Py.range count) [] w2) as Hblocks.
  destruct (run D (read_blocks dev size (Py.range count) []) w2) as [[t3 [blocks | e]] w3]
    eqn:E3; [| rewrite (run_bind_raise _ _ _ _ _ _ _ E3) in Hok; discriminate].
  rewrite (run_bind_ok _ _ _ _ _ _ _ E3) in Hok |- *.
  cbn [trace_of outcome_of fst snd] in Hblocks, Hok |- *.
  destruct (Hblocks blocks eq_refl) as [Hdata Hsizes]. simpl in Hdata.
  simpl in Hok |- *.
  destruct (D _ dev DfuDevice.abort w3) as [[[] | e] w4]; [| discriminate].
  simpl in Hok |- *. injection Hok as <-.
  rewrite !omap_app, H1, H2. simpl. rewrite app_nil_r.
  assert (Hasked : Forall (fun x => fst x = size) (omap read_exchange_of t3)).
  { apply List.Forall_forall. intros x Hx. apply (in_map fst) in Hx.
    rewrite Hsizes in Hx. apply in_map_iff in Hx as (i & Hi & _). symmetry. exact Hi. }
  split; [exact Hdata |]. split; [exact Hasked |]. split.
  - exists (t1 ++ t2 ++ t3). rewrite <- !app_assoc. reflexivity.
  - intros Hlen Hgot. rewrite Hdata, (exchanged_length size _ Hasked Hgot).
    assert (Hn : length (omap read_exchange_of t3) = length (Py.range count)).
    { rewrite <- (length_map fst), Hsizes, length_map. reflexivity. }
    rewrite Hn, range_length.
    assert (Hc : count = sec_len sector / size).
    { assert (Hpos : 0 < size) by lia.
      rewrite (int_truediv_exact _ _ Hpos Hlen Hdiv) in Ecount. congruence. }
    destruct Hdiv as [k Hk]. rewrite Hc, Hk, Z.div_mul by lia. nia.
Qed.

(** X6.  When [read] returns normally, what it returns is what the
    device answered to the block reads, concatenated in the order of the
    requests, and its last call is [abort].  Every request asks for
    [gcd(len, 2048)] bytes, but the size of an answer is not checked: the
    data has the length of the sector when (for a length below [2^53])
    every answer has the size that was asked for. *)
Theorem read_returns_device_blocks :
  forall (W : Type) (D : device W) (G : globals) (dev : handle) (sector : sector)
         (w : W) (data : list byte),
  outcome_of (run D (read G dev sector) w) = Ok data ->
  let exchanges := omap read_exchange_of (trace_of (run D (read G dev sector) w)) in
  data = concat (map snd exchanges)
  /\ Forall (fun x => fst x = Py.gcd (sec_len sector) MAX_TRANSFER_SIZE) exchanges
  /\ (exists t, trace_of (run D (read G dev sector) w) = t ++ [Event dev DfuDevice.abort (Ok tt)])
  /\ (0 <= sec_len sector < 2 ^ 53 ->
      Forall (fun x => Z.of_nat (length (snd x)) = fst x) exchanges ->
      Z.of_nat (length data) = sec_len sector).
Proof. intros W. exact read_run. Qed.

Lemma read_returns_device_blocks_witness :
  outcome_of (run Sim.step (read G0 0%nat small_sector) (Sim.fresh [] true))
  = Ok (List.repeat x00 16)
  /\ List.repeat x00 16
     = concat (map snd (omap read_exchange_of
                          (trace_of (run Sim.step (read G0 0%nat small_sector)
                                       (Sim.fresh [] true))))).
Proof.
  assert (Hok : outcome_of (run Sim.step (read G0 0%nat small_sector) (Sim.fresh [] true))
                = Ok (List.repeat x00 16)) by (vm_compute; reflexivity).
  split; [exact Hok |].
  exact (proj1 (read_returns_device_blocks _ Sim.step G0 0%nat small_sector
                  (Sim.fresh [] true) _ Hok)).
Defined.

(** ** What a normal end of the passes tells *)

Lemma verdict_ok (sector : sector) (expected observed : list byte) :
  verdict sector expected observed = Ok tt <-> observed = expected.
Proof.
  unfold verdict. split.
  - pose proof (get_first_mismatch_index_spec observed expected) as Hspec.
    destruct (get_first_mismatch_index observed expected) as [[i |] | e];
      [discriminate | intros _; exact Hspec | discriminate].
  - intros ->. rewrite get_first_mismatch_index_same. reflexivity.
Qed.

Lemma verify_sector_read {W : Type} (D : device W) G sector expected w :
  trace_of (run D (verify_sector G (sector, expected)) w)
  = trace_of (run D (read G (dfudev G) sector) w)
  /\ (outcome_of (run D (verify_sector G (sector, expected)) w) = Ok tt
      <-> outcome_of (run D (read G (dfudev G) sector) w) = Ok expected).
Proof.
  destruct (run D (read G (dfudev G) sector) w) as [[t [observed | e]] w1] eqn:E.
  - rewrite (verify_sector_run D G _ expected _ _ _ _ E).
    cbn [trace_of outcome_of fst snd]. split; [reflexivity |].
    rewrite verdict_ok. split; [intros ->; reflexivity | intros [= ->]; reflexivity].
  - unfold verify_sector. rewrite (run_bind_raise _ _ _ _ _ _ _ E).
    cbn [trace_of outcome_of fst snd]. split; [reflexivity | split; discriminate].
Qed.

Lemma verify_pass_read_back {W : Type} (D : device W) G entries :
  forall w,
  outcome_of (run D (verify_pass G entries) w) = Ok tt ->
  concat (map snd (omap read_exchange_of (trace_of (run D (verify_pass G entries) w))))
  = concat (map snd entries).
Proof.
  unfold verify_pass.
  induction entries as [| [sector expected] entries IH]; intros w Hok; [reflexivity |].
  rewrite for_each_cons in Hok |- *.
  destruct (verify_sector_read D G sector expected w) as [Htrace Hiff].
  destruct (run D (verify_sector G (sector, expected)) w) as [[t [[] | e]] w1] eqn:E;
    [| rewrite (run_bind_raise _ _ _ _ _ _ _ E) in Hok; discriminate].
  rewrite (run_bind_ok _ _ _ _ _ _ _ E) in Hok |- *.
  cbn [trace_of outcome_of fst snd] in Htrace, Hiff, Hok |- *.
  pose proof (proj1 Hiff eq_refl) as Hread.
  destruct (read_run D G (dfudev G) sector w expected Hread) as (Hdata & _).
  rewrite <- Htrace in Hdata.
  rewrite omap_app, map_app, concat_app, <- Hdata, (IH w1 Hok). reflexivity.
Qed.

(** X7.  The verify loop adds no call to those of [read], and accepts a
    sector exactly when [read] returned its payload, byte for byte.  When
    the verify pass ends normally, the blocks that the device returned to
    the block reads of the pass, concatenated in order, are the payloads
    of the entries, concatenated in order. *)
Theorem verify_pass_accepts_equal_read_back :
  forall (W : Type) (D : device W) (G : globals),
  (forall (sector : sector) (expected : list byte) (w : W),
     trace_of (run D (verify_sector G (sector, expected)) w)
     = trace_of (run D (read G (dfudev G) sector) w)
     /\ (outcome_of (run D (verify_sector G (sector, expected)) w) = Ok tt
         <-> outcome_of (run D (read G (dfudev G) sector) w) = Ok expected))
  /\ (forall (entries : list (sector * list byte)) (w : W),
        outcome_of (run D (verify_pass G entries) w) = Ok tt ->
        concat (map snd (omap read_exchange_of
                           (trace_of (run D (verify_pass G entries) w))))
        = concat (map snd entries)).
Proof.
  intros W D G. split.
  - intros sector expected w. apply verify_sector_read.
  - intros entries w. apply verify_pass_read_back.
Qed.

Lemma verify_pass_accepts_equal_read_back_witness :
  outcome_of (run Sim.step (verify_pass G0 [(wide_sector, List.repeat xff 64)])
                (Sim.fresh [] false)) = Ok tt
  /\ concat (map snd (omap read_exchange_of
                        (trace_of (run Sim.step
                                     (verify_pass G0 [(wide_sector, List.repeat xff 64)])
                                     (Sim.fresh [] false)))))
     = concat (map snd [(wide_sector, List.repeat xff 64)]).
Proof.
  assert (Hok : outcome_of (run Sim.step (verify_pass G0 [(wide_sector, List.repeat xff 64)])
                              (Sim.fresh [] false)) = Ok tt) by (vm_compute; reflexivity).
  split; [exact Hok |].
  exact (proj2 (verify_pass_accepts_equal_read_back _ Sim.step G0) _ _ Hok).
Defined.

Lemma erase_of_kind (ev : event) : event_kind ev <> KErase -> erase_of ev = None.
Proof. destruct ev as [R dev m answer]. destruct m; simpl; congruence. Qed.

Lemma write_of_kind (ev : event) : event_kind ev <> KWrite -> write_of ev = None.
Proof. destruct ev as [R dev m answer]. destruct m; simpl; congruence. Qed.

(** A program that makes no call of the kind [k] contributes nothing to
    what [f] selects, when [f] selects calls of that kind only. *)
Lemma silent_run {X W A : Type} (f : event -> option X) (k : kind) (ks : list kind)
    (D : device W) (p : dfu A) (w w' : W) (t : list event) (res : result A) :
  (forall ev, event_kind ev <> k -> f ev = None) ->
  ~ In k ks ->
  only_calls (of_kinds ks) p ->
  run D p w = (t, res, w') ->
  omap f t = [].
Proof.
  intros Hf Hk Hp Hrun.
  pose proof (only_calls_run _ D _ Hp w) as Hkinds. rewrite Hrun in Hkinds.
  cbn [trace_of fst] in Hkinds.
  apply (omap_other_kinds f k (of_kinds ks)); [exact Hf | intros d; exact Hk | exact Hkinds].
Qed.

Lemma run_ok_inv {W A B : Type} (D : device W) (p : dfu A) (f : A -> dfu B) (w : W) (b : B) :
  outcome_of (run D (bind p f) w) = Ok b ->
  exists t1 a w1,
    run D p w = (t1, Ok a, w1)
    /\ outcome_of (run D (f a) w1) = Ok b
    /\ trace_of (run D (bind p f) w) = t1 ++ trace_of (run D (f a) w1).
Proof.
  intros Hok.
  destruct (run D p w) as [[t1 [a | e]] w1] eqn:E.
  - rewrite (run_bind_ok _ _ _ _ _ _ _ E) in Hok |- *.
    exists t1, a, w1. auto.
  - rewrite (run_bind_raise _ _ _ _ _ _ _ E) in Hok. discriminate.
Qed.

Lemma emits_done {X W A : Type} (f : event -> option X) (items : list X)
    (D : device W) (p : dfu A) (w w' : W) (t : list event) (a : A) :
  emits f items D p w -> run D p w = (t, Ok a, w') -> omap f t = items.
Proof.
  intros (rest & Hrest & Hdone) Hrun. rewrite Hrun in Hrest, Hdone.
  cbn [trace_of outcome_of fst snd] in Hrest, Hdone.
  rewrite (Hdone eq_refl), app_nil_r in Hrest. symmetry. exact Hrest.
Qed.

Lemma jump_ok_has_leave {W : Type} (D : device W) G dev address w :
  outcome_of (run D (jump_to_application G dev address) w) = Ok tt ->
  In KLeave (map event_kind (trace_of (run D (jump_to_application G dev address) w))).
Proof.
  unfold jump_to_application, set_address_safe. simpl.
  device_cases D; simpl; try discriminate. intros _. tauto.
Qed.

Ltac silence f k lem K H :=
  let Hs := fresh "Hs" in
  assert (Hs := fun Hk => silent_run f k _ _ _ _ _ _ _ lem Hk K H);
  rewrite Hs by not_in_kinds; clear Hs.

Lemma sequencer_ok {W : Type} (D : device W) G touched_sectors w :
  outcome_of (run D (sequencer G touched_sectors) w) = Ok tt ->
  omap erase_of (trace_of (run D (sequencer G touched_sectors) w))
  = map (fun entry => sec_addr (fst entry)) touched_sectors
  /\ omap write_of (trace_of (run D (sequencer G touched_sectors) w))
     = flat_map expected_writes touched_sectors
  /\ concat (map snd (omap read_exchange_of
                        (trace_of (run D (sequencer G touched_sectors) w))))
     = concat (map snd touched_sectors)
  /\ In KLeave (map event_kind (trace_of (run D (sequencer G touched_sectors) w))).
Proof.
  intros Hok. unfold sequencer in *.
  apply run_ok_inv in Hok as (tE & [] & wE & HE & Hok & ->).
  apply run_ok_inv in Hok as (tF & [] & wF & HF & Hok & ->).
  apply run_ok_inv in Hok as (tV & [] & wV & HV & Hok & ->).
  pose proof (jump_ok_has_leave D G _ _ _ Hok) as Hleave.
  destruct (run D (jump_to_application G (dfudev G) 134217728) wV) as [[tJ resJ] wJ] eqn:HJ.
  cbn [trace_of outcome_of fst snd] in *.
  pose proof (erase_pass_kinds_only G touched_sectors) as KE.
  pose proof (flash_pass_kinds_only G touched_sectors) as KF.
  pose proof (verify_pass_kinds_only G touched_sectors) as KV.
  pose proof (jump_kinds_only G (dfudev G) 134217728) as KJ.
  rewrite !omap_app.
  split; [| split; [| split]].
  - rewrite (emits_done _ _ _ _ _ _ _ _ (erase_pass_emits D G touched_sectors w) HE).
    silence erase_of KErase erase_of_kind KF HF.
    silence erase_of KErase erase_of_kind KV HV.
    silence erase_of KErase erase_of_kind KJ HJ.
    rewrite !app_nil_r. reflexivity.
  - rewrite (emits_done _ _ _ _ _ _ _ _ (flash_pass_emits D G touched_sectors wE) HF).
    silence write_of KWrite write_of_kind KE HE.
    silence write_of KWrite write_of_kind KV HV.
    silence write_of KWrite write_of_kind KJ HJ.
    rewrite !app_nil_r. reflexivity.
  - silence read_exchange_of KRead read_exchange_of_kind KE HE.
    silence read_exchange_of KRead read_exchange_of_kind KF HF.
    silence read_exchange_of KRead read_exchange_of_kind KJ HJ.
    rewrite app_nil_r. cbn [app].
    pose proof (verify_pass_read_back D G touched_sectors wF) as Hback.
    rewrite HV in Hback. exact (Hback eq_refl).
  - rewrite !map_app. apply in_or_app. right. apply in_or_app. right.
    apply in_or_app. right. exact Hleave.
Qed.

(** X8.  When the sequencer returns normally, every touched sector was
    erased, once and in order; every block of every payload was written,
    in order; what the device returned to the block reads is, byte for
    byte, the payloads; and the leave request was sent. *)
Theorem sequencer_success_covers_every_sector :
  forall (W : Type) (D : device W) (G : globals)
         (touched_sectors : list (sector * list byte)) (w : W),
  outcome_of (run D (sequencer G touched_sectors) w) = Ok tt ->
  omap erase_of (trace_of (run D (sequencer G touched_sectors) w))
  = map (fun entry => sec_addr (fst entry)) touched_sectors
  /\ omap write_of (trace_of (run D (sequencer G touched_sectors) w))
     = flat_map expected_writes touched_sectors
  /\ concat (map snd (omap read_exchange_of
                        (trace_of (run D (sequencer G touched_sectors) w))))
     = concat (map snd touched_sectors)
  /\ In KLeave (map event_kind (trace_of (run D (sequencer G touched_sectors) w))).
Proof. intros W D G touched_sectors w. apply sequencer_ok. Qed.

Lemma sequencer_success_covers_every_sector_witness :
  outcome_of (run Sim.step (sequencer G0 small_touched) (Sim.fresh [] false)) = Ok tt
  /\ omap erase_of (trace_of (run Sim.step (sequencer G0 small_touched) (Sim.fresh [] false)))
     = map (fun entry => sec_addr (fst entry)) small_touched.
Proof.
  assert (Hok : outcome_of (run Sim.step (sequencer G0 small_touched) (Sim.fresh [] false))
                = Ok tt) by (vm_compute; reflexivity).
  split; [exact Hok |].
  exact (proj1 (sequencer_success_covers_every_sector _ Sim.step G0 small_touched
                  (Sim.fresh [] false) Hok)).
Defined.

(** ** Selected sectors and the bytes of the image *)

Lemma runs_from_nonempty (addrs : list Z) :
  forall start next,
  start < next ->
  Forall (fun segment => fst segment < snd segment) (IntelHex.runs_from start next addrs).
Proof.
  induction addrs as [| a rest IH]; intros start next Hlt; simpl.
  - constructor; [exact Hlt | constructor].
  - destruct (a =? next).
    + apply IH. lia.
    + constructor; [exact Hlt | apply IH; lia].
Qed.

Lemma segments_nonempty (ih : gmap Z byte) :
  Forall (fun segment => fst segment < snd segment) (IntelHex.segments ih).
Proof.
  unfold IntelHex.segments. destruct (IntelHex.addresses ih) as [| a rest].
  - constructor.
  - apply runs_from_nonempty. lia.
Qed.

Lemma overlaps_common_address (addr size : Z) (segment : Z * Z) :
  fst segment < snd segment -> 0 < size ->
  (overlaps addr size segment
   <-> exists a, addr <= a < addr + size /\ fst segment <= a < snd segment).
Proof.
  intros Hseg Hsize. unfold overlaps. split.
  - intros [[H1 H2] | [H1 H2]]; [exists addr | exists (fst segment)]; lia.
  - intros (a & Ha & Hin).
    destruct (Z.lt_ge_cases (fst segment) addr); [left | right]; lia.
Qed.

Lemma touched_iff_defined (ih : gmap Z byte) (addr size : Z) :
  0 < size ->
  (touched addr size (IntelHex.segments ih) = true
   <-> exists a, addr <= a < addr + size /\ is_Some (ih !! a)).
Proof.
  intros Hsize. rewrite touched_spec. split.
  - intros (segment & Hin & Hov).
    pose proof (segments_nonempty ih) as Hne. rewrite List.Forall_forall in Hne.
    apply overlaps_common_address in Hov as (a & Ha & Hseg); [| apply Hne; exact Hin | exact Hsize].
    exists a. split; [exact Ha |]. apply segments_cover. exists segment. auto.
  - intros (a & Ha & Hdef). apply segments_cover in Hdef as (segment & Hin & Hseg).
    exists segment. split; [exact Hin |].
    apply overlaps_common_address; [lia | exact Hsize |]. exists a. auto.
Qed.

(** X9.  A sector of positive length is selected exactly when the image
    defines a byte at one of its addresses (the image being a sparse map
    whose segments are its runs of consecutive addresses, as section 6
    describes it). *)
Theorem selected_iff_image_defines_a_byte :
  forall (sectors : list sector) (hexfile : gmap Z byte) (s : sector),
  0 < sec_len s ->
  (In s (map fst (populate_sectors sectors hexfile))
   <-> In s sectors
       /\ exists a, sec_addr s <= a < sec_addr s + sec_len s /\ is_Some (hexfile !! a)).
Proof.
  intros sectors hexfile s Hlen.
  rewrite populate_sectors_fst, filter_In, (touched_iff_defined hexfile _ _ Hlen).
  reflexivity.
Qed.

Lemma selected_iff_image_defines_a_byte_witness :
  0 < sec_len small_sector
  /\ (In small_sector (map fst (populate_sectors small_sectors small_image))
      <-> In small_sector small_sectors
          /\ exists a, sec_addr small_sector <= a < sec_addr small_sector + sec_len small_sector
                       /\ is_Some (small_image !! a)).
Proof.
  assert (Hlen : 0 < sec_len small_sector) by (simpl; lia).
  split; [exact Hlen |].
  exact (selected_iff_image_defines_a_byte small_sectors small_image small_sector Hlen).
Defined.

(** A sector of length zero is selected all the same when a segment
    begins before it and ends after its address. *)
Example empty_sector_selected :
  map fst (populate_sectors
             [ {| sec_name := Py.lit "RAM"; sec_alt := 1; sec_baseaddr := 256;
                  sec_addr := 273; sec_len := 0; sec_mode := "g"%char |} ]
             small_image)
  = [ {| sec_name := Py.lit "RAM"; sec_alt := 1; sec_baseaddr := 256;
         sec_addr := 273; sec_len := 0; sec_mode := "g"%char |} ].
Proof. vm_compute. reflexivity. Qed.

(** ** Descriptors the parser rejects *)

Lemma slice_front_short {A : Type} (l : list A) :
  (length l <= 2)%nat -> Py.slice 0 (-2) l = [].
Proof.
  intros Hlen. unfold Py.slice, Py.clamp. simpl.
  replace (Z.to_nat (Z.max 0 (-2 + Z.of_nat (length l)) - Z.min 0 (Z.of_nat (length l))))
    with 0%nat by lia.
  reflexivity.
Qed.

Lemma index_from_end {A : Type} (l : list A) (i : Z) :
  i < 0 -> 0 <= i + Z.of_nat (length l) -> is_ok (Py.index i l) = true.
Proof.
  intros Hneg Hin. unfold Py.index.
  destruct (i <? 0) eqn:Ei; [| lia].
  destruct ((i + Z.of_nat (length l) <? 0) || (Z.of_nat (length l) <=? i + Z.of_nat (length l)))
    eqn:Eout; [lia |].
  destruct (nth_error l (Z.to_nat (i + Z.of_nat (length l)))) eqn:Enth; [reflexivity |].
  apply nth_error_None in Enth. lia.
Qed.

Lemma parse_term_raises (term : Py.str) (e : exn) :
  parse_term term = Raise e -> malformed_term term.
Proof.
  unfold parse_term, unpack_repeat_size. intros Hparse.
  destruct (Py.split "*"%char (Py.slice 0 (-2) term)) as [| a [| b [| c rest]]] eqn:Esplit;
    try (left; rewrite Esplit; simpl; lia).
  destruct (Py.int a) as [ra |] eqn:Ea;
    [| right; left; exists a; rewrite Esplit, Ea; split; [left |]; reflexivity].
  destruct (Py.int b) as [rb |] eqn:Eb;
    [| right; left; exists b; rewrite Esplit, Eb; split; [right; left |]; reflexivity].
  simpl in Hparse.
  assert (Hlen : (2 < length term)%nat).
  { destruct (le_lt_dec (length term) 2) as [Hshort | Hlong]; [| exact Hlong].
    rewrite (slice_front_short term Hshort) in Esplit. discriminate. }
  pose proof (index_from_end term (-2) ltac:(lia) ltac:(lia)) as H2.
  pose proof (index_from_end term (-1) ltac:(lia) ltac:(lia)) as H1.
  destruct (Py.index (-2) term) as [u |] eqn:Eu; [| discriminate].
  destruct (Py.index (-1) term) as [m |] eqn:Em; [| discriminate].
  simpl in Hparse. unfold getitem in Hparse.
  destruct (SIZE_MULTIPLIERS !! Py.upper_char u) as [mult |] eqn:Emult; [discriminate |].
  right. right. exists u. split; [exact Eu |].
  repeat split; intros Hu; rewrite Hu in Emult; vm_compute in Emult; discriminate.
Qed.

Lemma layout_loop_raises (label : Py.str) (alt baseaddr : Z) (terms : list Py.str) :
  forall addr e,
  raised (layout_loop label alt baseaddr addr terms) = Some e ->
  exists term, In term terms /\ malformed_term term.
Proof.
  induction terms as [| t rest IH]; intros addr e Hraise; [discriminate |].
  simpl in Hraise.
  destruct (parse_term t) as [[[repeat size] mode] | e'] eqn:Et.
  - simpl in Hraise. apply IH in Hraise as (term & Hin & Hbad).
    exists term. split; [right; exact Hin | exact Hbad].
  - exists t. split; [left; reflexivity | eapply parse_term_raises; exact Et].
Qed.

Lemma alternate_sectors_raises (name : Py.str) (alt : Z) (e : exn) :
  raised (alternate_sectors name alt) = Some e -> malformed_descriptor name.
Proof.
  unfold alternate_sectors. intros Hraise.
  destruct (Py.split "/"%char name) as [| label [| base [| layout [| x rest]]]] eqn:Esplit;
    try (left; rewrite Esplit; simpl; lia).
  right. exists label, base, layout. split; [exact Esplit |].
  destruct (Py.int0 base) as [baseaddr |] eqn:Ebase; [right | left; reflexivity].
  eapply layout_loop_raises. exact Hraise.
Qed.

Lemma get_device_sectors_raises (alternates : list (Py.str * Z)) (e : exn) :
  raised (get_device_sectors alternates) = Some e ->
  exists name alt, In (name, alt) alternates /\ malformed_descriptor name.
Proof.
  induction alternates as [| [name alt] rest IH]; intros Hraise; [discriminate |].
  simpl in Hraise.
  destruct (raised (alternate_sectors name alt)) as [e' |] eqn:E.
  - exists name, alt. split; [left; reflexivity | eapply alternate_sectors_raises; exact E].
  - simpl in Hraise. apply IH in Hraise as (name' & alt' & Hin & Hbad).
    exists name', alt'. split; [right; exact Hin | exact Hbad].
Qed.

(** X10.  The sector map of a device is returned exactly when none of its
    descriptors is malformed; otherwise [get_device_sectors] raises. *)
Theorem sector_map_iff_no_malformed_descriptor :
  forall alternates : list (Py.str * Z),
  is_ok (list_of (get_device_sectors alternates)) = true
  <-> forall name alt, In (name, alt) alternates -> ~ malformed_descriptor name.
Proof.
  intros alternates. unfold list_of. split.
  - intros Hok. apply get_device_sectors_ok.
    destruct (raised (get_device_sectors alternates)); [discriminate | reflexivity].
  - intros Hgood.
    destruct (raised (get_device_sectors alternates)) as [e |] eqn:E; [| reflexivity].
    apply get_device_sectors_raises in E as (name & alt & Hin & Hbad).
    destruct (Hgood name alt Hin Hbad).
Qed.

(** ** The sector map of arbitrary descriptors *)

Lemma yield_sectors_In (n : nat) (label : Py.str) (alt baseaddr size : Z) (mode : ascii)
    (s : sector) :
  forall addr,
  In s (yield_sectors n label alt baseaddr addr size mode) ->
  sec_alt s = alt /\ sec_baseaddr s = baseaddr
  /\ sec_name s = Py.strip_chars (Py.lit "@") (Py.strip label)
  /\ sec_len s = size /\ sec_mode s = mode /\ (0 < n)%nat.
Proof.
  induction n as [| n IH]; intros addr Hin; [destruct Hin |].
  destruct Hin as [<- | Hin].
  - simpl. repeat split; lia.
  - apply IH in Hin. intuition lia.
Qed.

Lemma layout_loop_In (label : Py.str) (alt baseaddr : Z) (terms : list Py.str) (s : sector) :
  forall addr,
  In s (yielded (layout_loop label alt baseaddr addr terms)) ->
  sec_alt s = alt /\ sec_baseaddr s = baseaddr
  /\ sec_name s = Py.strip_chars (Py.lit "@") (Py.strip label)
  /\ exists term repeat,
       In term terms /\ parse_term term = Ok (repeat, sec_len s, sec_mode s) /\ 0 < repeat.
Proof.
  induction terms as [| t rest IH]; intros addr Hin; [destruct Hin |].
  simpl in Hin.
  destruct (parse_term t) as [[[repeat size] mode] | e] eqn:Et; [| destruct Hin].
  simpl in Hin. apply in_app_or in Hin as [Hin | Hin].
  - apply yield_sectors_In in Hin as (Ha & Hb & Hn & Hl & Hm & Hpos).
    repeat split; try assumption.
    exists t, repeat. rewrite Hl, Hm. split; [left; reflexivity |]. split; [exact Et | lia].
  - apply IH in Hin as (Ha & Hb & Hn & term & r & Hterm & Hparse & Hpos).
    repeat split; try assumption.
    exists term, r. split; [right; exact Hterm |]. split; assumption.
Qed.

Lemma alternate_sectors_In (name : Py.str) (alt : Z) (s : sector) :
  In s (yielded (alternate_sectors name alt)) -> sec_alt s = alt /\ comes_from s name.
Proof.
  unfold alternate_sectors. intros Hin.
  destruct (Py.split "/"%char name) as [| label [| base [| layout [| x rest]]]] eqn:Esplit;
    try destruct Hin.
  destruct (Py.int0 base) as [baseaddr |] eqn:Ebase; [| destruct Hin].
  apply layout_loop_In in Hin as (Ha & Hb & Hn & term & r & Hterm & Hparse & Hpos).
  split; [exact Ha |].
  exists label, base, layout, term, r. rewrite Hb. repeat split; assumption.
Qed.

(** X11.  Whatever the descriptors are, every sector that
    [get_device_sectors] yields (also before an exception) stands for one
    repetition of a term of the descriptor of its alternate setting: it
    records that setting, the descriptor's base address and stripped
    label, and the term's size and mode letter. *)
Theorem yielded_sector_comes_from_a_term :
  forall (alternates : list (Py.str * Z)) (s : sector),
  In s (yielded (get_device_sectors alternates)) ->
  exists name, In (name, sec_alt s) alternates /\ comes_from s name.
Proof.
  induction alternates as [| [name alt] rest IH]; intros s Hin; [destruct Hin |].
  simpl in Hin.
  assert (Hhere : In s (yielded (alternate_sectors name alt)) ->
                  exists name', In (name', sec_alt s) ((name, alt) :: rest) /\ comes_from s name').
  { intros H. apply alternate_sectors_In in H as [<- Hfrom].
    exists name. split; [left; reflexivity | exact Hfrom]. }
  destruct (raised (alternate_sectors name alt)) as [e |]; [exact (Hhere Hin) |].
  simpl in Hin. apply in_app_or in Hin as [Hin | Hin]; [exact (Hhere Hin) |].
  apply IH in Hin as (name' & Hname & Hfrom).
  exists name'. split; [right; exact Hname | exact Hfrom].
Qed.

Lemma yielded_sector_comes_from_a_term_witness :
  In (mk_sector (Py.lit "Flash") 0 134217728 134283264 65536 "g"%char)
     (yielded (get_device_sectors [(example_name, 0)]))
  /\ exists name,
       In (name, sec_alt (mk_sector (Py.lit "Flash") 0 134217728 134283264 65536 "g"%char))
          [(example_name, 0)]
       /\ comes_from (mk_sector (Py.lit "Flash") 0 134217728 134283264 65536 "g"%char) name.
Proof.
  assert (Hin : In (mk_sector (Py.lit "Flash") 0 134217728 134283264 65536 "g"%char)
                   (yielded (get_device_sectors [(example_name, 0)])))
    by (vm_compute; do 4 right; left; reflexivity).
  split; [exact Hin |].
  exact (yielded_sector_comes_from_a_term [(example_name, 0)] _ Hin).
Defined.

Lemma yield_sectors_chain (n : nat) (label : Py.str) (alt baseaddr size : Z) (mode : ascii)
    (rest : list sector) :
  forall addr,
  contiguous_from (addr + Z.of_nat n * size) rest ->
  contiguous_from addr (yield_sectors n label alt baseaddr addr size mode ++ rest).
Proof.
  induction n as [| n IH]; intros addr Hrest.
  - simpl. replace addr with (addr + Z.of_nat 0 * size) by lia. exact Hrest.
  - cbn [yield_sectors app contiguous_from sec_addr sec_len]. split; [reflexivity |].
    apply IH. replace (addr + size + Z.of_nat n * size)
      with (addr + Z.of_nat (S n) * size) by lia.
    exact Hrest.
Qed.

Lemma layout_loop_contiguous (label : Py.str) (alt baseaddr : Z) (terms : list Py.str) :
  forall addr, contiguous_from addr (yielded (layout_loop label alt baseaddr addr terms)).
Proof.
  induction terms as [| t rest IH]; intros addr; [exact I |].
  simpl. destruct (parse_term t) as [[[repeat size] mode] | e]; [| exact I].
  simpl. apply yield_sectors_chain. apply IH.
Qed.

(** X12.  The sectors yielded for one alternate setting tile the memory
    from the base address of its descriptor: the first one starts there
    and every other one where the one before it ends.  This holds for the
    sectors yielded before a malformed term as well. *)
Theorem alternate_sectors_are_contiguous :
  forall (name label base layout : Py.str) (alt baseaddr : Z),
  Py.split "/"%char name = [label; base; layout] ->
  Py.int0 base = Ok baseaddr ->
  contiguous_from baseaddr (yielded (alternate_sectors name alt)).
Proof.
  intros name label base layout alt baseaddr Hsplit Hbase.
  unfold alternate_sectors. rewrite Hsplit, Hbase. apply layout_loop_contiguous.
Qed.

Lemma alternate_sectors_are_contiguous_witness :
  (Py.split "/"%char (Py.lit "@Bad/0x10/02*001Kg,01*016Xg")
   = [Py.lit "@Bad"; Py.lit "0x10"; Py.lit "02*001Kg,01*016Xg"]
   /\ Py.int0 (Py.lit "0x10") = Ok 16)
  /\ contiguous_from 16 (yielded (alternate_sectors (Py.lit "@Bad/0x10/02*001Kg,01*016Xg") 1)).
Proof.
  assert (Hsplit : Py.split "/"%char (Py.lit "@Bad/0x10/02*001Kg,01*016Xg")
                   = [Py.lit "@Bad"; Py.lit "0x10"; Py.lit "02*001Kg,01*016Xg"])
    by (vm_compute; reflexivity).
  assert (Hbase : Py.int0 (Py.lit "0x10") = Ok 16) by (vm_compute; reflexivity).
  split; [split; assumption |].
  exact (alternate_sectors_are_contiguous _ _ _ _ 1 16 Hsplit Hbase).
Defined.

(** X13.  The sector map of two lists of descriptors in a row: when the
    first list is read without an exception, its sectors are followed by
    what the second list gives; when it raises, the second list is not
    looked at. *)
Theorem get_device_sectors_app :
  forall a b : list (Py.str * Z),
  get_device_sectors (a ++ b)
  = match raised (get_device_sectors a) with
    | Some e => get_device_sectors a
    | None =>
        mk_generated (yielded (get_device_sectors a) ++ yielded (get_device_sectors b))
                     (raised (get_device_sectors b))
    end.
Proof.
  induction a as [| [name alt] rest IH]; intros b.
  - simpl. destruct (get_device_sectors b). reflexivity.
  - cbn [app get_device_sectors].
    destruct (raised (alternate_sectors name alt)) as [e |] eqn:E.
    + rewrite E. reflexivity.
    + rewrite IH. cbn [raised yielded].
      destruct (raised (get_device_sectors rest)) as [e |] eqn:Erest.
      * rewrite Erest. cbn [raised]. reflexivity.
      * cbn [raised yielded]. rewrite app_assoc. reflexivity.
Qed.

(** ** The whole run, from the descriptors to the jump *)

Lemma main_run {W : Type} (D : device W) G hexfile (w w1 : W) (alts : list (Py.str * Z)) :
  D _ (dfudev G) DfuDevice.alternates w = (Ok alts, w1) ->
  run D (main G hexfile) w
  = match list_of (get_device_sectors alts) with
    | Ok sectors =>
        (Event (dfudev G) DfuDevice.alternates (Ok alts)
           :: trace_of (run D (sequencer G (populate_sectors sectors hexfile)) w1),
         outcome_of (run D (sequencer G (populate_sectors sectors hexfile)) w1),
         state_of (run D (sequencer G (populate_sectors sectors hexfile)) w1))
    | Raise e => ([Event (dfudev G) DfuDevice.alternates (Ok alts)], Raise e, w1)
    end.
Proof.
  intros Halts. unfold main, call. cbn [bind run]. rewrite Halts.
  destruct (list_of (get_device_sectors alts)) as [sectors | e]; cbn [lift bind run].
  - destruct (run D (sequencer G (populate_sectors sectors hexfile)) w1) as [[t res] w2].
    reflexivity.
  - reflexivity.
Qed.

(** X14.  When one of the descriptors the device reports is malformed,
    [main] raises after the query of the descriptors: no alternate setting
    is selected and nothing is erased, written or read, whatever the
    image and the other descriptors are. *)
Theorem main_stops_at_malformed_descriptor :
  forall (W : Type) (D : device W) (G : globals) (hexfile : gmap Z byte) (w w1 : W)
         (alts : list (Py.str * Z)) (name : Py.str) (alt : Z),
  D _ (dfudev G) DfuDevice.alternates w = (Ok alts, w1) ->
  In (name, alt) alts ->
  malformed_descriptor name ->
  exists e,
    run D (main G hexfile) w
    = ([Event (dfudev G) DfuDevice.alternates (Ok alts)], Raise e, w1).
Proof.
  intros W D G hexfile w w1 alts name alt Halts Hin Hbad.
  rewrite (main_run D G hexfile w w1 alts Halts). unfold list_of.
  destruct (raised (get_device_sectors alts)) as [e |] eqn:E.
  - exists e. reflexivity.
  - destruct (get_device_sectors_ok alts E name alt Hin Hbad).
Qed.

Lemma main_stops_at_malformed_descriptor_witness :
  (Sim.step _ (dfudev G0) DfuDevice.alternates
     (Sim.fresh [(example_name, 0); (Py.lit "RAM", 1)] false)
   = (Ok [(example_name, 0); (Py.lit "RAM", 1)],
      Sim.fresh [(example_name, 0); (Py.lit "RAM", 1)] false)
   /\ In (Py.lit "RAM", 1) [(example_name, 0); (Py.lit "RAM", 1)]
   /\ malformed_descriptor (Py.lit "RAM"))
  /\ exists e,
       run Sim.step (main G0 small_image)
         (Sim.fresh [(example_name, 0); (Py.lit "RAM", 1)] false)
       = ([Event (dfudev G0) DfuDevice.alternates
             (Ok [(example_name, 0); (Py.lit "RAM", 1)])],
          Raise e,
          Sim.fresh [(example_name, 0); (Py.lit "RAM", 1)] false).
Proof.
  assert (Halts : Sim.step _ (dfudev G0) DfuDevice.alternates
                    (Sim.fresh [(example_name, 0); (Py.lit "RAM", 1)] false)
                  = (Ok [(example_name, 0); (Py.lit "RAM", 1)],
                     Sim.fresh [(example_name, 0); (Py.lit "RAM", 1)] false))
    by reflexivity.
  assert (Hin : In (Py.lit "RAM", 1) [(example_name, 0); (Py.lit "RAM", 1)])
    by (right; left; reflexivity).
  assert (Hbad : malformed_descriptor (Py.lit "RAM"))
    by (left; vm_compute; discriminate).
  split; [repeat split; assumption |].
  exact (main_stops_at_malformed_descriptor _ Sim.step G0 small_image _ _ _ _ _
           Halts Hin Hbad).
Defined.

(** X15.  With an image that defines no byte no sector is selected: after
    the query of the descriptors [main] goes straight to the jump to the
    application, and its outcome is the outcome of the jump.  Nothing is
    erased, written or read. *)
Theorem main_with_empty_image_only_jumps :
  forall (W : Type) (D : device W) (G : globals) (w w1 : W)
         (alts : list (Py.str * Z)),
  D _ (dfudev G) DfuDevice.alternates w = (Ok alts, w1) ->
  is_ok (list_of (get_device_sectors alts)) = true ->
  run D (main G ∅) w
  = (Event (dfudev G) DfuDevice.alternates (Ok alts)
       :: trace_of (run D (jump_to_application G (dfudev G) 134217728) w1),
     outcome_of (run D (jump_to_application G (dfudev G) 134217728) w1),
     state_of (run D (jump_to_application G (dfudev G) 134217728) w1)).
Proof.
  intros W D G w w1 alts Halts Hok.
  rewrite (main_run D G ∅ w w1 alts Halts).
  destruct (list_of (get_device_sectors alts)) as [sectors | e]; [| discriminate].
  rewrite populate_sectors_empty. reflexivity.
Qed.

Lemma main_with_empty_image_only_jumps_witness :
  (Sim.step _ (dfudev G0) DfuDevice.alternates (Sim.fresh [(example_name, 0)] false)
   = (Ok [(example_name, 0)], Sim.fresh [(example_name, 0)] false)
   /\ is_ok (list_of (get_device_sectors [(example_name, 0)])) = true)
  /\ run Sim.step (main G0 ∅) (Sim.fresh [(example_name, 0)] false)
     = (Event (dfudev G0) DfuDevice.alternates (Ok [(example_name, 0)])
          :: trace_of (run Sim.step (jump_to_application G0 (dfudev G0) 134217728)
                         (Sim.fresh [(example_name, 0)] false)),
        outcome_of (run Sim.step (jump_to_application G0 (dfudev G0) 134217728)
                      (Sim.fresh [(example_name, 0)] false)),
        state_of (run Sim.step (jump_to_application G0 (dfudev G0) 134217728)
                    (Sim.fresh [(example_name, 0)] false))).
Proof.
  assert (Halts : Sim.step _ (dfudev G0) DfuDevice.alternates
                    (Sim.fresh [(example_name, 0)] false)
                  = (Ok [(example_name, 0)], Sim.fresh [(example_name, 0)] false))
    by reflexivity.
  assert (Hok : is_ok (list_of (get_device_sectors [(example_name, 0)])) = true)
    by (vm_compute; reflexivity).
  split; [split; assumption |].
  exact (main_with_empty_image_only_jumps _ Sim.step G0 _ _ _ Halts Hok).
Defined.

Lemma after_erase_kinds_only G touched_sectors :
  only_calls (of_kinds (flash_kinds ++ verify_kinds ++ jump_kinds))
    (flash_pass G touched_sectors >> verify_pass G touched_sectors >>
     jump_to_application G (dfudev G) 134217728).
Proof.
  apply only_calls_bind; [| intros _; apply only_calls_bind; [| intros _]].
  - eapply only_calls_weaken; [| apply flash_pass_kinds_only].
    intros d k Hk. apply in_or_app. left. exact Hk.
  - eapply only_calls_weaken; [| apply verify_pass_kinds_only].
    intros d k Hk. apply in_or_app. right. apply in_or_app. left. exact Hk.
  - eapply only_calls_weaken; [| apply jump_kinds_only].
    intros d k Hk. apply in_or_app. right. apply in_or_app. right. exact Hk.
Qed.

Lemma sequencer_erases {W : Type} (D : device W) G touched_sectors (w : W) :
  emits erase_of (map (fun entry => sec_addr (fst entry)) touched_sectors)
    D (sequencer G touched_sectors) w.
Proof.
  unfold sequencer. apply emits_bind_then_silent; [apply erase_pass_emits |].
  intros [] w'.
  destruct (run D (flash_pass G touched_sectors >> verify_pass G touched_sectors >>
                   jump_to_application G (dfudev G) 134217728) w')
    as [[t res] w''] eqn:E.
  cbn [trace_of fst].
  assert (Hk : ~ In KErase (flash_kinds ++ verify_kinds ++ jump_kinds)) by not_in_kinds.
  exact (silent_run erase_of KErase _ D _ w' w'' t res erase_of_kind
           Hk (after_erase_kinds_only G touched_sectors) E).
Qed.

(** X16.  [main] erases sectors of the device's sector map only, and among
    those of positive length only sectors in which the image defines a
    byte: every erase request it sends names the address of such a
    sector. *)
Theorem main_erases_only_sectors_with_image_data :
  forall (W : Type) (D : device W) (G : globals) (hexfile : gmap Z byte) (w w1 : W)
         (alts : list (Py.str * Z)) (a : Z),
  D _ (dfudev G) DfuDevice.alternates w = (Ok alts, w1) ->
  In a (omap erase_of (trace_of (run D (main G hexfile) w))) ->
  exists s,
    In s (yielded (get_device_sectors alts))
    /\ sec_addr s = a
    /\ (0 < sec_len s ->
        exists x, sec_addr s <= x < sec_addr s + sec_len s /\ is_Some (hexfile !! x)).
Proof.
  intros W D G hexfile w w1 alts a Halts Hin.
  rewrite (main_run D G hexfile w w1 alts Halts) in Hin. unfold list_of in Hin.
  destruct (raised (get_device_sectors alts)) as [e |]; [destruct Hin |].
  cbn [trace_of fst omap erase_of] in Hin.
  destruct (sequencer_erases D G (populate_sectors (yielded (get_device_sectors alts)) hexfile) w1)
    as (rest & Hrest & _).
  assert (Hplanned : In a (map (fun entry => sec_addr (fst entry))
                             (populate_sectors (yielded (get_device_sectors alts)) hexfile))).
  { rewrite Hrest. apply in_or_app. left. exact Hin. }
  apply in_map_iff in Hplanned as ([s data] & <- & Hentry).
  apply populate_sectors_In in Hentry as (Hs & Htouched & _).
  exists s. split; [exact Hs |]. split; [reflexivity |].
  intros Hlen. apply (touched_iff_defined hexfile _ _ Hlen). exact Htouched.
Qed.

Lemma main_erases_only_sectors_with_image_data_witness :
  (Sim.step _ (dfudev G0) DfuDevice.alternates (Sim.fresh [(small_name, 1)] false)
   = (Ok [(small_name, 1)], Sim.fresh [(small_name, 1)] false)
   /\ In 272 (omap erase_of
                (trace_of (run Sim.step (main G0 small_image)
                             (Sim.fresh [(small_name, 1)] false)))))
  /\ exists s,
       In s (yielded (get_device_sectors [(small_name, 1)]))
       /\ sec_addr s = 272
       /\ (0 < sec_len s ->
           exists x, sec_addr s <= x < sec_addr s + sec_len s
                     /\ is_Some (small_image !! x)).
Proof.
  assert (Halts : Sim.step _ (dfudev G0) DfuDevice.alternates
                    (Sim.fresh [(small_name, 1)] false)
                  = (Ok [(small_name, 1)], Sim.fresh [(small_name, 1)] false))
    by reflexivity.
  assert (Hin : In 272 (omap erase_of
                          (trace_of (run Sim.step (main G0 small_image)
                                       (Sim.fresh [(small_name, 1)] false)))))
    by (vm_compute; left; reflexivity).
  split; [split; assumption |].
  exact (main_erases_only_sectors_with_image_data _ Sim.step G0 small_image _ _ _ 272
           Halts Hin).
Defined.

(** ** The UUID helpers *)

Lemma Z_of_byte_range (b : byte) : 0 <= Z_of_byte b < 256.
Proof.
  unfold Z_of_byte. pose proof (Byte.to_N_bounded b). lia.
Qed.

Lemma Z_of_byte_of_Z (n : Z) : Z_of_byte (byte_of_Z n) = n mod 256.
Proof.
  unfold Z_of_byte, byte_of_Z.
  pose proof (Z.mod_pos_bound n 256 ltac:(lia)) as Hmod.
  destruct (Byte.of_N (Z.to_N (n mod 256))) as [b |] eqn:E.
  - apply Byte.to_of_N in E. rewrite E. lia.
  - apply Byte.of_N_None_iff in E. lia.
Qed.

Lemma hex_digit_value (d : Z) :
  0 <= d < 16 ->
  Py.digit_val (Py.upper_char (hex_digit d)) = Some d
  /\ Ascii.eqb (Py.upper_char (hex_digit d)) "_"%char = false
  /\ In (Py.upper_char (hex_digit d)) (Py.lit "0123456789ABCDEF").
Proof.
  intros Hd.
  assert (H : d = 0 \/ d = 1 \/ d = 2 \/ d = 3 \/ d = 4 \/ d = 5 \/ d = 6 \/ d = 7
              \/ d = 8 \/ d = 9 \/ d = 10 \/ d = 11 \/ d = 12 \/ d = 13 \/ d = 14
              \/ d = 15) by lia.
  decompose [or] H; subst d; vm_compute; intuition congruence.
Qed.

Lemma scan_hex_bytes (bs : list byte) :
  forall (acc : Z) (b : byte),
  Py.scan_digits 16 acc false (Py.upper (hex (b :: bs)))
  = Some (fold_left (fun a x => a * 256 + Z_of_byte x) (b :: bs) acc)
  /\ Py.scan_digits 16 acc true (Py.upper (hex (b :: bs)))
     = Some (fold_left (fun a x => a * 256 + Z_of_byte x) (b :: bs) acc).
Proof.
  induction bs as [| b' rest IH]; intros acc b.
  - pose proof (Z_of_byte_range b) as Hb.
    destruct (hex_digit_value (Z_of_byte b / 16)) as (Hhi & Hhi' & _);
      [split; [apply Z.div_pos | apply Z.div_lt_upper_bound]; lia |].
    destruct (hex_digit_value (Z_of_byte b mod 16)) as (Hlo & Hlo' & _);
      [apply Z.mod_pos_bound; lia |].
    assert (Hhi16 : (Z_of_byte b / 16 <? 16) = true)
      by (apply Z.ltb_lt, Z.div_lt_upper_bound; lia).
    assert (Hlo16 : (Z_of_byte b mod 16 <? 16) = true)
      by (apply Z.ltb_lt, Z.mod_pos_bound; lia).
    cbn [hex flat_map app Py.upper map Py.scan_digits fold_left].
    rewrite Hhi', Hhi, Hhi16, Hlo', Hlo, Hlo16.
    assert (E : (acc * 16 + Z_of_byte b / 16) * 16 + Z_of_byte b mod 16
                = acc * 256 + Z_of_byte b)
      by (pose proof (Z.div_mod (Z_of_byte b) 16 ltac:(lia)); lia).
    rewrite E. split; reflexivity.
  - pose proof (Z_of_byte_range b) as Hb.
    destruct (hex_digit_value (Z_of_byte b / 16)) as (Hhi & Hhi' & _);
      [split; [apply Z.div_pos | apply Z.div_lt_upper_bound]; lia |].
    destruct (hex_digit_value (Z_of_byte b mod 16)) as (Hlo & Hlo' & _);
      [apply Z.mod_pos_bound; lia |].
    assert (Hhi16 : (Z_of_byte b / 16 <? 16) = true)
      by (apply Z.ltb_lt, Z.div_lt_upper_bound; lia).
    assert (Hlo16 : (Z_of_byte b mod 16 <? 16) = true)
      by (apply Z.ltb_lt, Z.mod_pos_bound; lia).
    assert (E : forall a, (a * 16 + Z_of_byte b / 16) * 16 + Z_of_byte b mod 16
                          = a * 256 + Z_of_byte b)
      by (intros a; pose proof (Z.div_mod (Z_of_byte b) 16 ltac:(lia)); lia).
    change (hex (b :: b' :: rest))
      with ([hex_digit (Z_of_byte b / 16); hex_digit (Z_of_byte b mod 16)]
            ++ hex (b' :: rest)).
    unfold Py.upper. rewrite map_app. fold (Py.upper (hex (b' :: rest))).
    cbn [map app Py.scan_digits].
    rewrite Hhi', Hhi, Hhi16, Hlo', Hlo, Hlo16, E.
    destruct (IH (acc * 256 + Z_of_byte b) b') as [_ Htrue].
    rewrite Htrue. split; reflexivity.
Qed.

Lemma hex_chars (bs : list byte) :
  length (Py.upper (hex bs)) = (2 * length bs)%nat
  /\ Forall (fun c => In c (Py.lit "0123456789ABCDEF")) (Py.upper (hex bs)).
Proof.
  induction bs as [| b rest [IHlen IHchars]]; [split; [reflexivity | constructor] |].
  pose proof (Z_of_byte_range b) as Hb.
  destruct (hex_digit_value (Z_of_byte b / 16)) as (_ & _ & Hhi);
    [split; [apply Z.div_pos | apply Z.div_lt_upper_bound]; lia |].
  destruct (hex_digit_value (Z_of_byte b mod 16)) as (_ & _ & Hlo);
    [apply Z.mod_pos_bound; lia |].
  change (Py.upper (hex (b :: rest)))
    with (Py.upper_char (hex_digit (Z_of_byte b / 16))
          :: Py.upper_char (hex_digit (Z_of_byte b mod 16)) :: Py.upper (hex rest)).
  split.
  - cbn [length]. rewrite IHlen. lia.
  - constructor; [exact Hhi |]. constructor; [exact Hlo | exact IHchars].
Qed.

Lemma struct_pack_I_int (n : Z) :
  struct_pack_I (PInt n)
  = if (0 <=? n) && (n <? 2 ^ 32)
    then Ok [byte_of_Z (n / 2 ^ 24); byte_of_Z (n / 2 ^ 16); byte_of_Z (n / 2 ^ 8);
             byte_of_Z n]
    else Raise StructError.
Proof. reflexivity. Qed.

(** X17.  Given the three words of a UUID as integers, [uuid_to_serial]
    returns a serial number when the sum of the first and the third word
    and the second word fit 32 bits each: twelve upper-case hexadecimal
    digits that spell the 32 bits of the sum followed by the upper 16 bits
    of the second word.  Otherwise it raises [struct.error]; the sum is
    not reduced modulo 2^32. *)
Theorem uuid_to_serial_of_integers :
  (forall w0 w1 w2 : Z,
     0 <= w0 + w2 < 2 ^ 32 ->
     0 <= w1 < 2 ^ 32 ->
     exists serial,
       uuid_to_serial (PInt w0) (PInt w1) (PInt w2) = Ok serial
       /\ length serial = 12%nat
       /\ Forall (fun c => In c (Py.lit "0123456789ABCDEF")) serial
       /\ Py.scan_digits 16 0 false serial = Some ((w0 + w2) * 2 ^ 16 + w1 / 2 ^ 16))
  /\ (forall w0 w1 w2 : Z,
        ~ (0 <= w0 + w2 < 2 ^ 32 /\ 0 <= w1 < 2 ^ 32) ->
        uuid_to_serial (PInt w0) (PInt w1) (PInt w2) = Raise StructError).
Proof.
  split.
  - intros w0 w1 w2 Hsum Hw1.
    unfold uuid_to_serial. cbn [py_add rbind]. rewrite !struct_pack_I_int.
    replace ((0 <=? w0 + w2) && (w0 + w2 <? 2 ^ 32)) with true by lia.
    replace ((0 <=? w1) && (w1 <? 2 ^ 32)) with true by lia.
    cbn [rbind]. eexists. split; [reflexivity |].
    change (Py.slice 0 2 [byte_of_Z (w1 / 2 ^ 24); byte_of_Z (w1 / 2 ^ 16);
                          byte_of_Z (w1 / 2 ^ 8); byte_of_Z w1])
      with [byte_of_Z (w1 / 2 ^ 24); byte_of_Z (w1 / 2 ^ 16)].
    cbn [app].
    split; [apply hex_chars |]. split; [apply hex_chars |].
    rewrite (proj1 (scan_hex_bytes _ 0 _)). f_equal.
    cbn [fold_left]. rewrite !Z_of_byte_of_Z.
    set (s := w0 + w2) in *.
    change (2 ^ 32) with 4294967296 in *. change (2 ^ 24) with 16777216.
    change (2 ^ 16) with 65536. change (2 ^ 8) with 256.
    Z.div_mod_to_equations. lia.
  - intros w0 w1 w2 Hout.
    unfold uuid_to_serial. cbn [py_add rbind]. rewrite !struct_pack_I_int.
    destruct ((0 <=? w0 + w2) && (w0 + w2 <? 2 ^ 32)) eqn:Esum; [| reflexivity].
    destruct ((0 <=? w1) && (w1 <? 2 ^ 32)) eqn:Ew1; [| reflexivity].
    exfalso. apply Hout. lia.
Qed.

Lemma uuid_to_serial_of_integers_witness :
  (0 <= 945762893 + 1 < 2 ^ 32 /\ 0 <= 808915508 < 2 ^ 32)
  /\ exists serial,
       uuid_to_serial (PInt 945762893) (PInt 808915508) (PInt 1) = Ok serial
       /\ length serial = 12%nat
       /\ Forall (fun c => In c (Py.lit "0123456789ABCDEF")) serial
       /\ Py.scan_digits 16 0 false serial
          = Some ((945762893 + 1) * 2 ^ 16 + 808915508 / 2 ^ 16).
Proof.
  assert (Hsum : 0 <= 945762893 + 1 < 2 ^ 32) by (simpl; lia).
  assert (Hw1 : 0 <= 808915508 < 2 ^ 32) by (simpl; lia).
  split; [split; assumption |].
  exact (proj1 uuid_to_serial_of_integers 945762893 808915508 1 Hsum Hw1).
Defined.

(** X18.  [uuid_to_str] never returns: it raises [struct.error] when one
    of its arguments is not an integer of 32 bits, and [TypeError]
    otherwise, since it formats the packed bytes, not the integers, as
    hexadecimal numbers. *)
Theorem uuid_to_str_always_raises :
  forall uuid0 uuid1 uuid2 : pyval,
  uuid_to_str uuid0 uuid1 uuid2
  = Raise (if is_ok (struct_pack_I uuid0) && is_ok (struct_pack_I uuid1)
              && is_ok (struct_pack_I uuid2)
           then TypeError else StructError).
Proof.
  intros uuid0 uuid1 uuid2. unfold uuid_to_str.
  assert (Hpack : forall v, (exists b, struct_pack_I v = Ok b)
                            \/ struct_pack_I v = Raise StructError).
  { intros [n | b | items]; [| right; reflexivity | right; reflexivity].
    rewrite struct_pack_I_int.
    destruct ((0 <=? n) && (n <? 2 ^ 32)); [left; eexists |right]; reflexivity. }
  destruct (Hpack uuid0) as [[b0 ->] | ->]; [| reflexivity].
  destruct (Hpack uuid1) as [[b1 ->] | ->]; [| reflexivity].
  destruct (Hpack uuid2) as [[b2 ->] | ->]; reflexivity.
Qed.

Lemma struct_unpack_I_length (b : list byte) :
  struct_unpack_I b
  = if (length b =? 4)%nat then Ok (PTuple [be_value b]) else Raise StructError.
Proof.
  destruct b as [| b0 [| b1 [| b2 [| b3 [| b4 rest]]]]]; reflexivity.
Qed.

(** X19.  [str_to_uuid] drops every dash, reads the rest as pairs of
    hexadecimal digits and unpacks the first twelve bytes as three
    big-endian words, each in a tuple of its own; bytes after the twelfth
    are ignored.  Text that is not hexadecimal ends in [ValueError], fewer
    than twelve bytes in [struct.error]. *)
Theorem str_to_uuid_reads_twelve_bytes :
  forall uuid : Py.str,
  str_to_uuid uuid
  = match fromhex (Py.remove_char "-"%char uuid) with
    | Raise _ => Raise ValueError
    | Ok bytes =>
        if (12 <=? length bytes)%nat
        then Ok (PTuple [be_value (take 4 bytes)],
                 PTuple [be_value (take 4 (drop 4 bytes))],
                 PTuple [be_value (take 4 (drop 8 bytes))])
        else Raise StructError
    end.
Proof.
  intros uuid. unfold str_to_uuid.
  destruct (fromhex (Py.remove_char "-"%char uuid)) as [bytes | e] eqn:Ehex.
  - cbn [rbind].
    rewrite !slice_take_drop by lia. rewrite !struct_unpack_I_length.
    change (Z.to_nat (4 - 0)) with 4%nat. change (Z.to_nat (8 - 4)) with 4%nat.
    change (Z.to_nat (12 - 8)) with 4%nat. change (Z.to_nat 0) with 0%nat.
    change (Z.to_nat 4) with 4%nat. change (Z.to_nat 8) with 8%nat.
    rewrite drop_0, !length_take, !length_drop.
    destruct (12 <=? length bytes)%nat eqn:Elen.
    + apply Nat.leb_le in Elen.
      replace (4 `min` length bytes =? 4)%nat with true by (symmetry; apply Nat.eqb_eq; lia).
      replace (4 `min` (length bytes - 4) =? 4)%nat with true
        by (symmetry; apply Nat.eqb_eq; lia).
      replace (4 `min` (length bytes - 8) =? 4)%nat with true
        by (symmetry; apply Nat.eqb_eq; lia).
      reflexivity.
    + apply Nat.leb_gt in Elen.
      replace (4 `min` (length bytes - 8) =? 4)%nat with false
        by (symmetry; apply Nat.eqb_neq; lia).
      destruct (4 `min` length bytes =? 4)%nat; [| reflexivity].
      destruct (4 `min` (length bytes - 4) =? 4)%nat; reflexivity.
  - cbn [rbind]. f_equal. eapply fromhex_raises_ValueError; [reflexivity | exact Ehex].
Qed.

(** Dashes are dropped wherever they stand, and bytes after the twelfth
    are not looked at. *)
Example str_to_uuid_lenient :
  str_to_uuid (Py.lit "0-0000001000000020000000-3ffff")
  = Ok (PTuple [1], PTuple [2], PTuple [3])
  /\ str_to_uuid (Py.lit "00000001-00000002-000003") = Raise StructError
  /\ str_to_uuid (Py.lit "0000000g-00000002-00000003") = Raise ValueError.
Proof. repeat split; vm_compute; reflexivity. Qed.
